(** * Shogun: the factor-graph structured model and the SumOne preprocessor

    A shallow embedding of
    - [src/shogun/structure/FactorGraphModel.cpp] (class [CFactorGraphModel]):
      the factor-type registry, the mapping between the per-type weight
      blocks and the global weight vector, the joint feature vector, the
      loss-augmented argmax, the Hamming-style loss and the box constraints
      of the primal problem;
    - [src/shogun/preprocessor/SumOne.cpp] (class [CSumOne]).

    Conventions.
    - [int32_t] is modelled by [Z].  Signed overflow is undefined in C++ and
      every quantity below is a length, an index or an identifier, so no
      wrap-around is written.
    - [float64_t] is modelled by Rocq's primitive binary64 floats: [+0] and
      [-0] are different values that compare equal, and [nan] differs from
      itself, as on the machine.
    - An [SGVector<T>] is modelled by the list of its elements; [size] is its
      [vlen].  Reading or writing outside the buffer is undefined behaviour
      and is reported as the error [UndefinedBehaviour].
    - [REQUIRE] throws ([ConfigurationError]); [ASSERT] aborts
      ([AssertionFailed]).  Both end the call. *)

From Stdlib Require Import ZArith Lia Floats Bool.
From stdpp Require Import base option list gmap.

#[local] Open Scope Z_scope.

(* ================================================================= *)
(** * Part I: the embedding *)
(* ================================================================= *)

(** ** Errors and results *)

Inductive error : Set :=
| ConfigurationError     (* REQUIRE(...) failed *)
| AssertionFailed        (* ASSERT(...) failed *)
| UndefinedBehaviour.    (* index outside a buffer, negative length *)

Inductive result (A : Type) : Type :=
| Ok (a : A)
| Err (e : error).
Arguments Ok {A} a.
Arguments Err {A} e.

Notation "'let*' x ':=' e 'in' k" :=
  (match e with Ok x => k | Err err => Err err end)
  (at level 10, x pattern, e at level 200, k at level 200, only parsing).

Definition REQUIRE (c : bool) : result unit :=
  if c then Ok tt else Err ConfigurationError.

Definition ASSERT (c : bool) : result unit :=
  if c then Ok tt else Err AssertionFailed.

(** ** Counted loops

    [for_range lo hi body s] is [for (i = lo; i < hi; ++i) s = body(i, s)]. *)

Fixpoint for_loop {S : Type} (n : nat) (i : Z)
    (body : Z -> S -> result S) (s : S) : result S :=
  match n with
  | O => Ok s
  | Datatypes.S n' =>
      let* s' := body i s in for_loop n' (i + 1) body s'
  end.

Definition for_range {S : Type} (lo hi : Z)
    (body : Z -> S -> result S) (s : S) : result S :=
  for_loop (Z.to_nat (hi - lo)) lo body s.

(** ** SGVector

    [SGVector] is declared in [shogun/lib/SGVector.h]; the operations that
    the two classes use are modelled here. *)

Definition size {A : Type} (v : list A) : Z := Z.of_nat (length v).

(** [v[i]] as an r-value. *)
Definition vget {A : Type} (v : list A) (i : Z) : result A :=
  if i <? 0 then Err UndefinedBehaviour
  else match v !! Z.to_nat i with
       | Some x => Ok x
       | None => Err UndefinedBehaviour
       end.

(** [v[i] = x]. *)
Definition vset {A : Type} (v : list A) (i : Z) (x : A) : result (list A) :=
  if (0 <=? i) && (i <? size v) then Ok (<[Z.to_nat i := x]> v)
  else Err UndefinedBehaviour.

(** Modelled from the spec: [SGVector::resize_vector(n)] is defined in
    [SGVector.cpp]; the spec has the parameter map extended at its end on [add] and
    shortened on [remove], so the first [n] entries are kept and new
    entries are filled with [d] (they are overwritten by the callers). *)
Definition resize_vector {A : Type} (d : A) (v : list A) (n : Z)
    : result (list A) :=
  if n <? 0 then Err UndefinedBehaviour
  else Ok (take (Z.to_nat n) v ++ replicate (Z.to_nat n - length v)%nat d).

Fixpoint find_from (i : Z) (v : list Z) (elem : Z) : list Z :=
  match v with
  | [] => []
  | x :: v' =>
      if x =? elem then i :: find_from (i + 1) v' elem
      else find_from (i + 1) v' elem
  end.

(** Modelled from the spec: [SGVector::find(elem)] is defined in
    [SGVector.cpp]; the spec's [slots_for(type_id)] "returns the ordered list of
    global-vector indices belonging to [type_id]". *)
Definition find (v : list Z) (elem : Z) : list Z := find_from 0 v elem.

(** Modelled from the spec: [SGVector::equals] is defined in
    [SGVector.cpp]; the spec's dirty check is "element-wise equal", "compare by value": same
    length and [==] on every pair of entries. *)
Fixpoint equals (a b : list float) : bool :=
  match a, b with
  | [], [] => true
  | x :: a', y :: b' => PrimFloat.eqb x y && equals a' b'
  | _, _ => false
  end.

(** Modelled from the spec: [SGVector::zero()], "a zero vector". *)
Definition zero (v : list float) : list float :=
  replicate (length v) 0%float.

(** Modelled from the spec: [SGVector::scale(alpha)], used to "negate the
    accumulated vector": every entry is multiplied by [alpha]. *)
Definition scale (v : list float) (alpha : float) : list float :=
  map (fun x => PrimFloat.mul x alpha) v.

(** Modelled from the spec: [SGVector::fill_vector(vec, len, value)], used
    for the unconstrained bounds. *)
Definition fill_vector (v : list float) (value : float) : list float :=
  replicate (length v) value.

(** [SGVector<T> v(n)]: a buffer of [n] entries.  The fresh buffer is not
    initialised by the constructor; the model shows [d] in it. *)
Definition new_vector {A : Type} (d : A) (n : Z) : result (list A) :=
  if n <? 0 then Err UndefinedBehaviour else Ok (replicate (Z.to_nat n) d).

(** ** Factor types, observations, factors *)

(** [CFactorType] / [CTableFactorType] ([shogun/structure/FactorType.h]),
    as far as the model reads it: identifier, weights, number of weights,
    cardinalities.  The fields carry the names of the getters. *)
Record CFactorType : Type := {
  get_type_id : Z;
  get_w : list float;
  get_w_dim : Z;
  get_cardinalities : list Z
}.

(** [ftype->set_w(fw)]; every caller below passes [get_w_dim] entries. *)
Definition set_w (fw : list float) (ftype : CFactorType) : CFactorType :=
  {| get_type_id := get_type_id ftype;
     get_w := fw;
     get_w_dim := get_w_dim ftype;
     get_cardinalities := get_cardinalities ftype |}.

(** [CFactorGraphObservation]: the states and the loss weights. *)
Record CFactorGraphObservation : Type := {
  get_data : list Z;
  get_loss_weights : list float
}.

(** [CFactor]: its (table) factor type, its data and its variables. *)
Record CFactor : Type := {
  get_factor_type : CFactorType;
  fac_get_data : list float;
  get_variables : list Z
}.

Inductive EMAPInferType : Set :=
| TREE_MAX_PROD | LOOPY_MAX_PROD | LP_RELAXATION
| TRWS_MAX_PROD | GEMPLP | GRAPH_CUT.

(** ** Observable effects

    What a call prints and what it asks of the structure instance, in the
    order in which it happens. *)

Inductive fg_call : Type :=
| connect_components_call
| is_tree_graph_call
| compute_energies_call
| evaluate_energies_call
| get_factors_call
| evaluate_energy_call (states : list Z)
| loss_augmentation_call (y_truth : CFactorGraphObservation)
| inference_call (inf_type : EMAPInferType)
| get_structured_outputs_call.

Inductive message : Type :=
| msg_already_added (id : Z)              (* add_factor_type, SG_PRINT *)
| msg_w_map (w_map : list Z)              (* add_factor_type, verbose *)
| msg_update_w_cache                      (* w_to_fparams, verbose *)
| msg_example (feat_idx : Z)              (* argmax, verbose *)
| msg_before_loss_aug
| msg_after_loss_aug
| msg_summary (w psi_pred : list float) (state_pred : list Z)
    (dot_pred energy_pred delta : float)
    (psi_truth : list float) (state_gt : list Z)
    (dot_truth energy_gt slack score : float).

Inductive event : Type :=
| Printed (m : message)
| Called (feat_idx : Z) (c : fg_call).

(** ** The model object *)

Section Model.

Context {FG : Type}.

(** The members of [CFactorGraphModel], those it inherits from
    [CStructuredModel] ([m_features], [m_labels]), and the events so far. *)
Record CFactorGraphModel : Type := {
  m_factor_types : list CFactorType;
  m_w_cache : list float;
  m_w_map : list Z;
  m_inf_type : EMAPInferType;
  m_verbose : bool;
  m_features : list FG;
  m_labels : list CFactorGraphObservation;
  trace : list event
}.

Definition with_factor_types (fts : list CFactorType) (st : CFactorGraphModel) :=
  {| m_factor_types := fts; m_w_cache := m_w_cache st; m_w_map := m_w_map st;
     m_inf_type := m_inf_type st; m_verbose := m_verbose st;
     m_features := m_features st; m_labels := m_labels st; trace := trace st |}.

Definition with_w_cache (w : list float) (st : CFactorGraphModel) :=
  {| m_factor_types := m_factor_types st; m_w_cache := w; m_w_map := m_w_map st;
     m_inf_type := m_inf_type st; m_verbose := m_verbose st;
     m_features := m_features st; m_labels := m_labels st; trace := trace st |}.

Definition with_w_map (w_map : list Z) (st : CFactorGraphModel) :=
  {| m_factor_types := m_factor_types st; m_w_cache := m_w_cache st; m_w_map := w_map;
     m_inf_type := m_inf_type st; m_verbose := m_verbose st;
     m_features := m_features st; m_labels := m_labels st; trace := trace st |}.

Definition with_features (fs : list FG) (st : CFactorGraphModel) :=
  {| m_factor_types := m_factor_types st; m_w_cache := m_w_cache st; m_w_map := m_w_map st;
     m_inf_type := m_inf_type st; m_verbose := m_verbose st;
     m_features := fs; m_labels := m_labels st; trace := trace st |}.

Definition emit (e : event) (st : CFactorGraphModel) :=
  {| m_factor_types := m_factor_types st; m_w_cache := m_w_cache st; m_w_map := m_w_map st;
     m_inf_type := m_inf_type st; m_verbose := m_verbose st;
     m_features := m_features st; m_labels := m_labels st; trace := trace st ++ [e] |}.

(** The constructor (lines 25-31) with [init()] (lines 38-49). *)
Definition new_model (features : list FG) (labels : list CFactorGraphObservation)
    (inf_type : EMAPInferType) (verbose : bool) : CFactorGraphModel :=
  {| m_factor_types := []; m_w_cache := []; m_w_map := [];
     m_inf_type := inf_type; m_verbose := verbose;
     m_features := features; m_labels := labels; trace := [] |}.

(** A method: it returns a value or fails, and leaves a state.  A failure
    is fatal for the call; the state that comes with an error records the
    events up to the failure, not the members the call had half written. *)
Definition method (A : Type) : Type :=
  CFactorGraphModel -> result A * CFactorGraphModel.

(** [get_dim()], lines 163-166. *)
Definition get_dim (st : CFactorGraphModel) : Z := size (m_w_map st).

(** [get_params_mapping(ftype_id)], lines 158-161.  The loops below are
    given the map and call [find] on it. *)
Definition get_params_mapping (st : CFactorGraphModel) (ftype_id : Z) : list Z :=
  find (m_w_map st) ftype_id.

(** [get_factor_type(ftype_id)], lines 139-151: first match, or NULL. *)
Fixpoint lookup_factor_type (fts : list CFactorType) (ftype_id : Z)
    : option CFactorType :=
  match fts with
  | [] => None
  | ftype :: rest =>
      if ftype_id =? get_type_id ftype then Some ftype
      else lookup_factor_type rest ftype_id
  end.

Definition get_factor_type_by_id (st : CFactorGraphModel) (ftype_id : Z)
    : option CFactorType :=
  lookup_factor_type (m_factor_types st) ftype_id.

(** *** [fparams_to_w()], lines 168-195 *)

(** Lines 186-187: [for wi < w_dim: m_w_cache[fw_map[wi]] = fw[wi]]. *)
Definition scatter (fw_map : list Z) (fw : list float) (w_dim : Z)
    (w_cache : list float) : result (list float) :=
  for_range 0 w_dim
    (fun wi cache =>
       let* slot := vget fw_map wi in
       let* x := vget fw wi in
       vset cache slot x)
    w_cache.

(** Lines 175-190: the loop over the registry, threading [offset] and the
    cache.  ([m_factor_types] is allocated by [init()] and never reset, so
    the [REQUIRE] of line 170 holds.) *)
Fixpoint fparams_to_w_loop (fts : list CFactorType) (w_map : list Z)
    (offset : Z) (w_cache : list float) : result (Z * list float) :=
  match fts with
  | [] => Ok (offset, w_cache)
  | ftype :: rest =>
      let w_dim := get_w_dim ftype in
      let offset := offset + w_dim in
      let fw := get_w ftype in
      let fw_map := find w_map (get_type_id ftype) in
      let* _ := ASSERT (size fw_map =? size fw) in
      let* w_cache := scatter fw_map fw w_dim w_cache in
      fparams_to_w_loop rest w_map offset w_cache
  end.

Definition fparams_to_w : method (list float) := fun st =>
  match
    (let* w_cache :=
       (if negb (size (m_w_cache st) =? get_dim st)
        then resize_vector 0%float (m_w_cache st) (get_dim st)
        else Ok (m_w_cache st)) in
     let* (offset, w_cache) :=
       fparams_to_w_loop (m_factor_types st) (m_w_map st) 0 w_cache in
     let* _ := ASSERT (offset =? size w_cache) in
     Ok w_cache)
  with
  | Ok w_cache => (Ok w_cache, with_w_cache w_cache st)
  | Err e => (Err e, st)
  end.

(** *** [add_factor_type(ftype)], lines 51-96 *)

(** Lines 58-71: is a type with this id registered? *)
Definition has_type_id (fts : list CFactorType) (id : Z) : bool :=
  existsb (fun ft => id =? get_type_id ft) fts.

(** Lines 73-84: the new parameter map. *)
Definition extend_w_map (w_map_cp : list Z) (id w_dim : Z) : result (list Z) :=
  let* w_map := resize_vector 0 w_map_cp (size w_map_cp + w_dim) in
  let* w_map :=
    for_range 0 (size w_map_cp)
      (fun mi w_map => let* x := vget w_map_cp mi in vset w_map mi x) w_map in
  for_range (size w_map_cp) (size w_map)
    (fun mi w_map => vset w_map mi id) w_map.

Definition add_factor_type (ftype : CFactorType) : method unit := fun st =>
  if negb (get_w_dim ftype >? 0) then (Err ConfigurationError, st)
  else
    let id := get_type_id ftype in
    if has_type_id (m_factor_types st) id
    then (Ok tt, emit (Printed (msg_already_added id)) st)
    else
      match extend_w_map (m_w_map st) id (get_w_dim ftype) with
      | Err e => (Err e, st)
      | Ok w_map =>
          let st := with_w_map w_map st in
          let st := with_factor_types (m_factor_types st ++ [ftype]) st in
          match fparams_to_w st with
          | (Err e, st) => (Err e, st)
          | (Ok _, st) =>
              (Ok tt,
               if m_verbose st then emit (Printed (msg_w_map (m_w_map st))) st
               else st)
          end
      end.

(** *** [del_factor_type(ftype_id)], lines 98-131 *)

(** Lines 100-114: delete the first type with this id; the result is the
    value of [w_dim] after the loop and the registry. *)
Fixpoint delete_first (fts : list CFactorType) (ftype_id : Z)
    : Z * list CFactorType :=
  match fts with
  | [] => (0, [])
  | ftype :: rest =>
      if ftype_id =? get_type_id ftype then (get_w_dim ftype, rest)
      else let '(w_dim, rest') := delete_first rest ftype_id in
           (w_dim, ftype :: rest')
  end.

(** Lines 121-128: copy the slots of the other types, in order. *)
Definition compact_w_map (w_map_cp : list Z) (ftype_id : Z) (w_map : list Z)
    : result (Z * list Z) :=
  for_range 0 (size w_map_cp)
    (fun mi s =>
       let '(ind, w_map) := s in
       let* x := vget w_map_cp mi in
       if x =? ftype_id then Ok (ind, w_map)
       else let* w_map := vset w_map ind x in Ok (ind + 1, w_map))
    (0, w_map).

Definition del_factor_type (ftype_id : Z) : method unit := fun st =>
  let '(w_dim, fts) := delete_first (m_factor_types st) ftype_id in
  let st := with_factor_types fts st in
  if w_dim =? 0 then (Err AssertionFailed, st)
  else
    let w_map_cp := m_w_map st in
    match
      (let* w_map := resize_vector 0 (m_w_map st) (size w_map_cp - w_dim) in
       let* (ind, w_map) := compact_w_map w_map_cp ftype_id w_map in
       let* _ := ASSERT (ind =? size w_map) in
       Ok w_map)
    with
    | Ok w_map => (Ok tt, with_w_map w_map st)
    | Err e => (Err e, st)
    end.

(** *** [w_to_fparams(w)], lines 197-226 *)

(** Lines 215-219: [fw[wi] = m_w_cache[fw_map[wi]]] for [wi < w_dim]. *)
Definition gather (fw_map : list Z) (w_dim : Z) (w_cache : list float)
    : result (list float) :=
  let* fw := new_vector 0%float w_dim in
  for_range 0 w_dim
    (fun wi fw =>
       let* slot := vget fw_map wi in
       let* x := vget w_cache slot in
       vset fw wi x)
    fw.

(** Lines 209-223: every registered type receives its block. *)
Fixpoint w_to_fparams_loop (fts : list CFactorType) (w_map : list Z)
    (w_cache : list float) (offset : Z) : result (Z * list CFactorType) :=
  match fts with
  | [] => Ok (offset, [])
  | ftype :: rest =>
      let w_dim := get_w_dim ftype in
      let offset := offset + w_dim in
      let fw_map := find w_map (get_type_id ftype) in
      let* fw := gather fw_map w_dim w_cache in
      let* (offset, rest') := w_to_fparams_loop rest w_map w_cache offset in
      Ok (offset, set_w fw ftype :: rest')
  end.

Definition w_to_fparams (w : list float) : method unit := fun st =>
  if equals (m_w_cache st) w then (Ok tt, st)
  else
    let st := if m_verbose st then emit (Printed msg_update_w_cache) st else st in
    if negb (size w =? size (m_w_cache st)) then (Err AssertionFailed, st)
    else
      let st := with_w_cache w st in
      match w_to_fparams_loop (m_factor_types st) (m_w_map st) (m_w_cache st) 0 with
      | Err e => (Err e, st)
      | Ok (offset, fts) =>
          let st := with_factor_types fts st in
          if offset =? size (m_w_cache st) then (Ok tt, st)
          else (Err AssertionFailed, st)
      end.


(** *** [delta_loss(y1, y2)], lines 375-392 *)

Definition delta_loss (y1 y2 : CFactorGraphObservation) : result float :=
  let y_truth := y1 in
  let y_pred := y2 in
  let s_truth := get_data y_truth in
  let s_pred := get_data y_pred in
  let* _ := ASSERT (size s_pred =? size s_truth) in
  for_range 0 (size s_pred)
    (fun si loss =>
       let* p := vget s_pred si in
       let* t := vget s_truth si in
       if negb (p =? t)
       then let* lw := vget (get_loss_weights y_truth) si in
            Ok (loss + lw)%float
       else Ok loss)
    0%float.

(** ** The collaborators

    The factor graph ([CFactorGraph]), the MAP inference ([CMAPInference]),
    the table factor type's indexing and [linalg::dot] are used through their
    interfaces only.  A factor graph reaches the weights through the factor
    type objects it shares with the registry, so [compute_energies] is given
    the registry.  [map_inference] is the construction of a [CMAPInference],
    [inference()] and [get_structured_outputs()]. *)

Class Collaborators : Type := {
  get_factors : FG -> list CFactor;
  connect_components : FG -> FG;
  is_tree_graph : FG -> bool;
  compute_energies : list CFactorType -> FG -> FG;
  evaluate_energy : FG -> list Z -> float;
  loss_augmentation : FG -> CFactorGraphObservation -> FG;
  map_inference : EMAPInferType -> FG -> FG * CFactorGraphObservation;
  get_num_assignments : CFactorType -> Z;
  index_from_universe_assignment : CFactorType -> list Z -> list Z -> Z;
  linalg_dot : list float -> list float -> result float
}.

Context `{!Collaborators}.

(** Sequencing of methods. *)
Definition ret {A : Type} (a : A) : method A := fun st => (Ok a, st).

Definition bind {A B : Type} (m : method A) (k : A -> method B) : method B :=
  fun st =>
    match m st with
    | (Ok a, st') => k a st'
    | (Err e, st') => (Err e, st')
    end.

Notation "'do' x '<-' m ';' k" := (bind m (fun x => k))
  (at level 10, x pattern, m at level 200, k at level 200, only parsing).

Definition lift {A : Type} (r : result A) : method A := fun st => (r, st).

Definition when (c : bool) (m : method unit) : method unit :=
  if c then m else ret tt.

Definition sg_print (msg : message) : method unit :=
  fun st => (Ok tt, emit (Printed msg) st).

(** [mf->get_sample(feat_idx)] and [m_labels->get_label(feat_idx)]. *)
Definition get_sample (feat_idx : Z) : method FG :=
  fun st => (vget (m_features st) feat_idx, st).

Definition get_label (feat_idx : Z) : method CFactorGraphObservation :=
  fun st => (vget (m_labels st) feat_idx, st).

(** A call that changes the structure instance in place. *)
Definition update_sample (feat_idx : Z) (c : fg_call) (f : FG -> FG)
    : method unit :=
  fun st =>
    match vget (m_features st) feat_idx with
    | Ok fg =>
        (Ok tt,
         emit (Called feat_idx c)
           (with_features (<[Z.to_nat feat_idx := f fg]> (m_features st)) st))
    | Err e => (Err e, st)
    end.

(** A call that reads the structure instance. *)
Definition query_sample {A : Type} (feat_idx : Z) (c : fg_call) (f : FG -> A)
    : method A :=
  fun st =>
    match vget (m_features st) feat_idx with
    | Ok fg => (Ok (f fg), emit (Called feat_idx c) st)
    | Err e => (Err e, st)
    end.

(** *** [get_joint_feature_vector(feat_idx, y)], lines 228-273 *)

(** Lines 246-260: one factor's contribution. *)
Definition accumulate_factor (w_map_all : list Z) (states : list Z)
    (fac : CFactor) (psi : list float) : result (list float) :=
  let ftype := get_factor_type fac in
  let id := get_type_id ftype in
  let w_map := find w_map_all id in
  let* _ := ASSERT (size w_map =? get_w_dim ftype) in
  let dat := fac_get_data fac in
  let dat_size := size dat in
  let* _ := ASSERT (size w_map =? dat_size * get_num_assignments ftype) in
  let ei := index_from_universe_assignment ftype states (get_variables fac) in
  for_range 0 dat_size
    (fun di psi =>
       let* slot := vget w_map (ei * dat_size + di) in
       let* acc := vget psi slot in
       let* d := vget dat di in
       vset psi slot (acc + d)%float)
    psi.

(** Lines 244-264: the loop over the factors. *)
Fixpoint accumulate_factors (w_map_all : list Z) (states : list Z)
    (facs : list CFactor) (psi : list float) : result (list float) :=
  match facs with
  | [] => Ok psi
  | fac :: rest =>
      let* psi := accumulate_factor w_map_all states fac psi in
      accumulate_factors w_map_all states rest psi
  end.

Definition get_joint_feature_vector (feat_idx : Z)
    (y : CFactorGraphObservation) : method (list float) :=
  do _ <- get_sample feat_idx;
  let states := get_data y in
  do facs <- query_sample feat_idx get_factors_call get_factors;
  fun st =>
    match
      (let* psi := new_vector 0%float (get_dim st) in
       let psi := zero psi in
       let* psi := accumulate_factors (m_w_map st) states facs psi in
       Ok (scale psi (-1)%float))
    with
    | Ok psi => (Ok psi, st)
    | Err e => (Err e, st)
    end.

(** *** [argmax(w, feat_idx, training)], lines 281-373 *)

Record CResultSet : Type := {
  rs_argmax : CFactorGraphObservation;
  psi_computed : bool;
  psi_truth : list float;
  psi_pred : list float;
  score : float;
  delta : float
}.

(** Lines 347-367: the verbose summary. *)
Definition print_summary (w : list float) (ret : CResultSet)
    (states_star states_gt : list Z) (l_energy_pred energy_gt : float)
    : method unit :=
  do dot_pred <- lift (linalg_dot w (psi_pred ret));
  do dot_truth <- lift (linalg_dot w (psi_truth ret));
  let slack := (dot_pred + delta ret - dot_truth)%float in
  sg_print (msg_summary w (psi_pred ret) states_star dot_pred l_energy_pred
           (delta ret) (psi_truth ret) states_gt dot_truth energy_gt slack
           (score ret)).

Definition argmax (w : list float) (feat_idx : Z) (training : bool)
    : method CResultSet :=
  do _ <- get_sample feat_idx;
  (* prepare factor graph *)
  do _ <- update_sample feat_idx connect_components_call connect_components;
  do inf_type <- (fun st => (Ok (m_inf_type st), st));
  do _ <- match inf_type with
          | TREE_MAX_PROD =>
              do tree <- query_sample feat_idx is_tree_graph_call is_tree_graph;
              lift (ASSERT tree)
          | _ => ret tt
          end;
  do verbose <- (fun st => (Ok (m_verbose st), st));
  do _ <- when verbose (sg_print (msg_example feat_idx));
  (* update factor parameters *)
  do _ <- w_to_fparams w;
  do fts <- (fun st => (Ok (m_factor_types st), st));
  do _ <- update_sample feat_idx compute_energies_call (compute_energies fts);
  do _ <- when verbose
            (do _ <- sg_print msg_before_loss_aug;
             query_sample feat_idx evaluate_energies_call (fun _ => tt));
  (* y_truth *)
  do y_truth <- get_label feat_idx;
  let states_gt := get_data y_truth in
  (* E(x_i, y_i; w) *)
  do psi_truth_v <- get_joint_feature_vector feat_idx y_truth;
  do energy_gt <- query_sample feat_idx (evaluate_energy_call states_gt)
                    (fun fg => evaluate_energy fg states_gt);
  let score0 := energy_gt in
  (* - min_y [ E(x_i, y; w) - delta(y_i, y) ] *)
  do _ <- when training
            (do _ <- update_sample feat_idx (loss_augmentation_call y_truth)
                       (fun fg => loss_augmentation fg y_truth);
             when verbose
               (do _ <- sg_print msg_after_loss_aug;
                query_sample feat_idx evaluate_energies_call (fun _ => tt)));
  do fg <- get_sample feat_idx;
  let '(fg', y_star) := map_inference inf_type fg in
  do _ <- update_sample feat_idx (inference_call inf_type) (fun _ => fg');
  do _ <- query_sample feat_idx get_structured_outputs_call (fun _ => tt);
  let states_star := get_data y_star in
  do psi_pred_v <- get_joint_feature_vector feat_idx y_star;
  do l_energy_pred <- query_sample feat_idx (evaluate_energy_call states_star)
                        (fun fg => evaluate_energy fg states_star);
  let score1 := (score0 - l_energy_pred)%float in
  do delta_v <- lift (delta_loss y_truth y_star);
  let ret_ :=
    {| rs_argmax := y_star; psi_computed := true; psi_truth := psi_truth_v;
       psi_pred := psi_pred_v; score := score1; delta := delta_v |} in
  do _ <- when verbose
            (print_summary w ret_ states_star states_gt l_energy_pred energy_gt);
  ret ret_.

(** *** [init_primal_opt(...)], lines 398-464 *)

(** Modelled from the spec: [SGMatrix::create_identity_matrix(size, scale)]
    is defined in [SGMatrix.cpp]; the spec's regularization matrix is the
    "identity scaled by [regularization]".  The matrix is the list of its
    rows. *)
Definition create_identity_matrix (n : Z) (s : float) : list (list float) :=
  map (fun i => map (fun j => if Nat.eqb i j then s else 0%float)
                    (seq 0 (Z.to_nat n)))
      (seq 0 (Z.to_nat n)).

(** Line 429: [card.size() == 2 && card[0] == 2 && card[1] == 2]. *)
Definition is_pairwise_binary (card : list Z) : bool :=
  match card with
  | [c0; c1] => (c0 =? 2) && (c1 =? 2)
  | _ => false
  end.

(** Lines 423-454: the bounds of one factor type. *)
Definition constrain_type (w_map_all : list Z) (ftype : CFactorType)
    (bounds : list float * list float) : result (list float * list float) :=
  let '(lb, ub) := bounds in
  let w_dim := get_w_dim ftype in
  let card := get_cardinalities ftype in
  if is_pairwise_binary card
  then
    let* _ := REQUIRE (w_dim =? 4) in
    let fw := get_w ftype in
    let fw_map := find w_map_all (get_type_id ftype) in
    let* _ := ASSERT (size fw_map =? size fw) in
    let* s0 := vget fw_map 0 in
    let* lb := vset lb s0 0%float in
    let* ub := vset ub s0 0%float in
    let* s3 := vget fw_map 3 in
    let* lb := vset lb s3 0%float in
    let* ub := vset ub s3 0%float in
    let* s1 := vget fw_map 1 in
    let* lb := vset lb s1 0%float in
    let* s2 := vget fw_map 2 in
    let* lb := vset lb s2 0%float in
    Ok (lb, ub)
  else Ok (lb, ub).

Fixpoint constrain_types (w_map_all : list Z) (fts : list CFactorType)
    (bounds : list float * list float) : result (list float * list float) :=
  match fts with
  | [] => Ok bounds
  | ftype :: rest =>
      let* bounds := constrain_type w_map_all ftype bounds in
      constrain_types w_map_all rest bounds
  end.

(** The reference parameters [lb], [ub] go in and come out; [C] comes out.
    [A], [a], [B], [b] are not touched. *)
Record primal_opt : Type := {
  opt_lb : list float;
  opt_ub : list float;
  opt_C : list (list float)
}.

Definition init_primal_opt (regularization : float) (lb ub : list float)
    (st : CFactorGraphModel) : result primal_opt :=
  let C := create_identity_matrix (get_dim st) regularization in
  let dim_w := get_dim st in
  match m_inf_type st with
  | GRAPH_CUT =>
      let* lb := resize_vector 0%float lb dim_w in
      let* ub := resize_vector 0%float ub dim_w in
      let lb := fill_vector lb neg_infinity in
      let ub := fill_vector ub infinity in
      let* (lb, ub) := constrain_types (m_w_map st) (m_factor_types st) (lb, ub) in
      Ok {| opt_lb := lb; opt_ub := ub; opt_C := C |}
  | TREE_MAX_PROD | LOOPY_MAX_PROD | LP_RELAXATION | TRWS_MAX_PROD | GEMPLP =>
      Ok {| opt_lb := lb; opt_ub := ub; opt_C := C |}
  end.

End Model.

Arguments CFactorGraphModel FG : clear implicits.
Arguments Collaborators FG : clear implicits.
Arguments method FG A : clear implicits.

(** ** [CSumOne::apply_to_feature_vector], SumOne.cpp lines 58-67

    The method allocates its result, so buffers live in a heap here: an
    [SGVector] is a pointer with a length. *)

Module SumOne.

(** Addresses are positive numbers; a heap maps the address of a buffer
    to its content. *)

Record SGVector : Type := {
  vector : positive;
  vlen : Z
}.

(** [SG_MALLOC(float64_t, len)]: a buffer that no live pointer designates;
    its content is not initialised, the model shows zeros in it. *)
Definition SG_MALLOC (len : Z) (h : gmap positive (list float))
    : result (positive * gmap positive (list float)) :=
  if len <? 0 then Err UndefinedBehaviour
  else let p := fresh (dom h) in
       Ok (p, <[p := replicate (Z.to_nat len) 0%float]> h).

(** [p[i]] as an r-value, and [p[i] = x]. *)
Definition load (h : gmap positive (list float)) (p : positive) (i : Z)
    : result float :=
  match h !! p with
  | Some buf => vget buf i
  | None => Err UndefinedBehaviour
  end.

Definition store (h : gmap positive (list float)) (p : positive) (i : Z)
    (x : float) : result (gmap positive (list float)) :=
  match h !! p with
  | Some buf => let* buf' := vset buf i x in Ok (<[p := buf']> h)
  | None => Err UndefinedBehaviour
  end.

(** The entries of a vector, when its pointer designates a buffer of at
    least [vlen] entries. *)
Definition contents (h : gmap positive (list float)) (v : SGVector)
    : option (list float) :=
  match h !! vector v with
  | Some buf =>
      if (0 <=? vlen v) && (vlen v <=? size buf)
      then Some (take (Z.to_nat (vlen v)) buf) else None
  | None => None
  end.

Section Apply.

(** [SGVector<float64_t>::sum(vec, len)] is declared in [SGVector.h]; the
    value it returns for the [len] entries it reads is a parameter. *)
Variable sum_of : list float -> float.

Definition sum (h : gmap positive (list float)) (vec : positive) (len : Z)
    : result float :=
  match contents h {| vector := vec; vlen := len |} with
  | Some l => Ok (sum_of l)
  | None => Err UndefinedBehaviour
  end.

Definition apply_to_feature_vector (v : SGVector)
    (h : gmap positive (list float))
    : result (SGVector * gmap positive (list float)) :=
  let* (normed_vec, h) := SG_MALLOC (vlen v) h in
  let* s := sum h (vector v) (vlen v) in
  let* h :=
    for_range 0 (vlen v)
      (fun i h =>
         let* x := load h (vector v) i in
         store h normed_vec i (x / s)%float)
      h in
  Ok ({| vector := normed_vec; vlen := vlen v |}, h).

End Apply.

(** The accumulation [result += vec[i]], left to right from [0]: the sum
    used in the examples. *)
Definition sum_left (l : list float) : float :=
  fold_left PrimFloat.add l 0%float.

End SumOne.

(** ** A concrete structure instance *)

(** Modelled from the spec: the structure instance and the inference are
    collaborators ([compute_energies], [evaluate_energy],
    [loss_augmentation], a MAP-inference routine).  This small instance
    serves the scenarios: its table lists the assignments with their
    energies; [compute_energies] does "recompute per-factor energies from
    current weights", the energy of an assignment being the sum over the
    factors of the products of the data with the weights at the factor's
    table index, so that [<w, psi> = -E]; loss augmentation lowers the
    energy of an assignment by its loss against the truth, "so that
    subsequent inference finds [argmin_y [E(x,y) - loss(y_truth,y)]]";
    inference returns the first assignment of least energy. *)

Record table_graph : Type := {
  tg_factors : list CFactor;
  tg_tree : bool;
  tg_energies : list (list Z * float)
}.

Definition list_Z_eqb (a b : list Z) : bool := bool_decide (a = b).

Fixpoint table_lookup (t : list (list Z * float)) (s : list Z) : float :=
  match t with
  | [] => 0%float
  | (s', e) :: t' => if list_Z_eqb s' s then e else table_lookup t' s
  end.

Definition loss_or_zero (y_truth : CFactorGraphObservation) (s : list Z) : float :=
  match delta_loss y_truth {| get_data := s; get_loss_weights := [] |} with
  | Ok l => l
  | Err _ => 0%float
  end.

Fixpoint table_argmin (t : list (list Z * float)) (best : list Z * float)
    : list Z * float :=
  match t with
  | [] => best
  | (s, e) :: t' =>
      table_argmin t' (if PrimFloat.ltb e (snd best) then (s, e) else best)
  end.

Definition table_inference (g : table_graph) : CFactorGraphObservation :=
  let s := match tg_energies g with
           | [] => []
           | se :: t => fst (table_argmin t se)
           end in
  {| get_data := s;
     get_loss_weights := replicate (length s) 1%float |}.

(** Mixed-radix table index, first variable fastest. *)
Fixpoint radix_index (cards : list Z) (states : list Z) (vars : list Z) : Z :=
  match cards, vars with
  | c :: cards', v :: vars' =>
      nth (Z.to_nat v) states 0 + c * radix_index cards' states vars'
  | _, _ => 0
  end.

Definition dot_left (a b : list float) : result float :=
  let* _ := REQUIRE (size a =? size b) in
  Ok (fold_left PrimFloat.add (zip_with PrimFloat.mul a b) 0%float).

(** The energy of one factor for the assignment [s]: the factor reads the
    weights of its type, which is the object the registry holds under the
    id of the type when there is one. *)
Definition table_factor_energy (fts : list CFactorType) (s : list Z)
    (fac : CFactor) : float :=
  let ftype :=
    match lookup_factor_type fts (get_type_id (get_factor_type fac)) with
    | Some registered => registered
    | None => get_factor_type fac
    end in
  let dat := fac_get_data fac in
  let ei := radix_index (get_cardinalities ftype) s (get_variables fac) in
  fold_left PrimFloat.add
    (zip_with PrimFloat.mul
       (take (length dat) (drop (Z.to_nat ei * length dat) (get_w ftype)))
       dat)
    0%float.

Definition table_energy (fts : list CFactorType) (facs : list CFactor)
    (s : list Z) : float :=
  fold_left (fun e fac => (e + table_factor_energy fts s fac)%float) facs
    0%float.

Definition table_compute_energies (fts : list CFactorType) (g : table_graph)
    : table_graph :=
  {| tg_factors := tg_factors g; tg_tree := tg_tree g;
     tg_energies :=
       map (fun se => (fst se, table_energy fts (tg_factors g) (fst se)))
           (tg_energies g) |}.

#[export] Instance table_collaborators : Collaborators table_graph := {|
  get_factors := tg_factors;
  connect_components := fun g => g;
  is_tree_graph := tg_tree;
  compute_energies := table_compute_energies;
  evaluate_energy := fun g s => table_lookup (tg_energies g) s;
  loss_augmentation := fun g y =>
    {| tg_factors := tg_factors g; tg_tree := tg_tree g;
       tg_energies :=
         map (fun se => (fst se, (snd se - loss_or_zero y (fst se))%float))
             (tg_energies g) |};
  map_inference := fun _ g => (g, table_inference g);
  get_num_assignments := fun ft => fold_right Z.mul 1 (get_cardinalities ft);
  index_from_universe_assignment := fun ft states vars =>
    radix_index (get_cardinalities ft) states vars;
  linalg_dot := dot_left
|}.

(** ** Scenario data *)

(** The registry scenario: type A (id 1, two weights), type B (id 2, three
    weights). *)
Definition type_A : CFactorType :=
  {| get_type_id := 1; get_w := [0.5%float; (-0.5)%float];
     get_w_dim := 2; get_cardinalities := [2] |}.

Definition type_B : CFactorType :=
  {| get_type_id := 2; get_w := [1%float; 1%float; 1%float];
     get_w_dim := 3; get_cardinalities := [3] |}.

Definition empty_model : CFactorGraphModel table_graph :=
  new_model [] [] TREE_MAX_PROD false.

Definition model_A : CFactorGraphModel table_graph :=
  snd (add_factor_type type_A empty_model).

Definition model_AB : CFactorGraphModel table_graph :=
  snd (add_factor_type type_B model_A).

Definition model_B : CFactorGraphModel table_graph :=
  snd (del_factor_type 1 model_AB).

(** ** Invariants of the registry

    A factor type is well formed when it has as many weights as it says.
    The registry is consistent when its identifiers are distinct and the
    parameter map is the concatenation, in registration order, of one block
    of [w_dim] copies of the identifier per type.  The cache is in step
    when it is the concatenation of the weights of the types. *)

Definition wf_type (ftype : CFactorType) : Prop :=
  0 < get_w_dim ftype /\ size (get_w ftype) = get_w_dim ftype.

Definition block (ftype : CFactorType) : list Z :=
  replicate (Z.to_nat (get_w_dim ftype)) (get_type_id ftype).

Definition blocks (fts : list CFactorType) : list Z := flat_map block fts.

Definition weights_of (fts : list CFactorType) : list float :=
  flat_map get_w fts.

Definition registry_inv {FG : Type} (st : CFactorGraphModel FG) : Prop :=
  NoDup (map get_type_id (m_factor_types st)) /\
  Forall wf_type (m_factor_types st) /\
  m_w_map st = blocks (m_factor_types st).

Definition cache_inv {FG : Type} (st : CFactorGraphModel FG) : Prop :=
  m_w_cache st = weights_of (m_factor_types st).

(** The states that calls which return can reach from a fresh model.  The
    factor types that are registered have [w_dim] weights, and
    [w_to_fparams] is given [dimension()] weights. *)
Inductive reachable {FG : Type} : CFactorGraphModel FG -> Prop :=
| reach_new features labels inf_type verbose :
    reachable (new_model features labels inf_type verbose)
| reach_add ftype st st' :
    reachable st ->
    size (get_w ftype) = get_w_dim ftype ->
    add_factor_type ftype st = (Ok tt, st') ->
    reachable st'
| reach_del ftype_id st st' :
    reachable st ->
    del_factor_type ftype_id st = (Ok tt, st') ->
    reachable st'
| reach_fparams_to_w st w st' :
    reachable st ->
    fparams_to_w st = (Ok w, st') ->
    reachable st'
| reach_w_to_fparams w st st' :
    reachable st ->
    size w = get_dim st ->
    w_to_fparams w st = (Ok tt, st') ->
    reachable st'.

(** The types after [w_to_fparams]: each receives, in registration order,
    the next [w_dim] entries of the global vector. *)
Fixpoint distribute (fts : list CFactorType) (w : list float)
    : list CFactorType :=
  match fts with
  | [] => []
  | ftype :: rest =>
      let n := Z.to_nat (get_w_dim ftype) in
      set_w (take n w) ftype :: distribute rest (drop n w)
  end.

(** A type without weights: [add_factor_type] refuses it. *)
Definition type_without_weights : CFactorType :=
  {| get_type_id := 3; get_w := []; get_w_dim := 0; get_cardinalities := [2] |}.

(** A type whose single weight is [+0], and the model that holds it. *)
Definition type_zero : CFactorType :=
  {| get_type_id := 1; get_w := [0%float]; get_w_dim := 1;
     get_cardinalities := [1] |}.

Definition model_zero : CFactorGraphModel table_graph :=
  snd (add_factor_type type_zero empty_model).

(** ** The loss, as the spec words it

    The sum, over the positions where the predicted state differs from the
    truth, of the truth's loss weight; the terms are added from the first
    position to the last, starting from [loss]. *)
Fixpoint weighted_mismatch (s_truth s_pred : list Z) (weights : list float)
    (loss : float) : float :=
  match s_truth, s_pred, weights with
  | t :: ts, p :: ps, lw :: ws =>
      weighted_mismatch ts ps ws (if p =? t then loss else (loss + lw)%float)
  | _, _, _ => loss
  end.

(** The Hamming distance of two state sequences of the same length. *)
Fixpoint hamming (a b : list Z) : nat :=
  match a, b with
  | x :: a', y :: b' =>
      ((if (x =? y)%Z then O else 1%nat) + hamming a' b')%nat
  | _, _ => O
  end.

(** A count as the loop computes it in [float64_t]: [1.0] added [n] times
    to [0.0]. *)
Definition count_as_float (n : nat) : float :=
  Nat.iter n (fun loss => (loss + 1)%float) 0%float.

(** Observations for the scenarios. *)
Definition obs_012 : CFactorGraphObservation :=
  {| get_data := [0; 1; 2]; get_loss_weights := [1%float; 1%float; 1%float] |}.

Definition obs_021 : CFactorGraphObservation :=
  {| get_data := [0; 2; 1]; get_loss_weights := [1%float; 1%float; 1%float] |}.

Definition obs_01 : CFactorGraphObservation :=
  {| get_data := [0; 1]; get_loss_weights := [1%float; 1%float] |}.

(** A heap with one buffer, [1; -1], and the vector that designates it. *)
Definition heap_one_minus_one : gmap positive (list float) :=
  {[ 1%positive := [1%float; (-1)%float] ]}.

Definition vec_one_minus_one : SumOne.SGVector :=
  {| SumOne.vector := 1%positive; SumOne.vlen := 2 |}.

(** ** The joint feature vector, as the spec words it

    Start from zeros; for every factor add its data values into the slots
    [slots[index*data_size .. index*data_size+data_size)] of its type;
    negate. *)

Definition add_at (psi : list float) (slot_d : Z * float) : list float :=
  match psi !! Z.to_nat (fst slot_d) with
  | Some acc => <[Z.to_nat (fst slot_d) := (acc + snd slot_d)%float]> psi
  | None => psi
  end.

Section JointFeatureSpec.

Context {FG : Type} `{!Collaborators FG}.

Definition factor_slots (w_map_all : list Z) (states : list Z) (fac : CFactor)
    : list Z :=
  let ftype := get_factor_type fac in
  let dat_size := length (fac_get_data fac) in
  let ei := index_from_universe_assignment ftype states (get_variables fac) in
  take dat_size (drop (Z.to_nat ei * dat_size)
                   (find w_map_all (get_type_id ftype))).

Definition add_factor (w_map_all : list Z) (states : list Z)
    (psi : list float) (fac : CFactor) : list float :=
  fold_left add_at (zip (factor_slots w_map_all states fac) (fac_get_data fac))
    psi.

Definition psi_spec (w_map_all : list Z) (states : list Z)
    (facs : list CFactor) : list float :=
  scale (fold_left (add_factor w_map_all states) facs
           (replicate (length w_map_all) 0%float))
        (-1)%float.

(** What the assertions of lines 251 and 256 ask of a factor, and the range
    of its table index. *)
Definition factor_ok (w_map_all : list Z) (states : list Z) (fac : CFactor)
    : Prop :=
  let ftype := get_factor_type fac in
  size (find w_map_all (get_type_id ftype)) = get_w_dim ftype /\
  size (find w_map_all (get_type_id ftype))
  = size (fac_get_data fac) * get_num_assignments ftype /\
  0 <= index_from_universe_assignment ftype states (get_variables fac)
    < get_num_assignments ftype.

End JointFeatureSpec.

(** The scenario of the joint feature vector: one factor whose type has four
    weights and two assignments, with data [1, 1]. *)
Definition unary_type : CFactorType :=
  {| get_type_id := 0; get_w := [0%float; 0%float; 0%float; 0%float];
     get_w_dim := 4; get_cardinalities := [2] |}.

Definition unary_factor : CFactor :=
  {| get_factor_type := unary_type; fac_get_data := [1%float; 1%float];
     get_variables := [0] |}.

Definition unary_graph : table_graph :=
  {| tg_factors := [unary_factor]; tg_tree := true;
     tg_energies := [([0], 0%float); ([1], 0%float)] |}.

Definition label_0 : CFactorGraphObservation :=
  {| get_data := [0]; get_loss_weights := [1%float] |}.

Definition label_1 : CFactorGraphObservation :=
  {| get_data := [1]; get_loss_weights := [1%float] |}.

Definition unary_model : CFactorGraphModel table_graph :=
  snd (add_factor_type unary_type
         (new_model [unary_graph] [label_0] TREE_MAX_PROD false)).

(** A factor whose data do not fit the slots of its type: three values for
    two assignments and four weights. *)
Definition misfit_factor : CFactor :=
  {| get_factor_type := unary_type;
     fac_get_data := [1%float; 1%float; 1%float]; get_variables := [0] |}.

Definition misfit_model : CFactorGraphModel table_graph :=
  snd (add_factor_type unary_type
         (new_model [{| tg_factors := [unary_factor; misfit_factor];
                        tg_tree := true; tg_energies := [] |}]
            [label_0] TREE_MAX_PROD false)).

(** ** The bounds of the graph-cut mode, block by block

    A pairwise binary type fixes its first and fourth weight at 0 and keeps
    the two others non-negative; any other type is unconstrained. *)
Definition lb_block (ftype : CFactorType) : list float :=
  if is_pairwise_binary (get_cardinalities ftype)
  then [0%float; 0%float; 0%float; 0%float]
  else replicate (Z.to_nat (get_w_dim ftype)) neg_infinity.

Definition ub_block (ftype : CFactorType) : list float :=
  if is_pairwise_binary (get_cardinalities ftype)
  then [0%float; infinity; infinity; 0%float]
  else replicate (Z.to_nat (get_w_dim ftype)) infinity.

(** The requirement of line 431. *)
Definition supported (ftype : CFactorType) : Prop :=
  is_pairwise_binary (get_cardinalities ftype) = true -> get_w_dim ftype = 4.

(** The scenario of the bounds: a type with four weights that is not
    pairwise binary, then a pairwise binary type, whose slots are 4..7. *)
Definition pairwise_type : CFactorType :=
  {| get_type_id := 5; get_w := [0%float; 0%float; 0%float; 0%float];
     get_w_dim := 4; get_cardinalities := [2; 2] |}.

Definition graph_cut_model : CFactorGraphModel table_graph :=
  snd (add_factor_type pairwise_type
         (snd (add_factor_type unary_type
                 (new_model [] [] GRAPH_CUT false)))).

(** A pairwise binary type with edge features: eight weights. *)
Definition edge_feature_type : CFactorType :=
  {| get_type_id := 6;
     get_w := [0%float; 0%float; 0%float; 0%float;
               0%float; 0%float; 0%float; 0%float];
     get_w_dim := 8; get_cardinalities := [2; 2] |}.

Definition edge_feature_model : CFactorGraphModel table_graph :=
  snd (add_factor_type edge_feature_type
         (snd (add_factor_type unary_type
                 (new_model [] [] GRAPH_CUT false)))).

(** ** Reading the trace *)

Definition is_loss_augmentation (e : event) : bool :=
  match e with
  | Called _ (loss_augmentation_call _) => true
  | _ => false
  end.

Definition is_inference (e : event) : bool :=
  match e with
  | Called _ (inference_call _) => true
  | _ => false
  end.

Definition is_printed (e : event) : bool :=
  match e with
  | Printed _ => true
  | Called _ _ => false
  end.

(** The events of a call are appended to the trace, and all of them satisfy
    [P], whether the call returns or fails. *)
Definition appends {FG A : Type} (P : event -> bool) (m : method FG A) : Prop :=
  forall st, exists evs,
    trace (snd (m st)) = trace st ++ evs /\ forallb P evs = true.

(** A call is quiet when a run that returns leaves the members alone and
    appends only events that satisfy [P]. *)
Definition quiet {FG A : Type} (P : event -> bool) (m : method FG A) : Prop :=
  forall st a st',
    m st = (Ok a, st') ->
    m_features st' = m_features st /\ m_labels st' = m_labels st /\
    m_verbose st' = m_verbose st /\ m_inf_type st' = m_inf_type st /\
    m_factor_types st' = m_factor_types st /\
    exists evs, trace st' = trace st ++ evs /\ forallb P evs = true.

(** Where a run of [argmax] on the example [feat_idx] stands: the structure
    instance is [fg], the registry holds [fts], the events [evs] have been
    appended to the trace of the state [st0] in which the call began. *)
Definition at_stage {FG : Type} (feat_idx : Z) (st0 st : CFactorGraphModel FG)
    (fg : FG) (fts : list CFactorType) (evs : list event) : Prop :=
  m_features st !! Z.to_nat feat_idx = Some fg /\
  m_factor_types st = fts /\
  trace st = trace st0 ++ evs /\
  m_labels st = m_labels st0 /\
  m_verbose st = m_verbose st0 /\
  m_inf_type st = m_inf_type st0.

(** Neither a loss augmentation nor an inference. *)
Definition is_plain (e : event) : bool :=
  negb (is_loss_augmentation e) && negb (is_inference e).

Definition zero_weights : list float := [0%float; 0%float; 0%float; 0%float].

(** The runs of [argmax] on the scenario of the joint feature vector, with
    the weights [0.5, 0.5, 0, 0]: the energy of the truth [[0]] is
    [0.5 * 1 + 0.5 * 1 = 1], that of [[1]] is [0]; what is returned with and
    without training. *)
Definition half_weights : list float :=
  [0.5%float; 0.5%float; 0%float; 0%float].

(** The graph of the scenario with its energies computed from these
    weights. *)
Definition unary_graph_energies : table_graph :=
  {| tg_factors := [unary_factor]; tg_tree := true;
     tg_energies := [([0], 1%float); ([1], 0%float)] |}.

Definition unary_result_training : CResultSet :=
  {| rs_argmax := label_1; psi_computed := true;
     psi_truth := [(-1)%float; (-1)%float; (-0)%float; (-0)%float];
     psi_pred := [(-0)%float; (-0)%float; (-1)%float; (-1)%float];
     score := 2%float; delta := 1%float |}.

Definition unary_result_prediction : CResultSet :=
  {| rs_argmax := label_1; psi_computed := true;
     psi_truth := [(-1)%float; (-1)%float; (-0)%float; (-0)%float];
     psi_pred := [(-0)%float; (-0)%float; (-1)%float; (-1)%float];
     score := 1%float; delta := 1%float |}.

(** ** Further notions for the registry *)

(** The number of weights of a list of factor types. *)
Definition sum_w_dim (fts : list CFactorType) : Z :=
  fold_right (fun ftype acc => get_w_dim ftype + acc) 0 fts.

(** A type to register after A and B. *)
Definition type_C : CFactorType :=
  {| get_type_id := 4; get_w := [2%float; 3%float];
     get_w_dim := 2; get_cardinalities := [2] |}.

(** ** What a call on one example leaves alone *)

(** A call keeps the rest of the model when no run of it, whether it returns
    or fails, changes the labels, the mode, the flag, the parameter map, the
    number of examples, an example other than [feat_idx], or anything of
    the registered types but their weights. *)
Definition keeps {FG A : Type} (feat_idx : Z) (m : method FG A) : Prop :=
  forall st,
    m_labels (snd (m st)) = m_labels st /\
    m_verbose (snd (m st)) = m_verbose st /\
    m_inf_type (snd (m st)) = m_inf_type st /\
    m_w_map (snd (m st)) = m_w_map st /\
    map (set_w []) (m_factor_types (snd (m st)))
    = map (set_w []) (m_factor_types st) /\
    length (m_features (snd (m st))) = length (m_features st) /\
    forall i : nat, i <> Z.to_nat feat_idx ->
      m_features (snd (m st)) !! i = m_features st !! i.

(** What [argmax] prints and asks before it writes the weights. *)
Definition is_preparation (e : event) : bool :=
  match e with
  | Printed _ => true
  | Called _ connect_components_call => true
  | Called _ is_tree_graph_call => true
  | Called _ _ => false
  end.

(** A graph that is not a tree, in a model of the mode [TREE_MAX_PROD]. *)
Definition cyclic_graph : table_graph :=
  {| tg_factors := [unary_factor]; tg_tree := false;
     tg_energies := [([0], 0%float); ([1], 0%float)] |}.

Definition cyclic_model : CFactorGraphModel table_graph :=
  snd (add_factor_type unary_type
         (new_model [cyclic_graph] [label_0] TREE_MAX_PROD false)).

(** The two assertions of [get_joint_feature_vector] (lines 251 and 256)
    for one factor. *)
Definition passes_assertions {FG : Type} `{!Collaborators FG}
    (w_map_all : list Z) (fac : CFactor) : Prop :=
  let ftype := get_factor_type fac in
  size (find w_map_all (get_type_id ftype)) = get_w_dim ftype /\
  size (find w_map_all (get_type_id ftype))
  = size (fac_get_data fac) * get_num_assignments ftype.

(** A call keeps the weights when no run of it, whether it returns or
    fails, changes the registered types, the cache or the parameter map. *)
Definition keeps_weights {FG A : Type} (m : method FG A) : Prop :=
  forall st,
    m_factor_types (snd (m st)) = m_factor_types st /\
    m_w_cache (snd (m st)) = m_w_cache st /\
    m_w_map (snd (m st)) = m_w_map st.

(** A type that announces two weights and carries one. *)
Definition type_short_weights : CFactorType :=
  {| get_type_id := 9; get_w := [1%float];
     get_w_dim := 2; get_cardinalities := [2] |}.

(** ** [CSumOne::apply_to_matrix], SumOne.cpp lines 45-54

    The method works on the buffer of its argument: [get_column] gives a
    vector that shares the buffer of the matrix, and [linalg::scale] is
    called with this vector as its input and as its result. *)

Module SumOneMatrix.

(** [SGMatrix<float64_t>]: a pointer to [num_rows * num_cols] entries,
    column after column. *)
Record SGMatrix : Type := {
  matrix : positive;
  num_rows : Z;
  num_cols : Z
}.

(** What [matrix.get_column(i)] designates: the [num_rows] entries of the
    buffer of the matrix from the entry [i * num_rows] on. *)
Record column_view : Type := {
  view_base : positive;
  view_first : Z;
  view_len : Z
}.

Definition get_column (m : SGMatrix) (i : Z) : column_view :=
  {| view_base := matrix m; view_first := i * num_rows m;
     view_len := num_rows m |}.

Definition in_buffer (v : column_view) (buf : list float) : bool :=
  (0 <=? view_first v) && (0 <=? view_len v)
  && (view_first v + view_len v <=? size buf).

(** The entries a view designates, and the heap after they are replaced. *)
Definition view_contents (h : gmap positive (list float)) (v : column_view)
    : option (list float) :=
  match h !! view_base v with
  | Some buf =>
      if in_buffer v buf
      then Some (take (Z.to_nat (view_len v))
                   (drop (Z.to_nat (view_first v)) buf))
      else None
  | None => None
  end.

Definition write_view (h : gmap positive (list float)) (v : column_view)
    (xs : list float) : result (gmap positive (list float)) :=
  match h !! view_base v with
  | Some buf =>
      if in_buffer v buf && (size xs =? view_len v)
      then Ok (<[view_base v :=
                   take (Z.to_nat (view_first v)) buf ++ xs
                   ++ drop (Z.to_nat (view_first v + view_len v)) buf]> h)
      else Err UndefinedBehaviour
  | None => Err UndefinedBehaviour
  end.

Section Apply.

(** [linalg::sum] and [linalg::scale] are declared in
    [LinalgNamespace.h]: the value of the sum of the entries read, and the
    entries that [scale(a, result, alpha)] stores into [result], are
    parameters. *)
Variable sum_of : list float -> float.
Variable scale_of : list float -> float -> list float.

Definition linalg_sum (h : gmap positive (list float)) (a : column_view)
    : result float :=
  match view_contents h a with
  | Some l => Ok (sum_of l)
  | None => Err UndefinedBehaviour
  end.

Definition linalg_scale (h : gmap positive (list float))
    (a res : column_view) (alpha : float)
    : result (gmap positive (list float)) :=
  match view_contents h a with
  | Some l => write_view h res (scale_of l alpha)
  | None => Err UndefinedBehaviour
  end.

Definition apply_to_matrix (m : SGMatrix) (h : gmap positive (list float))
    : result (SGMatrix * gmap positive (list float)) :=
  let* h :=
    for_range 0 (num_cols m)
      (fun i h =>
         let vec := get_column m i in
         let* s := linalg_sum h vec in
         linalg_scale h vec vec (1 / s)%float)
      h in
  Ok (m, h).

(** The column [j] of a buffer of columns of [rows] entries, and the buffer
    after the first [n] columns have been scaled by the inverse of their
    sum. *)
Definition column (rows : nat) (buf : list float) (j : nat) : list float :=
  take rows (drop (j * rows) buf).

Definition sum_one (c : list float) : list float :=
  scale_of c (1 / sum_of c)%float.

Definition columns_done (rows : nat) (buf : list float) (n : nat)
    : list float :=
  flat_map (fun j => sum_one (column rows buf j)) (seq 0 n).

End Apply.

(** [linalg::scale] with its entries written out: [alpha * a[i]]. *)
Definition scale_left (l : list float) (alpha : float) : list float :=
  map (fun x => (alpha * x)%float) l.

(** A matrix of two columns of two entries. *)
Definition matrix_2x2 : SGMatrix :=
  {| matrix := 1%positive; num_rows := 2; num_cols := 2 |}.

Definition heap_2x2 : gmap positive (list float) :=
  {[ 1%positive := [1%float; 3%float; 2%float; 2%float] ]}.

End SumOneMatrix.

(** A call is silent when no run of it that starts with the verbose flag
    off, whether it returns or fails, prints or sets the flag. *)
Definition silent {FG A : Type} (m : method FG A) : Prop :=
  forall st,
    m_verbose st = false ->
    m_verbose (snd (m st)) = false /\
    exists evs,
      trace (snd (m st)) = trace st ++ evs /\
      forallb (fun e => negb (is_printed e)) evs = true.

(* ================================================================= *)
(** * Part II: properties *)
(* ================================================================= *)

(** ** Loops and vectors *)

Lemma for_loop_inv {T : Type} (P : Z -> T -> Prop)
    (body : Z -> T -> result T) (n : nat) :
  forall (i : Z) (s : T),
    P i s ->
    (forall j t, i <= j < i + Z.of_nat n -> P j t ->
       exists t', body j t = Ok t' /\ P (j + 1) t') ->
    exists s', for_loop n i body s = Ok s' /\ P (i + Z.of_nat n) s'.
Proof.
  induction n as [|n IH]; intros i s Hs Hstep; simpl.
  - exists s. split; [reflexivity|]. now replace (i + Z.of_nat 0) with i by lia.
  - destruct (Hstep i s) as (t & Ht & HP); [lia|assumption|].
    rewrite Ht.
    destruct (IH (i + 1) t HP) as (s' & Hs' & HP').
    + intros j u Hj Hu. apply Hstep; [lia|assumption].
    + exists s'. split; [assumption|].
      now replace (i + Z.of_nat (S n)) with (i + 1 + Z.of_nat n) by lia.
Qed.

Lemma for_range_inv {T : Type} (P : Z -> T -> Prop)
    (body : Z -> T -> result T) (lo hi : Z) (s : T) :
  lo <= hi ->
  P lo s ->
  (forall j t, lo <= j < hi -> P j t ->
     exists t', body j t = Ok t' /\ P (j + 1) t') ->
  exists s', for_range lo hi body s = Ok s' /\ P hi s'.
Proof.
  intros Hle Hs Hstep. unfold for_range.
  destruct (for_loop_inv P body (Z.to_nat (hi - lo)) lo s Hs) as (s' & H1 & H2).
  - intros j t Hj. apply Hstep. lia.
  - exists s'. split; [assumption|].
    replace (lo + Z.of_nat (Z.to_nat (hi - lo))) with hi in H2 by lia.
    exact H2.
Qed.

Lemma size_nonneg {A : Type} (v : list A) : 0 <= size v.
Proof. unfold size. lia. Qed.

Lemma size_app {A : Type} (u v : list A) : size (u ++ v) = size u + size v.
Proof. unfold size. rewrite length_app. lia. Qed.

Lemma size_replicate {A : Type} (n : nat) (x : A) :
  size (replicate n x) = Z.of_nat n.
Proof. unfold size. now rewrite length_replicate. Qed.

Lemma vget_lookup {A : Type} (v : list A) (i : Z) (x : A) :
  0 <= i -> v !! Z.to_nat i = Some x -> vget v i = Ok x.
Proof.
  intros Hi Hx. unfold vget.
  destruct (Z.ltb_spec i 0); [lia|]. now rewrite Hx.
Qed.

Lemma vget_inv {A : Type} (v : list A) (i : Z) (x : A) :
  vget v i = Ok x -> 0 <= i < size v /\ v !! Z.to_nat i = Some x.
Proof.
  unfold vget. destruct (Z.ltb_spec i 0); [discriminate|].
  destruct (v !! Z.to_nat i) eqn:E; [|discriminate].
  intros [= ->]. split; [|reflexivity].
  apply lookup_lt_Some in E. unfold size. lia.
Qed.

Lemma vget_in_range {A : Type} (v : list A) (i : Z) :
  0 <= i < size v -> exists x, vget v i = Ok x /\ v !! Z.to_nat i = Some x.
Proof.
  intros Hi. destruct (lookup_lt_is_Some_2 v (Z.to_nat i)) as [x Hx].
  - unfold size in Hi. lia.
  - exists x. split; [apply vget_lookup; [lia|assumption]|assumption].
Qed.

Lemma vset_in_range {A : Type} (v : list A) (i : Z) (x : A) :
  0 <= i < size v -> vset v i x = Ok (<[Z.to_nat i := x]> v).
Proof.
  intros Hi. unfold vset.
  destruct (Z.leb_spec 0 i); [|lia].
  destruct (Z.ltb_spec i (size v)); [reflexivity|lia].
Qed.

Lemma resize_vector_grow {A : Type} (d : A) (v : list A) (k : Z) :
  0 <= k ->
  resize_vector d v (size v + k) = Ok (v ++ replicate (Z.to_nat k) d).
Proof.
  intros Hk. unfold resize_vector, size.
  destruct (Z.ltb_spec (Z.of_nat (length v) + k) 0); [lia|].
  rewrite take_ge by lia. do 3 f_equal. lia.
Qed.

(** ** The parameter map of a consistent registry *)

Lemma find_from_app (i : Z) (l1 l2 : list Z) (e : Z) :
  find_from i (l1 ++ l2) e = find_from i l1 e ++ find_from (i + size l1) l2 e.
Proof.
  revert i. induction l1 as [|x l1 IH]; intros i; simpl.
  - now replace (i + size []) with i by (unfold size; simpl; lia).
  - replace (i + size (x :: l1)) with (i + 1 + size l1)
      by (unfold size; simpl; lia).
    destruct (x =? e); simpl; now rewrite IH.
Qed.

Lemma find_from_replicate (i : Z) (n : nat) (e : Z) :
  find_from i (replicate n e) e = seqZ i (Z.of_nat n).
Proof.
  revert i. induction n as [|n IH]; intros i; [reflexivity|].
  simpl replicate. simpl find_from. rewrite Z.eqb_refl, IH.
  rewrite (seqZ_cons i (Z.of_nat (S n))) by lia.
  do 2 f_equal; lia.
Qed.

Lemma find_from_absent (i : Z) (l : list Z) (e : Z) :
  e ∉ l -> find_from i l e = [].
Proof.
  revert i. induction l as [|x l IH]; intros i Hnin; [reflexivity|].
  simpl. apply not_elem_of_cons in Hnin as [Hne Hnin].
  destruct (Z.eqb_spec x e); [congruence|]. now apply IH.
Qed.

Lemma elem_of_blocks (id : Z) (fts : list CFactorType) :
  id ∈ blocks fts -> id ∈ map get_type_id fts.
Proof.
  unfold blocks. rewrite !list_elem_of_In, in_flat_map, in_map_iff.
  intros (ft & Hin & Hid). exists ft. split; [|assumption].
  apply list_elem_of_In, elem_of_replicate in Hid. symmetry. tauto.
Qed.

Lemma blocks_app (a b : list CFactorType) : blocks (a ++ b) = blocks a ++ blocks b.
Proof. apply flat_map_app. Qed.

Lemma size_blocks_weights (fts : list CFactorType) :
  Forall wf_type fts -> size (weights_of fts) = size (blocks fts).
Proof.
  induction 1 as [|ft fts [Hpos Hsz] _ IH]; [reflexivity|].
  unfold weights_of, blocks in *. simpl. rewrite !size_app, IH, Hsz.
  unfold block. rewrite size_replicate. lia.
Qed.

(** The slots of a registered type are the consecutive indices of its
    block. *)
Lemma find_blocks (pre post : list CFactorType) (ft : CFactorType) :
  NoDup (map get_type_id (pre ++ ft :: post)) ->
  0 <= get_w_dim ft ->
  find (blocks (pre ++ ft :: post)) (get_type_id ft)
  = seqZ (size (blocks pre)) (get_w_dim ft).
Proof.
  intros Hnd Hdim. unfold find.
  rewrite map_app in Hnd. simpl in Hnd.
  apply NoDup_app in Hnd as (_ & Hdisj & Hnd2).
  apply NoDup_cons in Hnd2 as [Hpost _].
  rewrite blocks_app. change (blocks (ft :: post)) with (block ft ++ blocks post).
  rewrite !find_from_app.
  rewrite (find_from_absent 0 (blocks pre)).
  - rewrite (find_from_absent _ (blocks post)).
    + rewrite app_nil_r. simpl. unfold block.
      rewrite find_from_replicate. f_equal. lia.
    + intros Hin. apply Hpost, elem_of_blocks, Hin.
  - intros Hin. apply elem_of_blocks in Hin.
    apply (Hdisj _ Hin). left.
Qed.

Lemma vset_boundary {A : Type} (done rest : list A) (y x : A) (i : Z) :
  i = size done ->
  vset (done ++ y :: rest) i x = Ok ((done ++ [x]) ++ rest).
Proof.
  intros ->. rewrite vset_in_range.
  - unfold size. rewrite Nat2Z.id.
    replace (length done) with (length done + 0)%nat at 1 by lia.
    rewrite insert_app_r. simpl. now rewrite <- app_assoc.
  - rewrite size_app. unfold size. simpl. lia.
Qed.

Lemma drop_boundary {A : Type} (l : list A) (n : nat) :
  (n < length l)%nat -> exists y, l !! n = Some y /\ drop n l = y :: drop (S n) l.
Proof.
  intros H. destruct (lookup_lt_is_Some_2 l n H) as [y Hy].
  exists y. split; [assumption|]. now apply drop_S.
Qed.

Lemma lookup_seqZ_nat (m len : Z) (i : nat) :
  Z.of_nat i < len -> seqZ m len !! i = Some (m + Z.of_nat i).
Proof. intros H. apply lookup_seqZ. lia. Qed.

(** Lines 73-84 of [add_factor_type]: [w_dim] copies of the new id are
    appended to the map. *)
Lemma extend_w_map_spec (w_map_cp : list Z) (id w_dim : Z) :
  0 <= w_dim ->
  extend_w_map w_map_cp id w_dim
  = Ok (w_map_cp ++ replicate (Z.to_nat w_dim) id).
Proof.
  intros Hdim. unfold extend_w_map.
  rewrite resize_vector_grow by assumption.
  set (w0 := w_map_cp ++ replicate (Z.to_nat w_dim) 0).
  destruct (for_range_inv (fun _ w => w = w0)
              (fun mi w_map => let* x := vget w_map_cp mi in vset w_map mi x)
              0 (size w_map_cp) w0) as (w1 & -> & ->);
    [apply size_nonneg|reflexivity| |].
  { intros j t Hj ->.
    destruct (vget_in_range w_map_cp j Hj) as (x & -> & Hx).
    exists w0. split; [|reflexivity].
    rewrite vset_in_range.
    - f_equal. apply list_insert_id. unfold w0.
      now rewrite lookup_app_l by (apply lookup_lt_Some in Hx; lia).
    - unfold w0. rewrite size_app, size_replicate. lia. }
  destruct (for_range_inv
              (fun mi w =>
                 w = (w_map_cp ++ replicate (Z.to_nat (mi - size w_map_cp)) id)
                       ++ replicate (Z.to_nat (size w0 - mi)) 0)
              (fun mi w_map => vset w_map mi id)
              (size w_map_cp) (size w0) w0) as (w2 & -> & ->).
  - unfold w0. rewrite size_app, size_replicate. lia.
  - rewrite Z.sub_diag. simpl. rewrite app_nil_r. unfold w0 at 1.
    f_equal. f_equal. unfold w0. rewrite size_app, size_replicate. lia.
  - intros j t Hj ->.
    eexists. split; [|reflexivity].
    replace (Z.to_nat (size w0 - j)) with (S (Z.to_nat (size w0 - (j + 1)))) by lia.
    simpl replicate. rewrite vset_boundary.
    + f_equal. f_equal. rewrite <- app_assoc. f_equal.
      replace (Z.to_nat (j + 1 - size w_map_cp))
        with (Z.to_nat (j - size w_map_cp) + 1)%nat by lia.
      now rewrite replicate_add.
    + rewrite size_app, size_replicate. lia.
  - f_equal. rewrite Z.sub_diag. simpl. rewrite app_nil_r.
    f_equal. f_equal. unfold w0. rewrite size_app, size_replicate. lia.
Qed.

(** Lines 186-187 of [fparams_to_w]: the weights of a type overwrite its
    block of the cache. *)
Lemma scatter_block (A B R fw : list float) (n : Z) :
  size B = n -> size fw = n ->
  scatter (seqZ (size A) n) fw n (A ++ B ++ R) = Ok (A ++ fw ++ R).
Proof.
  intros HB Hfw. unfold scatter.
  destruct (for_range_inv
              (fun wi c => c = (A ++ take (Z.to_nat wi) fw)
                                 ++ drop (Z.to_nat wi) B ++ R)
              (fun wi cache =>
                 let* slot := vget (seqZ (size A) n) wi in
                 let* x := vget fw wi in
                 vset cache slot x)
              0 n (A ++ B ++ R)) as (c & -> & ->).
  - rewrite <- HB. apply size_nonneg.
  - simpl. now rewrite app_nil_r.
  - intros j t Hj ->.
    rewrite (vget_lookup _ j (size A + j)); [|lia|].
    2:{ rewrite lookup_seqZ_nat by lia. f_equal. lia. }
    destruct (vget_in_range fw j ltac:(lia)) as (x & -> & Hx).
    destruct (drop_boundary B (Z.to_nat j)) as (y & _ & ->).
    { unfold size in HB. lia. }
    eexists. split.
    + simpl. apply vset_boundary.
      unfold size in *. rewrite length_app, length_take. lia.
    + replace (Z.to_nat (j + 1)) with (S (Z.to_nat j)) by lia.
      rewrite (take_S_r fw (Z.to_nat j) x Hx).
      now rewrite !app_assoc.
  - f_equal. rewrite take_ge, drop_ge by (unfold size in *; lia).
    simpl. now rewrite <- app_assoc.
Qed.

(** Lines 215-219 of [w_to_fparams]: a type receives its block of the
    cache. *)
Lemma gather_block (A B R : list float) (n : Z) :
  size B = n ->
  gather (seqZ (size A) n) n (A ++ B ++ R) = Ok B.
Proof.
  intros HB. unfold gather, new_vector.
  assert (0 <= n) by (rewrite <- HB; apply size_nonneg).
  destruct (Z.ltb_spec n 0); [lia|].
  destruct (for_range_inv
              (fun wi fw => fw = take (Z.to_nat wi) B
                                 ++ replicate (Z.to_nat (n - wi)) 0%float)
              (fun wi fw =>
                 let* slot := vget (seqZ (size A) n) wi in
                 let* x := vget (A ++ B ++ R) slot in
                 vset fw wi x)
              0 n (replicate (Z.to_nat n) 0%float)) as (c & -> & ->).
  - assumption.
  - simpl. now rewrite Z.sub_0_r.
  - intros j t Hj ->.
    rewrite (vget_lookup _ j (size A + j)); [|lia|].
    2:{ rewrite lookup_seqZ_nat by lia. f_equal. lia. }
    destruct (vget_in_range B j ltac:(lia)) as (x & _ & Hx).
    rewrite (vget_lookup _ (size A + j) x); [|pose proof (size_nonneg A); lia|].
    2:{ rewrite lookup_app_r by (unfold size; lia).
        rewrite lookup_app_l by (unfold size in *; lia).
        rewrite <- Hx. f_equal. unfold size. lia. }
    replace (Z.to_nat (n - j)) with (S (Z.to_nat (n - (j + 1)))) by lia.
    simpl replicate. eexists. split.
    + apply vset_boundary. unfold size. rewrite length_take.
      unfold size in HB. lia.
    + replace (Z.to_nat (j + 1)) with (S (Z.to_nat j)) by lia.
      now rewrite (take_S_r B (Z.to_nat j) x Hx).
  - f_equal. rewrite take_ge by (unfold size in *; lia).
    rewrite Z.sub_diag. simpl. now rewrite app_nil_r.
Qed.

Lemma size_block (ft : CFactorType) :
  0 <= get_w_dim ft -> size (block ft) = get_w_dim ft.
Proof. intros H. unfold block. rewrite size_replicate. lia. Qed.

Lemma app_split_size {A : Type} (l : list A) (n : Z) :
  0 <= n <= size l ->
  exists l1 l2, l = l1 ++ l2 /\ size l1 = n.
Proof.
  intros H. exists (take (Z.to_nat n) l), (drop (Z.to_nat n) l).
  split; [now rewrite take_drop|].
  unfold size in *. rewrite length_take. lia.
Qed.

(** Lines 175-190 of [fparams_to_w] on a consistent registry: the blocks
    of the cache are overwritten, in order, by the weights of the types. *)
Lemma fparams_to_w_loop_blocks (fts : list CFactorType) :
  forall (pre : list CFactorType) (A B R : list float),
    NoDup (map get_type_id (pre ++ fts)) ->
    Forall wf_type fts ->
    size A = size (blocks pre) ->
    size B = size (blocks fts) ->
    fparams_to_w_loop fts (blocks (pre ++ fts)) (size (blocks pre)) (A ++ B ++ R)
    = Ok (size (blocks (pre ++ fts)), A ++ weights_of fts ++ R).
Proof.
  induction fts as [|ft fts IH]; intros pre A B R Hnd Hwf HA HB.
  - simpl. rewrite app_nil_r. destruct B; [reflexivity|].
    unfold size in HB. simpl in HB. lia.
  - apply Forall_cons in Hwf as [[Hpos Hsz] Hwf].
    cbn [fparams_to_w_loop].
    rewrite find_blocks by (assumption || lia).
    unfold size at 1. rewrite length_seqZ, Hsz.
    replace (Z.of_nat (Z.to_nat (get_w_dim ft)) =? get_w_dim ft) with true
      by (symmetry; apply Z.eqb_eq; lia).
    cbn [ASSERT].
    change (blocks (ft :: fts)) with (block ft ++ blocks fts) in HB.
    rewrite size_app, size_block in HB by lia.
    destruct (app_split_size B (get_w_dim ft)) as (B1 & B2 & -> & HB1).
    { pose proof (size_nonneg (blocks fts)). lia. }
    rewrite size_app in HB.
    rewrite <- HA, <- (app_assoc B1 B2 R), scatter_block by assumption.
    replace (pre ++ ft :: fts) with ((pre ++ [ft]) ++ fts) in *
      by now rewrite <- app_assoc.
    replace (size A + get_w_dim ft) with (size (blocks (pre ++ [ft]))).
    2:{ rewrite blocks_app, size_app. unfold blocks at 2. simpl.
        rewrite app_nil_r, size_block by lia. lia. }
    replace (A ++ get_w ft ++ B2 ++ R) with ((A ++ get_w ft) ++ B2 ++ R)
      by now rewrite <- app_assoc.
    rewrite (IH (pre ++ [ft])); try assumption.
    + f_equal. f_equal. unfold weights_of. simpl. now rewrite <- !app_assoc.
    + rewrite size_app, blocks_app, size_app. unfold blocks at 2. simpl.
      rewrite app_nil_r, size_block by lia. lia.
    + lia.
Qed.

Lemma distribute_ids (fts : list CFactorType) :
  forall w, map get_type_id (distribute fts w) = map get_type_id fts.
Proof. induction fts as [|ft fts IH]; intros w; simpl; [|rewrite IH]; reflexivity. Qed.

Lemma distribute_blocks (fts : list CFactorType) :
  forall w, blocks (distribute fts w) = blocks fts.
Proof.
  induction fts as [|ft fts IH]; intros w; [reflexivity|].
  unfold blocks in *. simpl. now rewrite IH.
Qed.

Lemma distribute_weights (fts : list CFactorType) :
  forall w, Forall wf_type fts -> size w = size (blocks fts) ->
            weights_of (distribute fts w) = w.
Proof.
  induction fts as [|ft fts IH]; intros w Hwf Hw.
  - destruct w; [reflexivity|]. unfold size in Hw. simpl in Hw. lia.
  - apply Forall_cons in Hwf as [[Hpos Hsz] Hwf].
    change (blocks (ft :: fts)) with (block ft ++ blocks fts) in Hw.
    rewrite size_app, size_block in Hw by lia.
    unfold weights_of in *. simpl. rewrite IH, take_drop; try easy.
    unfold size in *. rewrite length_drop. lia.
Qed.

Lemma distribute_wf (fts : list CFactorType) :
  forall w, Forall wf_type fts -> size w = size (blocks fts) ->
            Forall wf_type (distribute fts w).
Proof.
  induction fts as [|ft fts IH]; intros w Hwf Hw; [constructor|].
  apply Forall_cons in Hwf as [[Hpos Hsz] Hwf].
  change (blocks (ft :: fts)) with (block ft ++ blocks fts) in Hw.
  rewrite size_app, size_block in Hw by lia.
  pose proof (size_nonneg (blocks fts)).
  simpl. constructor.
  - split; [assumption|]. simpl. unfold size in *. rewrite length_take. lia.
  - apply IH; [assumption|]. unfold size in *. rewrite length_drop. lia.
Qed.

(** A type that receives its own weights is unchanged. *)
Lemma distribute_own_weights (fts : list CFactorType) :
  Forall wf_type fts -> distribute fts (weights_of fts) = fts.
Proof.
  induction 1 as [|ft fts [Hpos Hsz] _ IH]; [reflexivity|].
  unfold weights_of in *. simpl.
  rewrite take_app_length', drop_app_length' by (unfold size in Hsz; lia).
  rewrite IH. now destruct ft.
Qed.

(** Lines 209-223 of [w_to_fparams] on a consistent registry. *)
Lemma w_to_fparams_loop_blocks (fts : list CFactorType) :
  forall (pre : list CFactorType) (A B R : list float),
    NoDup (map get_type_id (pre ++ fts)) ->
    Forall wf_type fts ->
    size A = size (blocks pre) ->
    size B = size (blocks fts) ->
    w_to_fparams_loop fts (blocks (pre ++ fts)) (A ++ B ++ R) (size (blocks pre))
    = Ok (size (blocks (pre ++ fts)), distribute fts B).
Proof.
  induction fts as [|ft fts IH]; intros pre A B R Hnd Hwf HA HB.
  - simpl. now rewrite app_nil_r.
  - apply Forall_cons in Hwf as [[Hpos Hsz] Hwf].
    cbn [w_to_fparams_loop].
    rewrite find_blocks by (assumption || lia).
    change (blocks (ft :: fts)) with (block ft ++ blocks fts) in HB.
    rewrite size_app, size_block in HB by lia.
    destruct (app_split_size B (get_w_dim ft)) as (B1 & B2 & -> & HB1).
    { pose proof (size_nonneg (blocks fts)). lia. }
    rewrite size_app in HB.
    rewrite <- HA, <- (app_assoc B1 B2 R), gather_block by assumption.
    replace (pre ++ ft :: fts) with ((pre ++ [ft]) ++ fts) in *
      by now rewrite <- app_assoc.
    replace (size A + get_w_dim ft) with (size (blocks (pre ++ [ft]))).
    2:{ rewrite blocks_app, size_app. unfold blocks at 2. simpl.
        rewrite app_nil_r, size_block by lia. lia. }
    replace (A ++ B1 ++ B2 ++ R) with ((A ++ B1) ++ B2 ++ R)
      by now rewrite <- app_assoc.
    rewrite (IH (pre ++ [ft])); try assumption.
    + simpl. do 3 f_equal.
      * rewrite take_app_length'; [reflexivity|unfold size in HB1; lia].
      * rewrite drop_app_length'; [reflexivity|unfold size in HB1; lia].
    + rewrite size_app, blocks_app, size_app. unfold blocks at 2. simpl.
      rewrite app_nil_r, size_block by lia. lia.
    + lia.
Qed.

Section Registry.

Context {FG : Type}.
Implicit Types st : CFactorGraphModel FG.

Lemma with_factor_types_id st : with_factor_types (m_factor_types st) st = st.
Proof. now destruct st. Qed.

Lemma has_type_id_true (fts : list CFactorType) (id : Z) :
  has_type_id fts id = true <-> id ∈ map get_type_id fts.
Proof.
  unfold has_type_id. rewrite existsb_exists, list_elem_of_In, in_map_iff.
  split; intros (ft & H1 & H2); exists ft.
  - apply Z.eqb_eq in H2. now split.
  - split; [assumption|]. apply Z.eqb_eq. congruence.
Qed.

Lemma has_type_id_false (fts : list CFactorType) (id : Z) :
  has_type_id fts id = false <-> id ∉ map get_type_id fts.
Proof.
  rewrite <- has_type_id_true. destruct (has_type_id fts id); split; congruence.
Qed.

(** [fparams_to_w] on a consistent registry: whatever the cache held, it
    becomes the concatenation of the weights of the types. *)
Lemma fparams_to_w_consistent st :
  registry_inv st ->
  fparams_to_w st
  = (Ok (weights_of (m_factor_types st)),
     with_w_cache (weights_of (m_factor_types st)) st).
Proof.
  intros (Hnd & Hwf & Hmap). unfold fparams_to_w, get_dim.
  assert (exists c, (if negb (size (m_w_cache st) =? size (m_w_map st))
                     then resize_vector 0%float (m_w_cache st) (size (m_w_map st))
                     else Ok (m_w_cache st)) = Ok c
                    /\ size c = size (m_w_map st)) as (c & -> & Hc).
  { destruct (Z.eqb_spec (size (m_w_cache st)) (size (m_w_map st))); simpl.
    - eauto.
    - unfold resize_vector.
      destruct (Z.ltb_spec (size (m_w_map st)) 0);
        [pose proof (size_nonneg (m_w_map st)); lia|].
      eexists. split; [reflexivity|].
      unfold size. rewrite length_app, length_take, length_replicate. lia. }
  rewrite Hmap in *.
  assert (H : fparams_to_w_loop (m_factor_types st)
                (blocks (m_factor_types st)) 0 c
              = Ok (size (blocks (m_factor_types st)),
                    weights_of (m_factor_types st))).
  { pose proof (fparams_to_w_loop_blocks (m_factor_types st) [] [] c []
                  Hnd Hwf eq_refl Hc) as H.
    rewrite !app_nil_r in H. exact H. }
  rewrite H.
  rewrite size_blocks_weights, Z.eqb_refl by assumption. reflexivity.
Qed.

Lemma registry_inv_add st (ftype : CFactorType) :
  registry_inv st ->
  get_type_id ftype ∉ map get_type_id (m_factor_types st) ->
  wf_type ftype ->
  NoDup (map get_type_id (m_factor_types st ++ [ftype])) /\
  Forall wf_type (m_factor_types st ++ [ftype]) /\
  m_w_map st ++ replicate (Z.to_nat (get_w_dim ftype)) (get_type_id ftype)
  = blocks (m_factor_types st ++ [ftype]).
Proof.
  intros (Hnd & Hwf & Hmap) Hfresh Hft. repeat split.
  - rewrite map_app. apply NoDup_app. repeat split; [assumption| |].
    + intros x Hx Hx'. simpl in Hx'. apply list_elem_of_singleton in Hx'.
      congruence.
    + simpl. apply NoDup_singleton.
  - apply Forall_app. split; [assumption|]. now constructor.
  - rewrite blocks_app, Hmap. unfold blocks at 2. simpl. now rewrite app_nil_r.
Qed.

(** Lines 121-128 of [del_factor_type]: the slots of the other types are
    kept, in order. *)
Lemma compact_w_map_spec (w_map_cp w0 : list Z) (id : Z) :
  size w0 = size (filter (fun x => x <> id) w_map_cp) ->
  compact_w_map w_map_cp id w0
  = Ok (size w0, filter (fun x => x <> id) w_map_cp).
Proof.
  intros Hw0. unfold compact_w_map.
  set (F := fun k : Z => filter (fun x => x <> id) (take (Z.to_nat k) w_map_cp)).
  assert (HF : forall k, size (F k) <= size w0).
  { intros k. rewrite Hw0. unfold F, size.
    rewrite <- (take_drop (Z.to_nat k) w_map_cp) at 2.
    rewrite filter_app, length_app. lia. }
  destruct (for_range_inv
              (fun mi (s : Z * list Z) =>
                 fst s = size (F mi) /\
                 snd s = F mi ++ drop (Z.to_nat (fst s)) w0)
              (fun mi s =>
                 let '(ind, w_map) := s in
                 let* x := vget w_map_cp mi in
                 if x =? id then Ok (ind, w_map)
                 else let* w_map := vset w_map ind x in Ok (ind + 1, w_map))
              0 (size w_map_cp) (0, w0)) as ([ind w] & -> & Hind & Hw).
  - apply size_nonneg.
  - now split.
  - intros j [ind w] Hj [Hind Hw]. simpl in Hind, Hw.
    destruct (vget_in_range w_map_cp j Hj) as (x & -> & Hx).
    assert (HFS : F (j + 1) = F j ++ filter (fun x => x <> id) [x]).
    { unfold F. replace (Z.to_nat (j + 1)) with (S (Z.to_nat j)) by lia.
      rewrite (take_S_r _ _ _ Hx). apply filter_app. }
    destruct (Z.eqb_spec x id) as [->|Hne].
    + eexists. split; [reflexivity|]. simpl.
      rewrite HFS, filter_cons_False, filter_nil, app_nil_r by tauto.
      now split.
    + rewrite filter_cons_True, filter_nil in HFS by assumption.
      pose proof (HF (j + 1)) as Hle. rewrite HFS, size_app in Hle.
      change (size [x]) with 1 in Hle.
      destruct (drop_boundary w0 (Z.to_nat ind)) as (y & _ & Hy).
      { pose proof (size_nonneg (F j)). unfold size in *. lia. }
      rewrite Hw, Hy, vset_boundary by assumption.
      eexists. split; [reflexivity|]. simpl. split.
      * rewrite HFS, size_app. change (size [x]) with 1. lia.
      * rewrite HFS. f_equal. f_equal.
        pose proof (size_nonneg (F j)). lia.
  - simpl in Hind, Hw.
    assert (HFall : F (size w_map_cp) = filter (fun x => x <> id) w_map_cp).
    { unfold F. rewrite take_ge; [reflexivity|unfold size; lia]. }
    rewrite HFall in *. rewrite Hw, Hind, <- Hw0.
    rewrite drop_ge by (unfold size; lia). now rewrite app_nil_r.
Qed.

Lemma filter_blocks_other (fts : list CFactorType) (id : Z) :
  id ∉ map get_type_id fts ->
  filter (fun x => x <> id) (blocks fts) = blocks fts.
Proof.
  induction fts as [|ft fts IH]; intros Hnin; [reflexivity|].
  simpl in Hnin. apply not_elem_of_cons in Hnin as [Hne Hnin].
  change (blocks (ft :: fts)) with (block ft ++ blocks fts).
  rewrite filter_app, IH by assumption. f_equal.
  unfold block. induction (Z.to_nat (get_w_dim ft)) as [|n IHn]; [reflexivity|].
  simpl. rewrite filter_cons_True by congruence. now rewrite IHn.
Qed.

Lemma filter_block_own (ft : CFactorType) :
  filter (fun x => x <> get_type_id ft) (block ft) = [].
Proof.
  unfold block. induction (Z.to_nat (get_w_dim ft)) as [|n IHn]; [reflexivity|].
  simpl. now rewrite filter_cons_False by tauto.
Qed.

Lemma filter_blocks_remove (pre post : list CFactorType) (ft : CFactorType) :
  NoDup (map get_type_id (pre ++ ft :: post)) ->
  filter (fun x => x <> get_type_id ft) (blocks (pre ++ ft :: post))
  = blocks (pre ++ post).
Proof.
  intros Hnd. rewrite map_app in Hnd. simpl in Hnd.
  apply NoDup_app in Hnd as (_ & Hdisj & Hnd2).
  apply NoDup_cons in Hnd2 as [Hpost _].
  rewrite !blocks_app. change (blocks (ft :: post)) with (block ft ++ blocks post).
  rewrite !filter_app, filter_block_own, !filter_blocks_other; [reflexivity|easy|].
  intros Hin. apply (Hdisj _ Hin). left.
Qed.

Lemma delete_first_found (pre post : list CFactorType) (ft : CFactorType) :
  get_type_id ft ∉ map get_type_id pre ->
  delete_first (pre ++ ft :: post) (get_type_id ft)
  = (get_w_dim ft, pre ++ post).
Proof.
  induction pre as [|p pre IH]; intros Hnin; simpl.
  - now rewrite Z.eqb_refl.
  - simpl in Hnin. apply not_elem_of_cons in Hnin as [Hne Hnin].
    destruct (Z.eqb_spec (get_type_id ft) (get_type_id p)); [congruence|].
    now rewrite IH.
Qed.

Lemma delete_first_absent (fts : list CFactorType) (id : Z) :
  id ∉ map get_type_id fts -> delete_first fts id = (0, fts).
Proof.
  induction fts as [|p fts IH]; intros Hnin; [reflexivity|]. simpl.
  simpl in Hnin. apply not_elem_of_cons in Hnin as [Hne Hnin].
  destruct (Z.eqb_spec id (get_type_id p)); [congruence|].
  now rewrite IH.
Qed.

Lemma registry_inv_remove (pre post : list CFactorType) (ft : CFactorType) :
  NoDup (map get_type_id (pre ++ ft :: post)) ->
  Forall wf_type (pre ++ ft :: post) ->
  NoDup (map get_type_id (pre ++ post)) /\ Forall wf_type (pre ++ post).
Proof.
  intros Hnd Hwf. split.
  - rewrite map_app in *. simpl in Hnd.
    apply NoDup_app in Hnd as (H1 & H2 & H3).
    apply NoDup_cons in H3 as [_ H3].
    apply NoDup_app. repeat split; [assumption| |assumption].
    intros x Hx Hx'. apply (H2 x Hx). now right.
  - apply Forall_app in Hwf as [H1 H2]. apply Forall_cons in H2 as [_ H2].
    apply Forall_app. now split.
Qed.

(** [add_factor_type] of a type with a new id. *)
Lemma add_factor_type_fresh (ftype : CFactorType) st :
  0 < get_w_dim ftype ->
  get_type_id ftype ∉ map get_type_id (m_factor_types st) ->
  size (get_w ftype) = get_w_dim ftype ->
  registry_inv st ->
  exists st',
    add_factor_type ftype st = (Ok tt, st') /\
    m_factor_types st' = m_factor_types st ++ [ftype] /\
    m_w_map st'
    = m_w_map st ++ replicate (Z.to_nat (get_w_dim ftype)) (get_type_id ftype) /\
    m_w_cache st' = weights_of (m_factor_types st ++ [ftype]) /\
    size (m_w_cache st') = get_dim st' /\
    registry_inv st' /\ cache_inv st'.
Proof.
  intros Hdim Hnin Hsz Hinv. unfold add_factor_type.
  destruct (Z.gtb_spec (get_w_dim ftype) 0); [|lia]. simpl.
  pose proof Hnin as Hnin'. apply has_type_id_false in Hnin'. rewrite Hnin'.
  rewrite extend_w_map_spec by lia.
  destruct (registry_inv_add st ftype Hinv Hnin (conj Hdim Hsz))
    as (Hnd & Hwf & Hmap).
  set (st1 := with_factor_types _ _).
  assert (Hinv1 : registry_inv st1) by (repeat split; assumption).
  rewrite (fparams_to_w_consistent st1 Hinv1).
  eexists. split; [reflexivity|].
  assert (size (weights_of (m_factor_types st ++ [ftype]))
          = size (m_w_map st
                  ++ replicate (Z.to_nat (get_w_dim ftype)) (get_type_id ftype))).
  { rewrite Hmap. now apply size_blocks_weights. }
  subst st1. simpl.
  destruct (m_verbose st); unfold registry_inv, cache_inv, get_dim; simpl;
    repeat split; assumption.
Qed.

(** [del_factor_type] of a registered type. *)
Lemma del_factor_type_registered (pre post : list CFactorType)
    (ft : CFactorType) st :
  registry_inv st ->
  m_factor_types st = pre ++ ft :: post ->
  exists st',
    del_factor_type (get_type_id ft) st = (Ok tt, st') /\
    m_factor_types st' = pre ++ post /\
    m_w_map st' = filter (fun x => x <> get_type_id ft) (m_w_map st) /\
    size (m_w_map st') = size (m_w_map st) - get_w_dim ft /\
    registry_inv st'.
Proof.
  intros (Hnd & Hwf & Hmap) Hfts. rewrite Hfts in *.
  assert (Hpre : get_type_id ft ∉ map get_type_id pre).
  { rewrite map_app in Hnd. apply NoDup_app in Hnd as (_ & Hd & _).
    intros Hin. apply (Hd _ Hin). left. }
  destruct (registry_inv_remove pre post ft Hnd Hwf) as [Hnd' Hwf'].
  apply Forall_app in Hwf as [_ Hft]. apply Forall_cons in Hft as [[Hpos Hsz] _].
  pose proof (filter_blocks_remove pre post ft Hnd) as Hfilter.
  assert (Hlen : size (blocks (pre ++ ft :: post)) - get_w_dim ft
                 = size (blocks (pre ++ post))).
  { rewrite !blocks_app. change (blocks (ft :: post)) with (block ft ++ blocks post).
    rewrite !size_app, size_block by lia. lia. }
  unfold del_factor_type. rewrite Hfts, delete_first_found by assumption.
  destruct (Z.eqb_spec (get_w_dim ft) 0); [lia|].
  cbn [m_w_map with_factor_types]. rewrite Hmap.
  unfold resize_vector.
  destruct (Z.ltb_spec (size (blocks (pre ++ ft :: post)) - get_w_dim ft) 0).
  { pose proof (size_nonneg (blocks (pre ++ post))). lia. }
  set (w0 := take _ _ ++ replicate _ _).
  assert (Hw0 : size w0 = size (blocks (pre ++ post))).
  { unfold w0, size in *. rewrite length_app, length_take, length_replicate. lia. }
  rewrite compact_w_map_spec by now rewrite Hfilter.
  rewrite Hfilter, Hw0, Z.eqb_refl. cbn [ASSERT].
  eexists. split; [reflexivity|]. simpl.
  repeat split; try assumption. lia.
Qed.

Lemma del_factor_type_absent (ftype_id : Z) st :
  ftype_id ∉ map get_type_id (m_factor_types st) ->
  del_factor_type ftype_id st = (Err AssertionFailed, st).
Proof.
  intros Hnin. unfold del_factor_type.
  rewrite delete_first_absent by assumption. simpl.
  now rewrite with_factor_types_id.
Qed.

End Registry.

(** ** The factor-type registry *)

Ltac absent_id :=
  let H := fresh in
  intros H;
  repeat (apply elem_of_cons in H as [H|H]; [discriminate H|]);
  inversion H.

Ltac distinct_ids :=
  repeat (apply NoDup_cons; split; [absent_id|]); apply NoDup_nil; exact I.

Ltac well_formed_types :=
  repeat (apply Forall_cons; split; [split; reflexivity|]); apply Forall_nil; exact I.

Ltac consistent_registry :=
  split; [distinct_ids|split; [well_formed_types|reflexivity]].

Section RegistryOperations.

Context {FG : Type}.
Implicit Types st : CFactorGraphModel FG.

(** C5.  [add_factor_type(ftype)] throws the configuration error when
    [w_dim <= 0]; when the id is registered already it prints the warning and
    returns with the registry, [w_map] and [w_cache] as they were; otherwise,
    on a consistent registry and for a type with [w_dim] weights, it appends
    the type to the registry, appends [w_dim] copies of its id to [w_map]
    and rebuilds [w_cache] from the weights of all types, so that the cache
    has [dimension()] entries. *)
Theorem add_factor_type_spec (ftype : CFactorType) st :
  (get_w_dim ftype <= 0 ->
     add_factor_type ftype st = (Err ConfigurationError, st)) /\
  (0 < get_w_dim ftype ->
   get_type_id ftype ∈ map get_type_id (m_factor_types st) ->
     add_factor_type ftype st
     = (Ok tt, emit (Printed (msg_already_added (get_type_id ftype))) st)) /\
  (0 < get_w_dim ftype ->
   get_type_id ftype ∉ map get_type_id (m_factor_types st) ->
   size (get_w ftype) = get_w_dim ftype ->
   registry_inv st ->
     exists st',
       add_factor_type ftype st = (Ok tt, st') /\
       m_factor_types st' = m_factor_types st ++ [ftype] /\
       m_w_map st'
       = m_w_map st ++ replicate (Z.to_nat (get_w_dim ftype)) (get_type_id ftype) /\
       m_w_cache st' = weights_of (m_factor_types st ++ [ftype]) /\
       size (m_w_cache st') = get_dim st' /\
       registry_inv st' /\ cache_inv st').
Proof.
  unfold add_factor_type. repeat split.
  - intros Hdim. now destruct (Z.gtb_spec (get_w_dim ftype) 0); [lia|].
  - intros Hdim Hin. destruct (Z.gtb_spec (get_w_dim ftype) 0); [|lia].
    apply has_type_id_true in Hin. now rewrite Hin.
  - now apply add_factor_type_fresh.
Qed.

(** C6.  [del_factor_type(ftype_id)] aborts on its assertion when no type
    with this id is registered.  On a consistent registry that holds the
    type it removes that type, keeps in [w_map] exactly the slots of the
    other types, in their order, so that the map is shorter by the type's
    [w_dim], and leaves the registry consistent.  In the scenario (A: id 1,
    two weights; B: id 2, three weights) [w_map] goes [1,1] to [1,1,2,2,2]
    to [2,2,2] and [dimension()] goes 2, 5, 3. *)
Theorem del_factor_type_spec (ftype_id : Z) st :
  (ftype_id ∉ map get_type_id (m_factor_types st) ->
     del_factor_type ftype_id st = (Err AssertionFailed, st)) /\
  (forall pre ft post,
     registry_inv st ->
     m_factor_types st = pre ++ ft :: post ->
     get_type_id ft = ftype_id ->
     exists st',
       del_factor_type ftype_id st = (Ok tt, st') /\
       m_factor_types st' = pre ++ post /\
       m_w_map st' = filter (fun x => x <> ftype_id) (m_w_map st) /\
       size (m_w_map st') = size (m_w_map st) - get_w_dim ft /\
       registry_inv st') /\
  (m_w_map model_A = [1; 1] /\ get_dim model_A = 2 /\
   m_w_map model_AB = [1; 1; 2; 2; 2] /\ get_dim model_AB = 5 /\
   fst (del_factor_type 1 model_AB) = Ok tt /\
   m_factor_types model_B = [type_B] /\
   m_w_map model_B = [2; 2; 2] /\ get_dim model_B = 3).
Proof.
  split; [|split].
  - apply del_factor_type_absent.
  - intros pre ft post Hinv Hfts <-.
    now apply del_factor_type_registered.
  - vm_compute. repeat split.
Qed.

End RegistryOperations.

Lemma add_factor_type_spec_witness :
  get_w_dim type_without_weights <= 0 /\
  add_factor_type type_without_weights model_AB
  = (Err ConfigurationError, model_AB) /\
  0 < get_w_dim type_A /\
  (get_type_id type_A ∈ map get_type_id (m_factor_types model_AB)) /\
  add_factor_type type_A model_AB
  = (Ok tt, emit (Printed (msg_already_added 1)) model_AB) /\
  (get_type_id type_B ∉ map get_type_id (m_factor_types model_A)) /\
  size (get_w type_B) = get_w_dim type_B /\
  registry_inv model_A /\
  exists st',
    add_factor_type type_B model_A = (Ok tt, st') /\
    m_w_map st' = [1; 1; 2; 2; 2] /\
    size (m_w_cache st') = get_dim st'.
Proof.
  assert (H0 : get_w_dim type_without_weights <= 0) by (simpl; lia).
  assert (HA : 0 < get_w_dim type_A) by reflexivity.
  assert (HAin : get_type_id type_A ∈ map get_type_id (m_factor_types model_AB))
    by (vm_compute; left).
  assert (HB : 0 < get_w_dim type_B) by reflexivity.
  assert (HBnin : get_type_id type_B ∉ map get_type_id (m_factor_types model_A))
    by (vm_compute; absent_id).
  assert (HBsz : size (get_w type_B) = get_w_dim type_B) by reflexivity.
  assert (Hinv : registry_inv model_A) by consistent_registry.
  split; [exact H0|].
  split; [exact (proj1 (add_factor_type_spec _ model_AB) H0)|].
  split; [exact HA|]. split; [exact HAin|].
  split; [exact (proj1 (proj2 (add_factor_type_spec type_A model_AB)) HA HAin)|].
  split; [exact HBnin|]. split; [exact HBsz|]. split; [exact Hinv|].
  destruct (proj2 (proj2 (add_factor_type_spec type_B model_A)) HB HBnin HBsz Hinv)
    as (st' & H1 & H2 & H3 & H4 & H5 & H6).
  exists st'. split; [exact H1|]. split; [exact H3|exact H5].
Defined.

Lemma del_factor_type_spec_witness :
  (7 ∉ map get_type_id (m_factor_types model_AB)) /\
  del_factor_type 7 model_AB = (Err AssertionFailed, model_AB) /\
  registry_inv model_AB /\
  m_factor_types model_AB = [] ++ type_A :: [type_B] /\
  exists st',
    del_factor_type 1 model_AB = (Ok tt, st') /\
    m_factor_types st' = [type_B] /\
    m_w_map st' = [2; 2; 2] /\
    size (m_w_map st') = 5 - 2.
Proof.
  assert (H7 : 7 ∉ map get_type_id (m_factor_types model_AB))
    by (vm_compute; absent_id).
  assert (Hinv : registry_inv model_AB) by consistent_registry.
  assert (Hfts : m_factor_types model_AB = [] ++ type_A :: [type_B])
    by reflexivity.
  split; [exact H7|].
  split; [exact (proj1 (del_factor_type_spec 7 model_AB) H7)|].
  split; [exact Hinv|]. split; [exact Hfts|].
  destruct (proj1 (proj2 (del_factor_type_spec 1 model_AB))
              [] type_A [type_B] Hinv Hfts eq_refl)
    as (st' & H1 & H2 & H3 & H4 & _).
  exists st'. split; [exact H1|]. split; [exact H2|].
  split; [exact H3|exact H4].
Defined.

(** C1.  [del_factor_type] never writes [m_w_cache]: whatever the id and
    the state, the cache after the call is the cache before it.  After
    [add A] (two weights) and [del A] the map is empty and the cache still
    has two entries; after [add A; add B; del A] the dimension is 3, the
    cache has 5 entries and [w_to_fparams] aborts on a vector of 3 entries.
    The invariant "cache length = dimension" holds after [add_factor_type]
    (see [add_factor_type_spec]) and is lost by [del_factor_type]: a state
    reached by [add A; del A] breaks it. *)
Theorem del_factor_type_cache_not_rebuilt :
  (forall (FG : Type) (ftype_id : Z) (st : CFactorGraphModel FG),
     m_w_cache (snd (del_factor_type ftype_id st)) = m_w_cache st) /\
  (fst (del_factor_type 1 model_A) = Ok tt /\
   get_dim (snd (del_factor_type 1 model_A)) = 0 /\
   size (m_w_cache (snd (del_factor_type 1 model_A))) = 2) /\
  (get_dim model_B = 3 /\ size (m_w_cache model_B) = 5 /\
   fst (w_to_fparams [1%float; 2%float; 3%float] model_B) = Err AssertionFailed) /\
  (exists st : CFactorGraphModel table_graph,
     reachable st /\ size (m_w_cache st) <> get_dim st).
Proof.
  split; [|split; [vm_compute; repeat split|split; [vm_compute; repeat split|]]].
  2:{ exists (snd (del_factor_type 1 model_A)). split; [|discriminate].
      apply (reach_del 1 model_A); [|reflexivity].
      apply (reach_add type_A empty_model); [apply reach_new| |]; reflexivity. }
  intros FG ftype_id st. unfold del_factor_type.
  destruct (delete_first (m_factor_types st) ftype_id) as [w_dim fts].
  destruct (w_dim =? 0); [reflexivity|].
  match goal with
  | |- context [match ?r with Ok _ => _ | Err _ => _ end] => destruct r
  end; reflexivity.
Qed.

(** ** Collecting and distributing the weights *)

Lemma equals_size (a b : list float) : equals a b = true -> size a = size b.
Proof.
  revert b. induction a as [|x a IH]; intros [|y b]; simpl; try discriminate.
  - reflexivity.
  - intros H. apply andb_true_iff in H as [_ H]. apply IH in H.
    unfold size in *. simpl. lia.
Qed.

Lemma equals_refl (a : list float) :
  Forall (fun x => PrimFloat.eqb x x = true) a -> equals a a = true.
Proof. induction 1 as [|x a Hx _ IH]; simpl; [reflexivity|]. now rewrite Hx. Qed.

Section Weights.

Context {FG : Type}.
Implicit Types st : CFactorGraphModel FG.

Lemma w_to_fparams_skip st (w : list float) :
  equals (m_w_cache st) w = true -> w_to_fparams w st = (Ok tt, st).
Proof. intros H. unfold w_to_fparams. now rewrite H. Qed.

(** [w_to_fparams(w)] when the dirty check does not fire, on a consistent
    registry whose cache has [dimension()] entries. *)
Lemma w_to_fparams_update st (w : list float) :
  registry_inv st ->
  equals (m_w_cache st) w = false ->
  size w = size (m_w_cache st) ->
  size w = get_dim st ->
  w_to_fparams w st
  = (Ok tt,
     with_factor_types (distribute (m_factor_types st) w)
       (with_w_cache w
          (if m_verbose st then emit (Printed msg_update_w_cache) st else st))).
Proof.
  intros (Hnd & Hwf & Hmap) Heq Hsz Hdim. unfold w_to_fparams, get_dim in *.
  rewrite Heq.
  set (st0 := if m_verbose st then _ else st).
  assert (E : m_w_cache st0 = m_w_cache st /\ m_w_map st0 = m_w_map st /\
              m_factor_types st0 = m_factor_types st)
    by (unfold st0; destruct (m_verbose st); now simpl).
  destruct E as (E1 & E2 & E3).
  rewrite E1, Hsz, Z.eqb_refl. cbn [negb m_factor_types m_w_map m_w_cache with_w_cache].
  rewrite E2, E3, Hmap.
  assert (H : w_to_fparams_loop (m_factor_types st)
                (blocks (m_factor_types st)) w 0
              = Ok (size (blocks (m_factor_types st)),
                    distribute (m_factor_types st) w)).
  { pose proof (w_to_fparams_loop_blocks (m_factor_types st) [] [] w []
                  Hnd Hwf eq_refl ltac:(congruence)) as H.
    rewrite !app_nil_r in H. exact H. }
  rewrite H. cbn [m_w_cache with_factor_types with_w_cache].
  rewrite <- Hmap, <- Hdim, Z.eqb_refl. reflexivity.
Qed.

Lemma registry_inv_distribute st (w : list float) (st0 : CFactorGraphModel FG) :
  registry_inv st ->
  size w = get_dim st ->
  m_w_map st0 = m_w_map st ->
  registry_inv (with_factor_types (distribute (m_factor_types st) w)
                  (with_w_cache w st0)).
Proof.
  intros (Hnd & Hwf & Hmap) Hdim E. unfold get_dim in Hdim. rewrite Hmap in Hdim.
  repeat split; simpl.
  - now rewrite distribute_ids.
  - now apply distribute_wf.
  - now rewrite distribute_blocks, E.
Qed.

(** C7, as the code has it.  On a consistent registry,
    [w_to_fparams(fparams_to_w())] succeeds and leaves the cache and the
    weights of every type as [fparams_to_w] left them; the dirty check skips the propagation, and the
    state is untouched, when the collected vector compares equal to itself
    (it holds no NaN).  When moreover the cache is in step with the types,
    for every [w] of [dimension()] entries [w_to_fparams(w)] followed by
    [fparams_to_w()] succeeds; it returns [w] itself when [w] does not
    compare equal to the cache, and otherwise nothing is propagated and the
    cache as it was is returned, which compares equal to [w] entry by
    entry. *)
Theorem weights_round_trip st :
  (registry_inv st ->
   exists W st1 st2,
     fparams_to_w st = (Ok W, st1) /\
     w_to_fparams W st1 = (Ok tt, st2) /\
     m_w_cache st1 = W /\
     m_w_cache st2 = m_w_cache st1 /\
     m_factor_types st2 = m_factor_types st1 /\
     (equals W W = true -> st2 = st1)) /\
  (forall w,
     registry_inv st -> cache_inv st -> size w = get_dim st ->
     exists st1 W st2,
       w_to_fparams w st = (Ok tt, st1) /\
       fparams_to_w st1 = (Ok W, st2) /\
       (equals (m_w_cache st) w = false -> W = w) /\
       (equals (m_w_cache st) w = true ->
          st1 = st /\ W = m_w_cache st /\ equals W w = true)).
Proof.
  split.
  - intros Hinv. pose proof Hinv as (Hnd & Hwf & Hmap).
    rewrite (fparams_to_w_consistent st Hinv).
    set (W := weights_of (m_factor_types st)).
    set (st1 := with_w_cache W st).
    assert (Hinv1 : registry_inv st1) by exact Hinv.
    assert (HW : size W = get_dim st1).
    { unfold get_dim, st1, W. simpl. rewrite Hmap. now apply size_blocks_weights. }
    exists W, st1. destruct (equals W W) eqn:Heq.
    + exists st1. rewrite w_to_fparams_skip by exact Heq. now repeat split.
    + eexists. rewrite w_to_fparams_update; try assumption; try reflexivity.
      split; [reflexivity|]. split; [reflexivity|]. simpl.
      repeat split; try discriminate.
      apply distribute_own_weights, Hwf.
  - intros w Hinv Hcache Hdim. pose proof Hinv as (Hnd & Hwf & Hmap).
    unfold cache_inv in Hcache.
    assert (Hsz : size w = size (m_w_cache st)).
    { rewrite Hcache, size_blocks_weights, <- Hmap by assumption. exact Hdim. }
    destruct (equals (m_w_cache st) w) eqn:Heq.
    + exists st. rewrite w_to_fparams_skip by exact Heq.
      rewrite (fparams_to_w_consistent st Hinv). do 2 eexists.
      split; [reflexivity|]. split; [reflexivity|].
      split; [discriminate|]. intros _. rewrite <- Hcache. now repeat split.
    + rewrite w_to_fparams_update by assumption.
      eexists. rewrite fparams_to_w_consistent.
      * do 2 eexists. split; [reflexivity|]. split; [reflexivity|].
        split; [|discriminate]. intros _. simpl.
        apply distribute_weights; [assumption|].
        rewrite <- Hmap. exact Hdim.
      * apply registry_inv_distribute; try assumption.
        now destruct (m_verbose st).
Qed.

End Weights.

(** ** Reachable states

    Every state that calls which return can reach from a fresh model has a
    consistent registry.  (That its cache is in step does not follow: see
    [del_factor_type].) *)

Section Reachable.

Context {FG : Type}.
Implicit Types st : CFactorGraphModel FG.

Lemma registry_inv_emit (e : event) st :
  registry_inv (emit e st) <-> registry_inv st.
Proof. reflexivity. Qed.

Lemma add_factor_type_preserves (ftype : CFactorType) st st' :
  registry_inv st ->
  size (get_w ftype) = get_w_dim ftype ->
  add_factor_type ftype st = (Ok tt, st') ->
  registry_inv st'.
Proof.
  intros Hinv Hsz H.
  destruct (Z_le_gt_dec (get_w_dim ftype) 0) as [Hle|Hgt].
  - unfold add_factor_type in H.
    destruct (Z.gtb_spec (get_w_dim ftype) 0); [lia|discriminate].
  - destruct (has_type_id (m_factor_types st) (get_type_id ftype)) eqn:Hdup.
    + unfold add_factor_type in H.
      destruct (Z.gtb_spec (get_w_dim ftype) 0); [|lia]. simpl in H.
      rewrite Hdup in H. injection H as <-. exact Hinv.
    + apply has_type_id_false in Hdup.
      destruct (add_factor_type_fresh ftype st ltac:(lia) Hdup Hsz Hinv)
        as (st'' & E & _ & _ & _ & _ & Hinv' & _).
      rewrite E in H. now injection H as <-.
Qed.

Lemma del_factor_type_preserves (ftype_id : Z) st st' :
  registry_inv st ->
  del_factor_type ftype_id st = (Ok tt, st') ->
  registry_inv st'.
Proof.
  intros Hinv H.
  destruct (decide (ftype_id ∈ map get_type_id (m_factor_types st)))
    as [Hin|Hnin].
  - apply list_elem_of_In, in_map_iff in Hin as (ft & <- & Hin).
    apply in_split in Hin as (pre & post & Hfts).
    destruct (del_factor_type_registered pre post ft st Hinv Hfts)
      as (st'' & E & _ & _ & _ & Hinv').
    rewrite E in H. now injection H as <-.
  - rewrite del_factor_type_absent in H by assumption. discriminate.
Qed.

Lemma w_to_fparams_preserves (w : list float) st st' :
  registry_inv st ->
  size w = get_dim st ->
  w_to_fparams w st = (Ok tt, st') ->
  registry_inv st'.
Proof.
  intros Hinv Hdim H.
  destruct (equals (m_w_cache st) w) eqn:Heq.
  - rewrite w_to_fparams_skip in H by assumption. now injection H as <-.
  - destruct (Z.eq_dec (size w) (size (m_w_cache st))) as [Hsz|Hsz].
    + rewrite w_to_fparams_update in H by assumption. injection H as <-.
      apply registry_inv_distribute; try assumption.
      now destruct (m_verbose st).
    + unfold w_to_fparams in H. rewrite Heq in H.
      replace (m_w_cache (if m_verbose st
                          then emit (Printed msg_update_w_cache) st else st))
        with (m_w_cache st) in H by now destruct (m_verbose st).
      destruct (Z.eqb_spec (size w) (size (m_w_cache st))); [lia|].
      discriminate.
Qed.

Lemma reachable_consistent st : reachable st -> registry_inv st.
Proof.
  induction 1 as [features labels inf_type verbose
                 |ftype st st' _ IH Hsz H
                 |ftype_id st st' _ IH H
                 |st w st' _ IH H
                 |w st st' _ IH Hdim H].
  - repeat split; [apply NoDup_nil; exact I|apply Forall_nil; exact I].
  - exact (add_factor_type_preserves ftype st st' IH Hsz H).
  - exact (del_factor_type_preserves ftype_id st st' IH H).
  - rewrite (fparams_to_w_consistent st IH) in H. injection H as _ <-.
    exact IH.
  - exact (w_to_fparams_preserves w st st' IH Hdim H).
Qed.

End Reachable.

Lemma weights_round_trip_witness :
  registry_inv model_AB /\ cache_inv model_AB /\
  size [1%float; 2%float; 3%float; 4%float; 5%float] = get_dim model_AB /\
  (exists W st1 st2,
     fparams_to_w model_AB = (Ok W, st1) /\
     w_to_fparams W st1 = (Ok tt, st2) /\
     m_w_cache st2 = m_w_cache st1) /\
  (exists st1 W st2,
     w_to_fparams [1%float; 2%float; 3%float; 4%float; 5%float] model_AB
     = (Ok tt, st1) /\
     fparams_to_w st1 = (Ok W, st2) /\
     W = [1%float; 2%float; 3%float; 4%float; 5%float]).
Proof.
  assert (Hinv : registry_inv model_AB) by consistent_registry.
  assert (Hcache : cache_inv model_AB) by reflexivity.
  assert (Hdim : size [1%float; 2%float; 3%float; 4%float; 5%float]
                 = get_dim model_AB) by reflexivity.
  split; [exact Hinv|]. split; [exact Hcache|]. split; [exact Hdim|].
  destruct (weights_round_trip model_AB) as [HA HB]. split.
  - destruct (HA Hinv) as (W & st1 & st2 & H1 & H2 & _ & H3 & _).
    exists W, st1, st2. split; [exact H1|]. split; [exact H2|exact H3].
  - destruct (HB _ Hinv Hcache Hdim) as (st1 & W & st2 & H1 & H2 & H3 & _).
    exists st1, W, st2. split; [exact H1|]. split; [exact H2|].
    apply H3. reflexivity.
Defined.

(** Against C7 as worded: the cache of [model_zero] is [+0]; the vector
    [-0] has [dimension()] entries and compares equal to the cache, so
    [w_to_fparams] propagates nothing and [fparams_to_w] returns [+0],
    which is not the vector that was passed. *)
Lemma weights_round_trip_not_exact :
  size [(-0)%float] = get_dim model_zero /\
  exists st1 W st2,
    w_to_fparams [(-0)%float] model_zero = (Ok tt, st1) /\
    fparams_to_w st1 = (Ok W, st2) /\
    W <> [(-0)%float].
Proof.
  split; [reflexivity|].
  exists model_zero, [0%float]. eexists.
  split; [reflexivity|]. split; [reflexivity|].
  intros H. apply (f_equal (fun l => map PrimFloat.classify l)) in H.
  vm_compute in H. discriminate H.
Qed.

(** ** The loss *)

Lemma weighted_mismatch_snoc (ts ps : list Z) (ws : list float) :
  forall (t p : Z) (lw loss : float),
    length ps = length ts -> length ws = length ts ->
    weighted_mismatch (ts ++ [t]) (ps ++ [p]) (ws ++ [lw]) loss
    = let l := weighted_mismatch ts ps ws loss in
      if p =? t then l else (l + lw)%float.
Proof.
  revert ps ws. induction ts as [|t0 ts IH]; intros [|p0 ps] [|w0 ws];
    intros t p lw loss Hp Hw; simpl in *; try lia; try reflexivity.
  apply IH; lia.
Qed.

Lemma weighted_mismatch_ones (ts ps : list Z) :
  forall loss,
    length ps = length ts ->
    weighted_mismatch ts ps (replicate (length ts) 1%float) loss
    = Nat.iter (hamming ts ps) (fun l => (l + 1)%float) loss.
Proof.
  revert ps. induction ts as [|t ts IH]; intros [|p ps] loss Hp;
    simpl in *; try lia; try reflexivity.
  rewrite IH by lia. rewrite (Z.eqb_sym t p).
  destruct (p =? t); [reflexivity|].
  now rewrite Nat.iter_succ_r.
Qed.

Lemma hamming_sym (a b : list Z) : hamming a b = hamming b a.
Proof.
  revert b. induction a as [|x a IH]; intros [|y b]; simpl; try reflexivity.
  now rewrite IH, (Z.eqb_sym x y).
Qed.

Lemma hamming_refl (a : list Z) : hamming a a = O.
Proof. induction a as [|x a IH]; simpl; [|rewrite Z.eqb_refl]; easy. Qed.

Lemma delta_loss_weighted (y1 y2 : CFactorGraphObservation) :
  size (get_data y2) = size (get_data y1) ->
  size (get_loss_weights y1) = size (get_data y1) ->
  delta_loss y1 y2
  = Ok (weighted_mismatch (get_data y1) (get_data y2) (get_loss_weights y1) 0).
Proof.
  intros Hlen Hw. unfold delta_loss. rewrite Hlen, Z.eqb_refl. cbn [ASSERT].
  rewrite <- Hlen.
  set (st := get_data y1) in *. set (sp := get_data y2) in *.
  set (ws := get_loss_weights y1) in *.
  destruct (for_range_inv
              (fun si loss =>
                 loss = weighted_mismatch (take (Z.to_nat si) st)
                          (take (Z.to_nat si) sp) (take (Z.to_nat si) ws) 0)
              (fun si loss =>
                 let* p := vget sp si in
                 let* t := vget st si in
                 if negb (p =? t)
                 then let* lw := vget ws si in Ok (loss + lw)%float
                 else Ok loss)
              0 (size sp) 0%float) as (l & -> & ->).
  - apply size_nonneg.
  - reflexivity.
  - intros j l Hj ->.
    destruct (vget_in_range sp j Hj) as (p & -> & Hp).
    destruct (vget_in_range st j ltac:(lia)) as (t & -> & Ht).
    destruct (vget_in_range ws j ltac:(lia)) as (lw & Hlw & Hlw').
    replace (Z.to_nat (j + 1)) with (S (Z.to_nat j)) by lia.
    rewrite (take_S_r _ _ _ Hp), (take_S_r _ _ _ Ht), (take_S_r _ _ _ Hlw').
    rewrite weighted_mismatch_snoc
      by (unfold size in *; rewrite !length_take; lia).
    cbv zeta. destruct (p =? t); simpl; [|rewrite Hlw]; eauto.
  - f_equal. unfold size in *. now rewrite !take_ge by lia.
Qed.

Lemma delta_loss_same (y : CFactorGraphObservation) : delta_loss y y = Ok 0%float.
Proof.
  unfold delta_loss. rewrite Z.eqb_refl. cbn [ASSERT].
  destruct (for_range_inv (fun _ loss => loss = 0%float)
              (fun si loss =>
                 let* p := vget (get_data y) si in
                 let* t := vget (get_data y) si in
                 if negb (p =? t)
                 then let* lw := vget (get_loss_weights y) si in Ok (loss + lw)%float
                 else Ok loss)
              0 (size (get_data y)) 0%float) as (l & -> & ->);
    [apply size_nonneg|reflexivity| |reflexivity].
  intros j l Hj ->.
  destruct (vget_in_range (get_data y) j Hj) as (p & -> & _).
  rewrite Z.eqb_refl. simpl. eauto.
Qed.

Lemma delta_loss_unit_weights (y1 y2 : CFactorGraphObservation) :
  size (get_data y2) = size (get_data y1) ->
  get_loss_weights y1 = replicate (length (get_data y1)) 1%float ->
  delta_loss y1 y2 = Ok (count_as_float (hamming (get_data y1) (get_data y2))).
Proof.
  intros Hlen Hw. rewrite delta_loss_weighted.
  - rewrite Hw, weighted_mismatch_ones; [reflexivity|unfold size in Hlen; lia].
  - assumption.
  - rewrite Hw, size_replicate. reflexivity.
Qed.

(** Counting in [float64_t] is exact on the lengths tried: [1.0] added [n]
    times to [0.0] is the float of [n], for every [n] below 2048. *)
Lemma count_as_float_exact :
  forallb (fun n => PrimFloat.eqb (count_as_float n)
                      (PrimFloat.of_uint63 (Uint63.of_Z (Z.of_nat n))))
    (seq 0 2048) = true.
Proof. vm_compute. reflexivity. Qed.

(** C9.  [delta_loss(y_truth, y_pred)] aborts on its assertion when the two
    state sequences differ in length; otherwise (the truth carrying one loss
    weight per state) it returns the sum, over the positions where the
    predicted state differs from the truth, of the truth's loss weight.  It
    is a function of its two arguments only.  Hence [delta_loss(y, y)] is 0;
    and when all loss weights are 1 it is the Hamming distance (counted in
    [float64_t]) and does not change when the arguments are swapped. *)
Theorem delta_loss_spec (y1 y2 : CFactorGraphObservation) :
  (size (get_data y2) <> size (get_data y1) ->
     delta_loss y1 y2 = Err AssertionFailed) /\
  (size (get_data y2) = size (get_data y1) ->
   size (get_loss_weights y1) = size (get_data y1) ->
     delta_loss y1 y2
     = Ok (weighted_mismatch (get_data y1) (get_data y2)
             (get_loss_weights y1) 0)) /\
  delta_loss y1 y1 = Ok 0%float /\
  (size (get_data y2) = size (get_data y1) ->
   get_loss_weights y1 = replicate (length (get_data y1)) 1%float ->
     delta_loss y1 y2
     = Ok (count_as_float (hamming (get_data y1) (get_data y2)))) /\
  (size (get_data y2) = size (get_data y1) ->
   get_loss_weights y1 = replicate (length (get_data y1)) 1%float ->
   get_loss_weights y2 = replicate (length (get_data y2)) 1%float ->
     delta_loss y1 y2 = delta_loss y2 y1).
Proof.
  split; [|split; [|split; [|split]]].
  - intros Hne. unfold delta_loss.
    now destruct (Z.eqb_spec (size (get_data y2)) (size (get_data y1))).
  - apply delta_loss_weighted.
  - apply delta_loss_same.
  - apply delta_loss_unit_weights.
  - intros Hlen H1 H2.
    rewrite (delta_loss_unit_weights y1 y2), (delta_loss_unit_weights y2 y1)
      by (assumption || now symmetry).
    now rewrite hamming_sym.
Qed.

Lemma delta_loss_spec_witness :
  size (get_data obs_01) <> size (get_data obs_012) /\
  delta_loss obs_012 obs_01 = Err AssertionFailed /\
  size (get_data obs_021) = size (get_data obs_012) /\
  size (get_loss_weights obs_012) = size (get_data obs_012) /\
  get_loss_weights obs_012 = replicate (length (get_data obs_012)) 1%float /\
  get_loss_weights obs_021 = replicate (length (get_data obs_021)) 1%float /\
  delta_loss obs_012 obs_021 = Ok 2%float /\
  delta_loss obs_012 obs_021 = delta_loss obs_021 obs_012.
Proof.
  assert (Hne : size (get_data obs_01) <> size (get_data obs_012))
    by discriminate.
  assert (Hlen : size (get_data obs_021) = size (get_data obs_012))
    by reflexivity.
  assert (H1 : get_loss_weights obs_012
               = replicate (length (get_data obs_012)) 1%float) by reflexivity.
  assert (H2 : get_loss_weights obs_021
               = replicate (length (get_data obs_021)) 1%float) by reflexivity.
  split; [exact Hne|].
  split; [exact (proj1 (delta_loss_spec obs_012 obs_01) Hne)|].
  split; [exact Hlen|]. split; [reflexivity|].
  split; [exact H1|]. split; [exact H2|].
  destruct (delta_loss_spec obs_012 obs_021) as (_ & _ & _ & H4 & H5).
  split; [exact (H4 Hlen H1)|exact (H5 Hlen H1 H2)].
Defined.

(** ** [CSumOne::apply_to_feature_vector] *)

Module SumOneFacts.
Import SumOne.

Lemma contents_inv (h : gmap positive (list float)) (v : SGVector) (l : list float) :
  contents h v = Some l ->
  exists buf, h !! vector v = Some buf /\ 0 <= vlen v <= size buf /\
              l = take (Z.to_nat (vlen v)) buf /\ size l = vlen v.
Proof.
  unfold contents. destruct (h !! vector v) as [buf|]; [|discriminate].
  destruct (Z.leb_spec 0 (vlen v)); [|discriminate].
  destruct (Z.leb_spec (vlen v) (size buf)); [|discriminate].
  simpl. intros [= <-]. exists buf. repeat split; try assumption.
  unfold size in *. rewrite length_take. lia.
Qed.

(** C10.  For every vector [v] that designates [vlen] readable entries [l],
    [apply_to_feature_vector(v)] returns a vector in a buffer that did not
    exist before the call, of the same length, whose entries are the
    entries of [v] divided by [sum(v)]; every buffer that existed before the
    call, that of [v] included, is as it was.  Nothing is asked of the sum:
    for the entries [1, -1], whose sum is [0], the call returns
    [+infinity, -infinity]. *)
Theorem apply_to_feature_vector_spec :
  (forall (sum_of : list float -> float) (v : SGVector)
          (h : gmap positive (list float)) (l : list float),
     contents h v = Some l ->
     exists res h',
       apply_to_feature_vector sum_of v h = Ok (res, h') /\
       h !! vector res = None /\
       vlen res = vlen v /\
       contents h' res = Some (map (fun x => (x / sum_of l)%float) l) /\
       (forall p, p <> vector res -> h' !! p = h !! p) /\
       contents h' v = Some l) /\
  (sum_left [1%float; (-1)%float] = 0%float /\
   exists res h',
     apply_to_feature_vector sum_left vec_one_minus_one heap_one_minus_one
     = Ok (res, h') /\
     contents h' res = Some [infinity; neg_infinity]).
Proof.
  split; [|split; [reflexivity|]; do 2 eexists; split; vm_compute; reflexivity].
  intros sum_of v h l Hl.
  destruct (contents_inv h v l Hl) as (buf & Hbuf & Hlen & -> & Hsz).
  set (n := vlen v) in *. set (l := take (Z.to_nat n) buf) in *.
  set (p := fresh (dom h)).
  assert (Hp : h !! p = None).
  { apply not_elem_of_dom. apply is_fresh. }
  assert (Hpv : p <> vector v) by congruence.
  set (f := fun x => (x / sum_of l)%float).
  unfold apply_to_feature_vector, SG_MALLOC. fold n.
  destruct (Z.ltb_spec n 0); [lia|]. fold p.
  unfold sum, contents at 1. cbn [vector vlen].
  rewrite lookup_insert_ne, Hbuf by assumption.
  destruct (Z.leb_spec 0 n); [|lia].
  destruct (Z.leb_spec n (size buf)); [|lia]. cbn [andb]. fold l.
  destruct (for_range_inv
              (fun i (hi : gmap positive (list float)) =>
                 hi = <[p := map f (take (Z.to_nat i) l)
                               ++ replicate (Z.to_nat (n - i)) 0%float]> h)
              (fun i h0 =>
                 let* x := load h0 (vector v) i in
                 store h0 p i (x / sum_of l)%float)
              0 n (<[p := replicate (Z.to_nat n) 0%float]> h))
    as (h' & -> & ->).
  - lia.
  - simpl. now rewrite Z.sub_0_r.
  - intros j t Hj ->. unfold load, store.
    rewrite lookup_insert_ne, Hbuf, lookup_insert_eq by assumption.
    destruct (vget_in_range l j ltac:(lia)) as (x & _ & Hx).
    rewrite (vget_lookup buf j x);
      [|lia|unfold l in Hx; rewrite lookup_take_Some in Hx; tauto].
    replace (Z.to_nat (n - j)) with (S (Z.to_nat (n - (j + 1)))) by lia.
    simpl replicate. rewrite vset_boundary.
    2:{ unfold size in *. rewrite length_map, length_take. lia. }
    eexists. split; [reflexivity|]. rewrite insert_insert_eq. f_equal.
    replace (Z.to_nat (j + 1)) with (S (Z.to_nat j)) by lia.
    rewrite (take_S_r _ _ _ Hx), map_app. reflexivity.
  - rewrite Z.sub_diag, take_ge by (unfold size in Hsz; lia).
    simpl replicate. rewrite app_nil_r.
    do 2 eexists. split; [reflexivity|]. cbn [vector vlen].
    split; [exact Hp|]. split; [reflexivity|].
    assert (Hfl : size (map f l) = n) by (unfold size in *; now rewrite length_map).
    split; [|split].
    + unfold contents. cbn [vector vlen]. rewrite lookup_insert_eq.
      destruct (Z.leb_spec 0 n); [|lia].
      destruct (Z.leb_spec n (size (map f l))); [|lia]. simpl.
      f_equal. apply take_ge. unfold size in Hfl. lia.
    + intros q Hq. now rewrite lookup_insert_ne.
    + unfold contents. rewrite lookup_insert_ne, Hbuf by assumption.
      destruct (Z.leb_spec 0 (vlen v)); [|lia].
      destruct (Z.leb_spec (vlen v) (size buf)); [|lia]. reflexivity.
Qed.

End SumOneFacts.

Lemma apply_to_feature_vector_spec_witness :
  SumOne.contents heap_one_minus_one vec_one_minus_one
  = Some [1%float; (-1)%float] /\
  exists res h',
    SumOne.apply_to_feature_vector SumOne.sum_left vec_one_minus_one
      heap_one_minus_one = Ok (res, h') /\
    heap_one_minus_one !! SumOne.vector res = None /\
    SumOne.contents h' vec_one_minus_one = Some [1%float; (-1)%float].
Proof.
  assert (H : SumOne.contents heap_one_minus_one vec_one_minus_one
              = Some [1%float; (-1)%float]) by reflexivity.
  split; [exact H|].
  destruct (proj1 SumOneFacts.apply_to_feature_vector_spec SumOne.sum_left
              vec_one_minus_one heap_one_minus_one _ H)
    as (res & h' & H1 & H2 & _ & _ & _ & H6).
  exists res, h'. split; [exact H1|]. split; [exact H2|exact H6].
Defined.

(** ** The joint feature vector *)

Lemma find_from_bounds (l : list Z) (e : Z) :
  forall (i x : Z), x ∈ find_from i l e -> i <= x < i + size l.
Proof.
  induction l as [|y l IH]; intros i x Hx; simpl in Hx.
  - inversion Hx.
  - replace (size (y :: l)) with (1 + size l) by (unfold size; simpl; lia).
    pose proof (size_nonneg l).
    destruct (y =? e).
    + apply elem_of_cons in Hx as [->|Hx]; [lia|]. apply IH in Hx. lia.
    + apply IH in Hx. lia.
Qed.

Lemma length_add_at (psi : list float) (sd : Z * float) :
  length (add_at psi sd) = length psi.
Proof.
  unfold add_at. destruct (psi !! Z.to_nat (fst sd)); [|reflexivity].
  apply length_insert.
Qed.

Lemma length_fold_add_at (l : list (Z * float)) :
  forall psi, length (fold_left add_at l psi) = length psi.
Proof.
  induction l as [|sd l IH]; intros psi; [reflexivity|].
  simpl. now rewrite IH, length_add_at.
Qed.

Section JointFeature.

Context {FG : Type} `{!Collaborators FG}.
Implicit Types st : CFactorGraphModel FG.

Lemma length_add_factor (w_map_all states : list Z) (psi : list float)
    (fac : CFactor) :
  length (add_factor w_map_all states psi fac) = length psi.
Proof. apply length_fold_add_at. Qed.

(** Lines 246-260 for a factor that passes the assertions. *)
Lemma accumulate_factor_ok (w_map_all states : list Z) (fac : CFactor)
    (psi : list float) :
  factor_ok w_map_all states fac ->
  length psi = length w_map_all ->
  accumulate_factor w_map_all states fac psi
  = Ok (add_factor w_map_all states psi fac).
Proof.
  intros (Hdim & Hna & Hei) Hpsi. unfold accumulate_factor, add_factor.
  rewrite Hdim, Z.eqb_refl. cbn [ASSERT]. rewrite <- Hdim, Hna, Z.eqb_refl.
  cbn [ASSERT].
  set (ftype := get_factor_type fac) in *.
  set (dat := fac_get_data fac) in *.
  set (ei := index_from_universe_assignment ftype states (get_variables fac)) in *.
  set (fm := find w_map_all (get_type_id ftype)) in *.
  set (zs := zip (factor_slots w_map_all states fac) dat).
  assert (Hzs : forall di : Z, 0 <= di < size dat ->
            exists slot d,
              fm !! Z.to_nat (ei * size dat + di) = Some slot /\
              dat !! Z.to_nat di = Some d /\
              zs !! Z.to_nat di = Some (slot, d)).
  { intros di Hdi.
    destruct (vget_in_range dat di Hdi) as (d & _ & Hd).
    destruct (vget_in_range fm (ei * size dat + di)) as (slot & _ & Hslot);
      [nia|].
    exists slot, d. repeat split; try assumption.
    unfold zs, zip. apply lookup_zip_with_Some. exists slot, d.
    repeat split; [|assumption].
    unfold factor_slots. fold ftype dat ei fm.
    rewrite lookup_take_lt by (unfold size in Hdi; lia).
    rewrite lookup_drop, <- Hslot. f_equal. unfold size. nia. }
  destruct (for_range_inv
              (fun di p => p = fold_left add_at (take (Z.to_nat di) zs) psi)
              (fun di psi0 =>
                 let* slot := vget fm (ei * size dat + di) in
                 let* acc := vget psi0 slot in
                 let* d := vget dat di in
                 vset psi0 slot (acc + d)%float)
              0 (size dat) psi) as (p & -> & ->).
  - apply size_nonneg.
  - reflexivity.
  - intros j t Hj ->.
    destruct (Hzs j Hj) as (slot & d & Hslot & Hd & Hz).
    rewrite (vget_lookup fm _ slot) by (assumption || nia).
    assert (Hrange : 0 <= slot < size w_map_all).
    { apply list_elem_of_lookup_2 in Hslot.
      apply find_from_bounds in Hslot. lia. }
    set (cur := fold_left add_at (take (Z.to_nat j) zs) psi).
    assert (Hcur : length cur = length w_map_all)
      by (unfold cur; now rewrite length_fold_add_at).
    destruct (vget_in_range cur slot) as (acc & -> & Hacc);
      [unfold size in *; lia|].
    rewrite (vget_lookup dat j d) by (assumption || lia).
    rewrite vset_in_range by (unfold size in *; lia).
    eexists. split; [reflexivity|].
    replace (Z.to_nat (j + 1)) with (S (Z.to_nat j)) by lia.
    rewrite (take_S_r _ _ _ Hz), fold_left_app. simpl. fold cur.
    unfold add_at. simpl. now rewrite Hacc.
  - f_equal. rewrite take_ge; [reflexivity|].
    subst zs. rewrite length_zip. unfold size. lia.
Qed.

Lemma accumulate_factors_ok (w_map_all states : list Z) (facs : list CFactor) :
  forall psi,
    Forall (factor_ok w_map_all states) facs ->
    length psi = length w_map_all ->
    accumulate_factors w_map_all states facs psi
    = Ok (fold_left (add_factor w_map_all states) facs psi).
Proof.
  induction facs as [|fac facs IH]; intros psi Hok Hpsi; [reflexivity|].
  apply Forall_cons in Hok as [Hfac Hok]. simpl.
  rewrite accumulate_factor_ok by assumption.
  apply IH; [assumption|]. now rewrite length_add_factor.
Qed.

(** The assertion of line 256. *)
Lemma accumulate_factors_misfit (w_map_all states : list Z)
    (pre post : list CFactor) (fac : CFactor) :
  forall psi,
    Forall (factor_ok w_map_all states) pre ->
    length psi = length w_map_all ->
    size (find w_map_all (get_type_id (get_factor_type fac)))
    = get_w_dim (get_factor_type fac) ->
    size (find w_map_all (get_type_id (get_factor_type fac)))
    <> size (fac_get_data fac) * get_num_assignments (get_factor_type fac) ->
    accumulate_factors w_map_all states (pre ++ fac :: post) psi
    = Err AssertionFailed.
Proof.
  induction pre as [|f pre IH]; intros psi Hok Hpsi Hdim Hne; simpl.
  - unfold accumulate_factor. rewrite Hdim, Z.eqb_refl. cbn [ASSERT].
    rewrite <- Hdim.
    now destruct (Z.eqb_spec
                    (size (find w_map_all (get_type_id (get_factor_type fac))))
                    (size (fac_get_data fac)
                     * get_num_assignments (get_factor_type fac))).
  - apply Forall_cons in Hok as [Hf Hok].
    rewrite accumulate_factor_ok by assumption.
    apply IH; try assumption. now rewrite length_add_factor.
Qed.

Lemma get_joint_feature_vector_unfold (feat_idx : Z)
    (y : CFactorGraphObservation) st (fg : FG) :
  0 <= feat_idx ->
  m_features st !! Z.to_nat feat_idx = Some fg ->
  get_joint_feature_vector feat_idx y st
  = (let* psi :=
       accumulate_factors (m_w_map st) (get_data y) (get_factors fg)
         (replicate (length (m_w_map st)) 0%float) in
     Ok (scale psi (-1)%float),
     emit (Called feat_idx get_factors_call) st).
Proof.
  intros Hidx Hfg.
  unfold get_joint_feature_vector, bind, get_sample, query_sample.
  rewrite (vget_lookup _ _ _ Hidx Hfg). cbn [m_features emit].
  unfold new_vector, get_dim. cbn [m_w_map emit].
  destruct (Z.ltb_spec (size (m_w_map st)) 0);
    [pose proof (size_nonneg (m_w_map st)); lia|].
  unfold zero, size. rewrite Nat2Z.id, length_replicate.
  destruct (accumulate_factors _ _ _ _); reflexivity.
Qed.

End JointFeature.

(** C3.  For an example [feat_idx] with structure instance [fg] and a label
    [y]: when every factor passes the two assertions and its table index is
    in range, [get_joint_feature_vector] returns the vector obtained from
    zeros of length [dimension()] by adding, factor after factor, the data
    values into the slots [slots[index*data_size ..
    index*data_size+data_size)] of the factor's type, and negating; it only
    asks the instance for its factors.  When a factor's slots are not
    [data_size * num_assignments] many, the call aborts on the assertion.
    In the scenario (four weights, two assignments, data [1, 1], table index
    1) the result is [-1] at the slots 2 and 3 and zero elsewhere. *)
Theorem get_joint_feature_vector_spec :
  (forall (FG : Type) (C : Collaborators FG) (feat_idx : Z)
          (y : CFactorGraphObservation) (st : CFactorGraphModel FG) (fg : FG),
     0 <= feat_idx ->
     m_features st !! Z.to_nat feat_idx = Some fg ->
     (Forall (factor_ok (m_w_map st) (get_data y)) (get_factors fg) ->
        get_joint_feature_vector feat_idx y st
        = (Ok (psi_spec (m_w_map st) (get_data y) (get_factors fg)),
           emit (Called feat_idx get_factors_call) st) /\
        size (psi_spec (m_w_map st) (get_data y) (get_factors fg))
        = get_dim st) /\
     (forall pre fac post,
        get_factors fg = pre ++ fac :: post ->
        Forall (factor_ok (m_w_map st) (get_data y)) pre ->
        size (find (m_w_map st) (get_type_id (get_factor_type fac)))
        = get_w_dim (get_factor_type fac) ->
        size (find (m_w_map st) (get_type_id (get_factor_type fac)))
        <> size (fac_get_data fac) * get_num_assignments (get_factor_type fac) ->
        fst (get_joint_feature_vector feat_idx y st) = Err AssertionFailed)) /\
  (fst (get_joint_feature_vector 0 label_1 unary_model)
   = Ok [(-0)%float; (-0)%float; (-1)%float; (-1)%float] /\
   map (fun x => PrimFloat.eqb x 0%float)
     [(-0)%float; (-0)%float; (-1)%float; (-1)%float]
   = [true; true; false; false]).
Proof.
  split; [|split; reflexivity].
  intros FG C feat_idx y st fg Hidx Hfg.
  rewrite (get_joint_feature_vector_unfold feat_idx y st fg Hidx Hfg).
  split.
  - intros Hok.
    rewrite accumulate_factors_ok
      by (assumption || now rewrite length_replicate).
    split; [reflexivity|].
    unfold psi_spec, scale, get_dim, size. rewrite length_map.
    assert (H : forall facs psi,
              length (fold_left (add_factor (m_w_map st) (get_data y)) facs psi)
              = length psi).
    { induction facs as [|f facs IH]; intros psi; [reflexivity|].
      simpl. now rewrite IH, length_add_factor. }
    now rewrite H, length_replicate.
  - intros pre fac post Hfacs Hpre Hdim Hne. rewrite Hfacs.
    rewrite accumulate_factors_misfit
      by (assumption || now rewrite length_replicate).
    reflexivity.
Qed.

Lemma get_joint_feature_vector_spec_witness :
  0 <= 0 /\
  m_features unary_model !! Z.to_nat 0 = Some unary_graph /\
  Forall (factor_ok (m_w_map unary_model) (get_data label_1))
    (get_factors unary_graph) /\
  fst (get_joint_feature_vector 0 label_1 unary_model)
  = Ok (psi_spec (m_w_map unary_model) (get_data label_1)
          (get_factors unary_graph)) /\
  m_features misfit_model !! Z.to_nat 0
  = Some {| tg_factors := [unary_factor; misfit_factor];
            tg_tree := true; tg_energies := [] |} /\
  size (find (m_w_map misfit_model) (get_type_id (get_factor_type misfit_factor)))
  <> size (fac_get_data misfit_factor)
     * get_num_assignments (get_factor_type misfit_factor) /\
  fst (get_joint_feature_vector 0 label_1 misfit_model) = Err AssertionFailed.
Proof.
  assert (H0 : 0 <= 0) by lia.
  assert (Hfg : m_features unary_model !! Z.to_nat 0 = Some unary_graph)
    by reflexivity.
  assert (Hunary : factor_ok [0; 0; 0; 0] [1] unary_factor).
  { split; [reflexivity|]. split; [reflexivity|]. simpl. lia. }
  assert (Hok : Forall (factor_ok (m_w_map unary_model) (get_data label_1))
                  (get_factors unary_graph)).
  { apply Forall_cons. split; [exact Hunary|apply Forall_nil; exact I]. }
  assert (Hfg' : m_features misfit_model !! Z.to_nat 0
                 = Some {| tg_factors := [unary_factor; misfit_factor];
                           tg_tree := true; tg_energies := [] |})
    by reflexivity.
  assert (Hne : size (find (m_w_map misfit_model)
                        (get_type_id (get_factor_type misfit_factor)))
                <> size (fac_get_data misfit_factor)
                   * get_num_assignments (get_factor_type misfit_factor))
    by discriminate.
  split; [exact H0|]. split; [exact Hfg|]. split; [exact Hok|].
  destruct (proj1 get_joint_feature_vector_spec table_graph _ 0 label_1
              unary_model unary_graph H0 Hfg) as [H1 _].
  destruct (H1 Hok) as [H1' _].
  split; [exact (f_equal fst H1')|].
  split; [exact Hfg'|]. split; [exact Hne|].
  destruct (proj1 get_joint_feature_vector_spec table_graph _ 0 label_1
              misfit_model _ H0 Hfg') as [_ H2].
  apply (H2 [unary_factor] misfit_factor [] eq_refl).
  - apply Forall_cons. split; [exact Hunary|apply Forall_nil; exact I].
  - reflexivity.
  - exact Hne.
Defined.

(** ** The bounds of the primal problem *)

Lemma vset_block {A : Type} (LA LB LR : list A) (k : nat) (x : A) :
  (k < length LB)%nat ->
  vset (LA ++ LB ++ LR) (size LA + Z.of_nat k) x
  = Ok (LA ++ <[k := x]> LB ++ LR).
Proof.
  intros Hk. rewrite vset_in_range.
  - f_equal. replace (Z.to_nat (size LA + Z.of_nat k)) with (length LA + k)%nat
      by (unfold size; lia).
    rewrite insert_app_r. f_equal. now apply insert_app_l.
  - rewrite !size_app. pose proof (size_nonneg LR). unfold size in *. lia.
Qed.

Lemma size_four {A : Type} (l : list A) :
  size l = 4 -> exists a b c d, l = [a; b; c; d].
Proof.
  destruct l as [|a [|b [|c [|d [|e l]]]]]; unfold size; simpl; try lia.
  intros _. now exists a, b, c, d.
Qed.

Lemma create_identity_matrix_entry (n : nat) (s : float) (i j : nat) :
  (i < n)%nat -> (j < n)%nat ->
  exists row,
    create_identity_matrix (Z.of_nat n) s !! i = Some row /\
    row !! j = Some (if Nat.eqb i j then s else 0%float).
Proof.
  intros Hi Hj. unfold create_identity_matrix. rewrite Nat2Z.id.
  eexists. split.
  - rewrite list_lookup_fmap, lookup_seq_lt by assumption. reflexivity.
  - rewrite list_lookup_fmap, lookup_seq_lt by assumption. reflexivity.
Qed.

(** Lines 423-454 for one type of a consistent registry. *)
Lemma constrain_type_block (pre post : list CFactorType) (ft : CFactorType)
    (LA LB LR UA UB UR : list float) :
  NoDup (map get_type_id (pre ++ ft :: post)) ->
  wf_type ft ->
  size LA = size (blocks pre) -> size UA = size (blocks pre) ->
  LB = replicate (Z.to_nat (get_w_dim ft)) neg_infinity ->
  UB = replicate (Z.to_nat (get_w_dim ft)) infinity ->
  constrain_type (blocks (pre ++ ft :: post)) ft (LA ++ LB ++ LR, UA ++ UB ++ UR)
  = if is_pairwise_binary (get_cardinalities ft)
    then if get_w_dim ft =? 4
         then Ok (LA ++ lb_block ft ++ LR, UA ++ ub_block ft ++ UR)
         else Err ConfigurationError
    else Ok (LA ++ lb_block ft ++ LR, UA ++ ub_block ft ++ UR).
Proof.
  intros Hnd [Hpos Hsz] HLA HUA -> ->. unfold constrain_type, lb_block, ub_block.
  destruct (is_pairwise_binary (get_cardinalities ft)); [|reflexivity].
  destruct (Z.eqb_spec (get_w_dim ft) 4) as [H4|]; [|reflexivity].
  cbn [REQUIRE]. rewrite find_blocks by (assumption || lia).
  unfold size at 1. rewrite length_seqZ, Hsz, H4. cbn [Z.to_nat Z.of_nat Z.eqb Pos.eqb ASSERT].
  rewrite <- HLA.
  assert (G : forall k : Z, 0 <= k < 4 ->
            vget (seqZ (size LA) 4) k = Ok (size LA + k)).
  { intros k Hk. apply vget_lookup; [lia|].
    rewrite lookup_seqZ_nat by lia. f_equal. lia. }
  assert (VL : forall (k : nat) B, length B = 4%nat -> (k < 4)%nat ->
            vset (LA ++ B ++ LR) (size LA + Z.of_nat k) 0%float
            = Ok (LA ++ <[k := 0%float]> B ++ LR)).
  { intros k B HB Hk. apply vset_block. lia. }
  assert (VU : forall (k : nat) B, length B = 4%nat -> (k < 4)%nat ->
            vset (UA ++ B ++ UR) (size LA + Z.of_nat k) 0%float
            = Ok (UA ++ <[k := 0%float]> B ++ UR)).
  { intros k B HB Hk. replace (size LA) with (size UA) by lia.
    apply vset_block. lia. }
  simpl replicate.
  rewrite (G 0) by lia. rewrite (VL 0%nat) by (simpl; lia).
  rewrite (VU 0%nat) by (simpl; lia).
  rewrite (G 3) by lia. rewrite (VL 3%nat) by (simpl; lia).
  rewrite (VU 3%nat) by (simpl; lia).
  rewrite (G 1) by lia. rewrite (VL 1%nat) by (simpl; lia).
  rewrite (G 2) by lia. rewrite (VL 2%nat) by (simpl; lia).
  reflexivity.
Qed.

Lemma constrain_type_supported (pre post : list CFactorType)
    (ft : CFactorType) (LA LB LR UA UB UR : list float) :
  NoDup (map get_type_id (pre ++ ft :: post)) ->
  wf_type ft -> supported ft ->
  size LA = size (blocks pre) -> size UA = size (blocks pre) ->
  LB = replicate (Z.to_nat (get_w_dim ft)) neg_infinity ->
  UB = replicate (Z.to_nat (get_w_dim ft)) infinity ->
  constrain_type (blocks (pre ++ ft :: post)) ft (LA ++ LB ++ LR, UA ++ UB ++ UR)
  = Ok (LA ++ lb_block ft ++ LR, UA ++ ub_block ft ++ UR).
Proof.
  intros Hnd Hft Hs HLA HUA HLB HUB.
  rewrite (constrain_type_block pre post ft) by assumption.
  unfold supported in Hs.
  destruct (is_pairwise_binary _); [|reflexivity].
  now rewrite Hs, Z.eqb_refl.
Qed.

Lemma size_lb_block (ft : CFactorType) :
  wf_type ft -> supported ft -> size (lb_block ft) = get_w_dim ft.
Proof.
  intros [Hpos _] Hsup. unfold lb_block, supported in *.
  destruct (is_pairwise_binary _); [now rewrite Hsup|].
  rewrite size_replicate. lia.
Qed.

Lemma size_ub_block (ft : CFactorType) :
  wf_type ft -> supported ft -> size (ub_block ft) = get_w_dim ft.
Proof.
  intros [Hpos _] Hsup. unfold ub_block, supported in *.
  destruct (is_pairwise_binary _); [now rewrite Hsup|].
  rewrite size_replicate. lia.
Qed.

Lemma size_flat_blocks (f : CFactorType -> list float) (fts : list CFactorType) :
  Forall wf_type fts ->
  Forall (fun ft => size (f ft) = get_w_dim ft) fts ->
  size (flat_map f fts) = size (blocks fts).
Proof.
  induction fts as [|ft fts IH]; intros Hwf Hf; [reflexivity|].
  apply Forall_cons in Hwf as [[Hpos _] Hwf]. apply Forall_cons in Hf as [Hft Hf].
  change (blocks (ft :: fts)) with (block ft ++ blocks fts). simpl.
  rewrite !size_app, IH, Hft, size_block by (assumption || lia). reflexivity.
Qed.

Lemma size_lb_blocks (fts : list CFactorType) :
  Forall wf_type fts -> Forall supported fts ->
  size (flat_map lb_block fts) = size (blocks fts).
Proof.
  intros Hwf Hsup. apply size_flat_blocks; [assumption|].
  rewrite Forall_forall in *. intros ft Hin. apply size_lb_block; auto.
Qed.

Lemma size_ub_blocks (fts : list CFactorType) :
  Forall wf_type fts -> Forall supported fts ->
  size (flat_map ub_block fts) = size (blocks fts).
Proof.
  intros Hwf Hsup. apply size_flat_blocks; [assumption|].
  rewrite Forall_forall in *. intros ft Hin. apply size_ub_block; auto.
Qed.

(** Lines 421-455 on a consistent registry whose pairwise binary types
    have four weights. *)
Lemma constrain_types_blocks (fts : list CFactorType) :
  forall (pre post : list CFactorType) (LA LR UA UR : list float),
    NoDup (map get_type_id (pre ++ fts ++ post)) ->
    Forall wf_type fts -> Forall supported fts ->
    size LA = size (blocks pre) -> size UA = size (blocks pre) ->
    constrain_types (blocks (pre ++ fts ++ post)) fts
      (LA ++ replicate (length (blocks fts)) neg_infinity ++ LR,
       UA ++ replicate (length (blocks fts)) infinity ++ UR)
    = Ok (LA ++ flat_map lb_block fts ++ LR, UA ++ flat_map ub_block fts ++ UR).
Proof.
  induction fts as [|ft fts IH]; intros pre post LA LR UA UR Hnd Hwf Hsup HLA HUA.
  - reflexivity.
  - apply Forall_cons in Hwf as [Hft Hwf]. apply Forall_cons in Hsup as [Hs Hsup].
    pose proof Hft as [Hpos _].
    cbn [constrain_types].
    change (blocks (ft :: fts)) with (block ft ++ blocks fts).
    rewrite length_app, !replicate_add, <- !app_assoc.
    replace (length (block ft)) with (Z.to_nat (get_w_dim ft))
      by (unfold block; now rewrite length_replicate).
    change ((ft :: fts) ++ post) with (ft :: fts ++ post) in *.
    rewrite (constrain_type_supported pre (fts ++ post) ft)
      by (assumption || reflexivity).
    replace (pre ++ ft :: fts ++ post) with ((pre ++ [ft]) ++ fts ++ post) in *
      by now rewrite <- app_assoc.
    rewrite !(app_assoc LA), !(app_assoc UA).
    assert (Hb : size (blocks (pre ++ [ft])) = size (blocks pre) + get_w_dim ft).
    { rewrite blocks_app, size_app. unfold blocks at 2. simpl.
      rewrite app_nil_r, size_block by lia. reflexivity. }
    rewrite (IH (pre ++ [ft])); try assumption.
    + simpl. now rewrite <- !app_assoc.
    + rewrite size_app, size_lb_block by assumption. lia.
    + rewrite size_app, size_ub_block by assumption. lia.
Qed.

Lemma constrain_types_app (w_map_all : list Z) (a b : list CFactorType) :
  forall bounds,
    constrain_types w_map_all (a ++ b) bounds
    = let* bounds' := constrain_types w_map_all a bounds in
      constrain_types w_map_all b bounds'.
Proof.
  induction a as [|ft a IH]; intros bounds; simpl.
  - now destruct (constrain_types w_map_all b bounds).
  - destruct (constrain_type w_map_all ft bounds); [apply IH|reflexivity].
Qed.

Lemma lookup_block {A : Type} (L1 B L2 : list A) (k : nat) :
  (k < length B)%nat -> (L1 ++ B ++ L2) !! (length L1 + k)%nat = B !! k.
Proof.
  intros Hk. rewrite lookup_app_r by lia.
  replace (length L1 + k - length L1)%nat with k by lia.
  now apply lookup_app_l.
Qed.

Section PrimalOpt.

Context {FG : Type}.
Implicit Types st : CFactorGraphModel FG.

Lemma init_primal_opt_graph_cut st (regularization : float) (lb ub : list float) :
  m_inf_type st = GRAPH_CUT ->
  init_primal_opt regularization lb ub st
  = let* bounds :=
      constrain_types (m_w_map st) (m_factor_types st)
        (replicate (length (m_w_map st)) neg_infinity,
         replicate (length (m_w_map st)) infinity) in
    Ok {| opt_lb := fst bounds; opt_ub := snd bounds;
          opt_C := create_identity_matrix (get_dim st) regularization |}.
Proof.
  intros Hmode. unfold init_primal_opt, get_dim. rewrite Hmode.
  unfold resize_vector.
  destruct (Z.ltb_spec (size (m_w_map st)) 0);
    [pose proof (size_nonneg (m_w_map st)); lia|].
  unfold fill_vector. rewrite !length_app, !length_take, !length_replicate.
  replace (Z.to_nat (size (m_w_map st)) `min` length lb
           + (Z.to_nat (size (m_w_map st)) - length lb))%nat
    with (length (m_w_map st)) by (unfold size; lia).
  replace (Z.to_nat (size (m_w_map st)) `min` length ub
           + (Z.to_nat (size (m_w_map st)) - length ub))%nat
    with (length (m_w_map st)) by (unfold size; lia).
  destruct (constrain_types _ _ _) as [[lb' ub']|]; reflexivity.
Qed.

End PrimalOpt.

(** C4, as the code has it.  [init_primal_opt] sets [C] to the identity of
    size [dimension()] scaled by [regularization].  In the mode [GRAPH_CUT], on a
    consistent registry: when a pairwise binary type (cardinalities [2,2])
    has a [w_dim] other than 4 the call throws; otherwise [lb] and [ub] get
    [dimension()] entries, a pairwise binary type has [lb = ub = 0] at its
    slots 0 and 3 and [lb = 0], [ub = +inf] at its slots 1 and 2, and the
    slots of every other type have [lb = -inf], [ub = +inf].  In every other
    mode [lb] and [ub] come back as the caller passed them.  In the scenario
    the pairwise binary type has the slots 4..7. *)
Theorem init_primal_opt_spec :
  (forall (FG : Type) (st : CFactorGraphModel FG) (regularization : float)
          (lb ub : list float),
     (forall r, init_primal_opt regularization lb ub st = Ok r ->
        opt_C r = create_identity_matrix (get_dim st) regularization /\
        forall i j : nat, (i < length (m_w_map st))%nat ->
          (j < length (m_w_map st))%nat ->
          exists row, opt_C r !! i = Some row /\
                      row !! j = Some (if Nat.eqb i j then regularization
                                       else 0%float)) /\
     (m_inf_type st = GRAPH_CUT -> registry_inv st ->
      Forall supported (m_factor_types st) ->
        exists r,
          init_primal_opt regularization lb ub st = Ok r /\
          opt_lb r = flat_map lb_block (m_factor_types st) /\
          opt_ub r = flat_map ub_block (m_factor_types st) /\
          size (opt_lb r) = get_dim st /\ size (opt_ub r) = get_dim st /\
          forall pre ft post,
            m_factor_types st = pre ++ ft :: post ->
            is_pairwise_binary (get_cardinalities ft) = true ->
            let off := length (blocks pre) in
            find (m_w_map st) (get_type_id ft) = seqZ (Z.of_nat off) 4 /\
            opt_lb r !! off = Some 0%float /\
            opt_ub r !! off = Some 0%float /\
            opt_lb r !! (off + 3)%nat = Some 0%float /\
            opt_ub r !! (off + 3)%nat = Some 0%float /\
            opt_lb r !! (off + 1)%nat = Some 0%float /\
            opt_ub r !! (off + 1)%nat = Some infinity /\
            opt_lb r !! (off + 2)%nat = Some 0%float /\
            opt_ub r !! (off + 2)%nat = Some infinity) /\
     (forall pre ft post,
        m_inf_type st = GRAPH_CUT -> registry_inv st ->
        m_factor_types st = pre ++ ft :: post ->
        Forall supported pre ->
        is_pairwise_binary (get_cardinalities ft) = true ->
        get_w_dim ft <> 4 ->
        init_primal_opt regularization lb ub st = Err ConfigurationError) /\
     (m_inf_type st <> GRAPH_CUT ->
        init_primal_opt regularization lb ub st
        = Ok {| opt_lb := lb; opt_ub := ub;
                opt_C := create_identity_matrix (get_dim st) regularization |})) /\
  (exists r,
     init_primal_opt 1%float [] [] graph_cut_model = Ok r /\
     find (m_w_map graph_cut_model) (get_type_id pairwise_type) = [4; 5; 6; 7] /\
     opt_lb r = [neg_infinity; neg_infinity; neg_infinity; neg_infinity;
                 0%float; 0%float; 0%float; 0%float] /\
     opt_ub r = [infinity; infinity; infinity; infinity;
                 0%float; infinity; infinity; 0%float]).
Proof.
  split; [|eexists; repeat split; reflexivity].
  intros FG st regularization lb ub. split; [|split; [|split]].
  - intros r Hr.
    assert (HC : opt_C r = create_identity_matrix (get_dim st) regularization).
    { unfold init_primal_opt in Hr.
      destruct (m_inf_type st); try (injection Hr as <-; reflexivity).
      destruct (resize_vector _ lb _); [|discriminate].
      destruct (resize_vector _ ub _); [|discriminate].
      destruct (constrain_types _ _ _) as [[lb' ub']|]; [|discriminate].
      injection Hr as <-. reflexivity. }
    split; [exact HC|]. intros i j Hi Hj. rewrite HC. unfold get_dim, size.
    now apply create_identity_matrix_entry.
  - intros Hmode (Hnd & Hwf & Hmap) Hsup.
    rewrite init_primal_opt_graph_cut by assumption. rewrite Hmap.
    pose proof (constrain_types_blocks (m_factor_types st) [] [] [] [] [] []) as H.
    rewrite !app_nil_r in H. cbn [app] in H.
    rewrite H by (assumption || reflexivity). clear H.
    eexists. split; [reflexivity|]. cbn [opt_lb opt_ub fst snd].
    split; [reflexivity|]. split; [reflexivity|].
    unfold get_dim. rewrite Hmap.
    split; [now apply size_lb_blocks|]. split; [now apply size_ub_blocks|].
    intros pre ft post Hfts H22. set (off := length (blocks pre)).
    rewrite Hfts in *.
    apply Forall_app in Hwf as [Hwf_pre Hwf_ft].
    apply Forall_cons in Hwf_ft as [[Hpos Hsz] _].
    apply Forall_app in Hsup as [Hsup_pre Hsup_ft].
    apply Forall_cons in Hsup_ft as [H4 _]. unfold supported in H4.
    specialize (H4 H22).
    split.
    { rewrite find_blocks by (assumption || lia). now rewrite H4. }
    assert (EL : flat_map lb_block (pre ++ ft :: post)
                 = flat_map lb_block pre
                   ++ [0%float; 0%float; 0%float; 0%float]
                   ++ flat_map lb_block post).
    { rewrite flat_map_app.
      change (flat_map lb_block (ft :: post))
        with (lb_block ft ++ flat_map lb_block post).
      unfold lb_block at 2. now rewrite H22. }
    assert (EU : flat_map ub_block (pre ++ ft :: post)
                 = flat_map ub_block pre
                   ++ [0%float; infinity; infinity; 0%float]
                   ++ flat_map ub_block post).
    { rewrite flat_map_app.
      change (flat_map ub_block (ft :: post))
        with (ub_block ft ++ flat_map ub_block post).
      unfold ub_block at 2. now rewrite H22. }
    rewrite EL, EU.
    assert (HL : length (flat_map lb_block pre) = off).
    { pose proof (size_lb_blocks pre Hwf_pre Hsup_pre). unfold size in *. lia. }
    assert (HU : length (flat_map ub_block pre) = off).
    { pose proof (size_ub_blocks pre Hwf_pre Hsup_pre). unfold size in *. lia. }
    assert (GL : forall (k : nat) B L2, (k < length B)%nat ->
              (flat_map lb_block pre ++ B ++ L2) !! (off + k)%nat = B !! k).
    { intros k B L2 Hk. rewrite <- HL. now apply lookup_block. }
    assert (GU : forall (k : nat) B L2, (k < length B)%nat ->
              (flat_map ub_block pre ++ B ++ L2) !! (off + k)%nat = B !! k).
    { intros k B L2 Hk. rewrite <- HU. now apply lookup_block. }
    replace off with (off + 0)%nat at 1 2 by lia.
    rewrite !GL, !GU by (simpl; lia). now repeat split.
  - intros pre ft post Hmode (Hnd & Hwf & Hmap) Hfts Hsup H22 Hne4.
    rewrite init_primal_opt_graph_cut by assumption. rewrite Hmap, Hfts in *.
    apply Forall_app in Hwf as [Hwf_pre Hwf_ft].
    apply Forall_cons in Hwf_ft as [Hft _].
    rewrite constrain_types_app.
    rewrite blocks_app, length_app, !replicate_add.
    pose proof (constrain_types_blocks pre [] (ft :: post) []
                  (replicate (length (blocks (ft :: post))) neg_infinity) []
                  (replicate (length (blocks (ft :: post))) infinity)) as H.
    cbn [app] in H. rewrite <- blocks_app. rewrite H by (assumption || reflexivity).
    clear H. cbn [constrain_types].
    change (blocks (ft :: post)) with (block ft ++ blocks post).
    rewrite length_app, !replicate_add.
    replace (length (block ft)) with (Z.to_nat (get_w_dim ft))
      by (unfold block; now rewrite length_replicate).
    rewrite (constrain_type_block pre post ft); try assumption; try reflexivity.
    + rewrite H22. now destruct (Z.eqb_spec (get_w_dim ft) 4).
    + now apply size_lb_blocks.
    + now apply size_ub_blocks.
  - intros Hmode. unfold init_primal_opt.
    destruct (m_inf_type st); try reflexivity. congruence.
Qed.

Lemma init_primal_opt_spec_witness :
  m_inf_type graph_cut_model = GRAPH_CUT /\
  registry_inv graph_cut_model /\
  Forall supported (m_factor_types graph_cut_model) /\
  m_factor_types graph_cut_model = [unary_type] ++ pairwise_type :: [] /\
  is_pairwise_binary (get_cardinalities pairwise_type) = true /\
  (exists r,
     init_primal_opt 2%float [] [] graph_cut_model = Ok r /\
     opt_lb r !! 4%nat = Some 0%float /\ opt_ub r !! 4%nat = Some 0%float /\
     opt_lb r !! 7%nat = Some 0%float /\ opt_ub r !! 7%nat = Some 0%float /\
     opt_lb r !! 5%nat = Some 0%float /\ opt_ub r !! 5%nat = Some infinity /\
     opt_lb r !! 6%nat = Some 0%float /\ opt_ub r !! 6%nat = Some infinity) /\
  m_inf_type edge_feature_model = GRAPH_CUT /\
  registry_inv edge_feature_model /\
  m_factor_types edge_feature_model = [unary_type] ++ edge_feature_type :: [] /\
  Forall supported [unary_type] /\
  is_pairwise_binary (get_cardinalities edge_feature_type) = true /\
  get_w_dim edge_feature_type <> 4 /\
  init_primal_opt 2%float [] [] edge_feature_model = Err ConfigurationError /\
  m_inf_type unary_model <> GRAPH_CUT /\
  init_primal_opt 2%float [7%float] [] unary_model
  = Ok {| opt_lb := [7%float]; opt_ub := [];
          opt_C := create_identity_matrix (get_dim unary_model) 2%float |}.
Proof.
  assert (Hmode : m_inf_type graph_cut_model = GRAPH_CUT) by reflexivity.
  assert (Hinv : registry_inv graph_cut_model) by consistent_registry.
  assert (Hunary : supported unary_type) by (intros H; discriminate H).
  assert (Hsup : Forall supported (m_factor_types graph_cut_model)).
  { apply Forall_cons. split; [exact Hunary|].
    apply Forall_cons. split; [intros _; reflexivity|apply Forall_nil; exact I]. }
  assert (Hfts : m_factor_types graph_cut_model
                 = [unary_type] ++ pairwise_type :: []) by reflexivity.
  assert (H22 : is_pairwise_binary (get_cardinalities pairwise_type) = true)
    by reflexivity.
  assert (Hmode' : m_inf_type edge_feature_model = GRAPH_CUT) by reflexivity.
  assert (Hinv' : registry_inv edge_feature_model) by consistent_registry.
  assert (Hfts' : m_factor_types edge_feature_model
                  = [unary_type] ++ edge_feature_type :: []) by reflexivity.
  assert (Hsup' : Forall supported [unary_type]).
  { apply Forall_cons. split; [exact Hunary|apply Forall_nil; exact I]. }
  assert (H22' : is_pairwise_binary (get_cardinalities edge_feature_type) = true)
    by reflexivity.
  assert (Hne : get_w_dim edge_feature_type <> 4) by discriminate.
  assert (Htree : m_inf_type unary_model <> GRAPH_CUT) by discriminate.
  split; [exact Hmode|]. split; [exact Hinv|]. split; [exact Hsup|].
  split; [exact Hfts|]. split; [exact H22|].
  split.
  { destruct (proj1 init_primal_opt_spec _ graph_cut_model 2%float [] [])
      as (_ & HB & _).
    destruct (HB Hmode Hinv Hsup) as (r & Hr & _ & _ & _ & _ & Hslots).
    destruct (Hslots _ _ _ Hfts H22) as (_ & S).
    exists r. split; [exact Hr|exact S]. }
  split; [exact Hmode'|]. split; [exact Hinv'|]. split; [exact Hfts'|].
  split; [exact Hsup'|]. split; [exact H22'|]. split; [exact Hne|].
  split.
  { destruct (proj1 init_primal_opt_spec _ edge_feature_model 2%float [] [])
      as (_ & _ & HC & _).
    exact (HC _ _ _ Hmode' Hinv' Hfts' Hsup' H22' Hne). }
  split; [exact Htree|].
  destruct (proj1 init_primal_opt_spec _ unary_model 2%float [7%float] [])
    as (_ & _ & _ & HD).
  exact (HD Htree).
Defined.

(** Against C4 as worded: in the mode [TREE_MAX_PROD] the bounds that the
    caller passed come back untouched; they are not filled with
    [-inf] and [+inf]. *)
Lemma init_primal_opt_keeps_bounds :
  m_inf_type unary_model = TREE_MAX_PROD /\
  exists r,
    init_primal_opt 1%float [0%float] [0%float] unary_model = Ok r /\
    ~ Forall (fun x => x = neg_infinity) (opt_lb r) /\
    ~ Forall (fun x => x = infinity) (opt_ub r).
Proof.
  split; [reflexivity|]. eexists. split; [reflexivity|]. simpl.
  split; intros H; apply Forall_cons in H as [H _];
    apply (f_equal PrimFloat.classify) in H; vm_compute in H; discriminate H.
Qed.

(** ** The argmax *)

Section Argmax.

Context {FG : Type} `{!Collaborators FG}.
Implicit Types st : CFactorGraphModel FG.

(** *** Events of any run *)

Lemma appends_ret {A : Type} (P : event -> bool) (a : A) :
  appends P (ret a : method FG A).
Proof. intros st. exists []. simpl. now rewrite app_nil_r. Qed.

Lemma appends_pure {A : Type} (P : event -> bool)
    (f : CFactorGraphModel FG -> result A) :
  appends P (fun st => (f st, st)).
Proof. intros st. exists []. simpl. now rewrite app_nil_r. Qed.

Lemma appends_bind {A B : Type} (P : event -> bool)
    (m : method FG A) (k : A -> method FG B) :
  appends P m -> (forall a, appends P (k a)) -> appends P (bind m k).
Proof.
  intros Hm Hk st. unfold bind.
  destruct (Hm st) as (e1 & H1 & P1).
  destruct (m st) as [[a|e] st1]; simpl in H1.
  - destruct (Hk a st1) as (e2 & H2 & P2).
    exists (e1 ++ e2). rewrite H2, H1, <- app_assoc. split; [reflexivity|].
    rewrite forallb_app. now rewrite P1, P2.
  - exists e1. now split.
Qed.

Lemma appends_when (P : event -> bool) (c : bool) (m : method FG unit) :
  appends P m -> appends P (when c m).
Proof. intros Hm. destruct c; [exact Hm|apply appends_ret]. Qed.

Lemma appends_lift {A : Type} (P : event -> bool) (r : result A) :
  appends P (lift r : method FG A).
Proof. apply appends_pure. Qed.

Lemma appends_sg_print (P : event -> bool) (msg : message) :
  P (Printed msg) = true -> appends P (sg_print msg : method FG unit).
Proof.
  intros HP st. exists [Printed msg]. simpl. now rewrite HP.
Qed.

Lemma appends_get_sample (P : event -> bool) (feat_idx : Z) :
  appends P (get_sample feat_idx : method FG FG).
Proof. apply appends_pure. Qed.

Lemma appends_get_label (P : event -> bool) (feat_idx : Z) :
  appends P (get_label feat_idx : method FG _).
Proof. apply appends_pure. Qed.

Lemma appends_update_sample (P : event -> bool) (feat_idx : Z) (c : fg_call)
    (f : FG -> FG) :
  P (Called feat_idx c) = true -> appends P (update_sample feat_idx c f).
Proof.
  intros HP st. unfold update_sample.
  destruct (vget (m_features st) feat_idx).
  - exists [Called feat_idx c]. simpl. now rewrite HP.
  - exists []. simpl. now rewrite app_nil_r.
Qed.

Lemma appends_query_sample {A : Type} (P : event -> bool) (feat_idx : Z)
    (c : fg_call) (f : FG -> A) :
  P (Called feat_idx c) = true -> appends P (query_sample feat_idx c f).
Proof.
  intros HP st. unfold query_sample.
  destruct (vget (m_features st) feat_idx).
  - exists [Called feat_idx c]. simpl. now rewrite HP.
  - exists []. simpl. now rewrite app_nil_r.
Qed.

(** [w_to_fparams] prints at most its message and leaves the inherited
    members, the map, the mode and the flag alone. *)
Lemma w_to_fparams_frame (w : list float) st :
  let st1 := snd (w_to_fparams w st) in
  m_features st1 = m_features st /\ m_labels st1 = m_labels st /\
  m_verbose st1 = m_verbose st /\ m_inf_type st1 = m_inf_type st /\
  m_w_map st1 = m_w_map st /\
  exists evs, trace st1 = trace st ++ evs /\ forallb is_printed evs = true.
Proof.
  unfold w_to_fparams.
  destruct (equals (m_w_cache st) w).
  { simpl. repeat split. exists []. now rewrite app_nil_r. }
  assert (H : exists evs,
            trace (if m_verbose st then emit (Printed msg_update_w_cache) st
                   else st) = trace st ++ evs /\
            forallb is_printed evs = true).
  { destruct (m_verbose st); [exists [Printed msg_update_w_cache]|exists []];
      simpl; [|rewrite app_nil_r]; now split. }
  set (st0 := if m_verbose st then _ else st) in *.
  assert (E : m_features st0 = m_features st /\ m_labels st0 = m_labels st /\
              m_verbose st0 = m_verbose st /\ m_inf_type st0 = m_inf_type st /\
              m_w_map st0 = m_w_map st)
    by (unfold st0; destruct (m_verbose st) eqn:V; simpl; rewrite ?V;
        repeat split).
  destruct (negb (size w =? size (m_w_cache st0))); [simpl; tauto|].
  destruct (w_to_fparams_loop _ _ _ _) as [[offset fts]|]; [|simpl; tauto].
  destruct (offset =? _); simpl; tauto.
Qed.

Lemma appends_w_to_fparams (P : event -> bool) (w : list float) :
  (forall msg, P (Printed msg) = true) ->
  appends P (w_to_fparams w : method FG unit).
Proof.
  intros HP st.
  destruct (w_to_fparams_frame w st) as (_ & _ & _ & _ & _ & evs & H1 & H2).
  exists evs. split; [exact H1|].
  rewrite forallb_forall in *. intros e He. specialize (H2 e He).
  destruct e; [apply HP|discriminate].
Qed.

Lemma appends_get_joint_feature_vector (P : event -> bool) (feat_idx : Z)
    (y : CFactorGraphObservation) :
  P (Called feat_idx get_factors_call) = true ->
  appends P (get_joint_feature_vector feat_idx y).
Proof.
  intros HP. unfold get_joint_feature_vector.
  apply appends_bind; [apply appends_get_sample|]. intros _.
  apply appends_bind; [now apply appends_query_sample|]. intros facs st.
  exists []. rewrite app_nil_r.
  destruct (new_vector 0%float (get_dim st)); [|now split].
  destruct (accumulate_factors _ _ _ _); now split.
Qed.

Lemma appends_print_summary (P : event -> bool) w r ss sg e1 e2 :
  (forall msg, P (Printed msg) = true) ->
  appends P (print_summary w r ss sg e1 e2 : method FG unit).
Proof.
  intros HP. unfold print_summary.
  apply appends_bind; [apply appends_lift|]. intros dot_pred.
  apply appends_bind; [apply appends_lift|]. intros dot_truth.
  now apply appends_sg_print.
Qed.

(** Without training, no run of [argmax] asks for a loss augmentation. *)
Lemma argmax_prediction_no_loss_augmentation (w : list float) (feat_idx : Z) :
  appends (fun e => negb (is_loss_augmentation e)) (argmax w feat_idx false).
Proof.
  unfold argmax.
  repeat first
    [ apply appends_ret
    | apply appends_pure
    | apply appends_lift
    | apply appends_get_sample
    | apply appends_get_label
    | apply appends_when
    | apply appends_sg_print; reflexivity
    | apply appends_update_sample; reflexivity
    | apply appends_query_sample; reflexivity
    | apply appends_w_to_fparams; reflexivity
    | apply appends_get_joint_feature_vector; reflexivity
    | apply appends_print_summary; reflexivity
    | apply appends_bind; [|intros ?]
    | match goal with
      | |- appends _ (match ?x with TREE_MAX_PROD => _ | _ => _ end) => destruct x
      | |- appends _ (let '(_, _) := ?x in _) => destruct x
      end ].
Qed.

(** *** Runs that return *)

Lemma bind_ok {A B : Type} (m : method FG A) (k : A -> method FG B) st b st' :
  bind m k st = (Ok b, st') ->
  exists a st1, m st = (Ok a, st1) /\ k a st1 = (Ok b, st').
Proof.
  unfold bind. destruct (m st) as [[a|e] st1]; [eauto|discriminate].
Qed.

Lemma get_sample_ok (feat_idx : Z) st (fg : FG) st1 :
  get_sample feat_idx st = (Ok fg, st1) ->
  st1 = st /\ 0 <= feat_idx /\ m_features st !! Z.to_nat feat_idx = Some fg.
Proof.
  unfold get_sample. intros [= H ->]. apply vget_inv in H. tauto.
Qed.

Lemma get_label_ok (feat_idx : Z) st (y : CFactorGraphObservation) st1 :
  get_label feat_idx st = (Ok y, st1) ->
  st1 = st /\ m_labels st !! Z.to_nat feat_idx = Some y.
Proof.
  unfold get_label. intros [= H ->]. apply vget_inv in H. tauto.
Qed.

Lemma update_sample_ok (feat_idx : Z) (c : fg_call) (f : FG -> FG) st u st1 (fg : FG) :
  m_features st !! Z.to_nat feat_idx = Some fg ->
  update_sample feat_idx c f st = (Ok u, st1) ->
  st1 = emit (Called feat_idx c)
          (with_features (<[Z.to_nat feat_idx := f fg]> (m_features st)) st).
Proof.
  intros Hfg. unfold update_sample, vget.
  destruct (feat_idx <? 0); [discriminate|]. rewrite Hfg. now intros [= <-].
Qed.

Lemma query_sample_ok {A : Type} (feat_idx : Z) (c : fg_call) (f : FG -> A)
    st a st1 (fg : FG) :
  m_features st !! Z.to_nat feat_idx = Some fg ->
  query_sample feat_idx c f st = (Ok a, st1) ->
  a = f fg /\ st1 = emit (Called feat_idx c) st.
Proof.
  intros Hfg. unfold query_sample, vget.
  destruct (feat_idx <? 0); [discriminate|]. rewrite Hfg. now intros [= <- <-].
Qed.

Lemma get_joint_feature_vector_ok (feat_idx : Z) (y : CFactorGraphObservation)
    st psi st1 :
  get_joint_feature_vector feat_idx y st = (Ok psi, st1) ->
  st1 = emit (Called feat_idx get_factors_call) st.
Proof.
  intros H. pose proof H as H'. unfold get_joint_feature_vector in H'.
  apply bind_ok in H' as (fg & st0 & Hfg & _).
  apply get_sample_ok in Hfg as (_ & Hidx & Hfg).
  rewrite (get_joint_feature_vector_unfold _ _ _ _ Hidx Hfg) in H.
  now injection H.
Qed.

Lemma print_summary_ok w r ss sg e1 e2 st u st1 :
  print_summary w r ss sg e1 e2 st = (Ok u, st1) ->
  exists msg, st1 = emit (Printed msg) st.
Proof.
  unfold print_summary, bind, lift, sg_print.
  destruct (linalg_dot w (psi_pred r)); [|discriminate].
  destruct (linalg_dot w (psi_truth r)); [|discriminate].
  intros [= <-]. eauto.
Qed.

Lemma quiet_ret {A : Type} (P : event -> bool) (a : A) :
  quiet P (ret a : method FG A).
Proof.
  intros st a' st' [= <- <-]. repeat split. exists []. now rewrite app_nil_r.
Qed.

Lemma quiet_lift {A : Type} (P : event -> bool) (r : result A) :
  quiet P (lift r : method FG A).
Proof.
  intros st a' st' [= _ <-]. repeat split. exists []. now rewrite app_nil_r.
Qed.

Lemma quiet_bind {A B : Type} (P : event -> bool)
    (m : method FG A) (k : A -> method FG B) :
  quiet P m -> (forall a, quiet P (k a)) -> quiet P (bind m k).
Proof.
  intros Hm Hk st b st' H. apply bind_ok in H as (a & st1 & H1 & H2).
  destruct (Hm _ _ _ H1) as (F1 & L1 & V1 & I1 & T1 & e1 & E1 & P1).
  destruct (Hk _ _ _ _ H2) as (F2 & L2 & V2 & I2 & T2 & e2 & E2 & P2).
  repeat split; try congruence.
  exists (e1 ++ e2). rewrite E2, E1, <- app_assoc, forallb_app, P1, P2.
  now split.
Qed.

Lemma quiet_when (P : event -> bool) (c : bool) (m : method FG unit) :
  quiet P m -> quiet P (when c m).
Proof. intros Hm. destruct c; [exact Hm|apply quiet_ret]. Qed.

Lemma quiet_sg_print (P : event -> bool) (msg : message) :
  P (Printed msg) = true -> quiet P (sg_print msg : method FG unit).
Proof.
  intros HP st a st' [= _ <-]. repeat split.
  exists [Printed msg]. simpl. now rewrite HP.
Qed.

Lemma quiet_query_sample {A : Type} (P : event -> bool) (feat_idx : Z)
    (c : fg_call) (f : FG -> A) :
  P (Called feat_idx c) = true -> quiet P (query_sample feat_idx c f).
Proof.
  intros HP st a st'. unfold query_sample.
  destruct (vget (m_features st) feat_idx); [|discriminate].
  intros [= _ <-]. repeat split.
  exists [Called feat_idx c]. simpl. now rewrite HP.
Qed.

Lemma quiet_print_summary (P : event -> bool) w r ss sg e1 e2 :
  (forall msg, P (Printed msg) = true) ->
  quiet P (print_summary w r ss sg e1 e2 : method FG unit).
Proof.
  intros HP st a st' H. apply print_summary_ok in H as (msg & ->).
  repeat split. exists [Printed msg]. simpl. now rewrite HP.
Qed.

Section Stages.

Variable feat_idx : Z.
Variable st0 : CFactorGraphModel FG.

Lemma stage_update (c : fg_call) (f : FG -> FG) st u st' fg fts evs :
  at_stage feat_idx st0 st fg fts evs ->
  update_sample feat_idx c f st = (Ok u, st') ->
  at_stage feat_idx st0 st' (f fg) fts (evs ++ [Called feat_idx c]).
Proof.
  intros (F & T & E & L & V & I) H.
  apply (update_sample_ok _ _ _ _ _ _ _ F) in H as ->.
  repeat split; simpl; try assumption.
  - apply list_lookup_insert_eq. now apply lookup_lt_Some in F.
  - now rewrite E, <- app_assoc.
Qed.

Lemma stage_query {A : Type} (c : fg_call) (f : FG -> A) st a st' fg fts evs :
  at_stage feat_idx st0 st fg fts evs ->
  query_sample feat_idx c f st = (Ok a, st') ->
  a = f fg /\ at_stage feat_idx st0 st' fg fts (evs ++ [Called feat_idx c]).
Proof.
  intros (F & T & E & L & V & I) H.
  apply (query_sample_ok _ _ _ _ _ _ _ F) in H as [-> ->].
  repeat split; simpl; try assumption. now rewrite E, <- app_assoc.
Qed.

Lemma stage_joint_feature_vector (y : CFactorGraphObservation)
    st psi st' fg fts evs :
  at_stage feat_idx st0 st fg fts evs ->
  get_joint_feature_vector feat_idx y st = (Ok psi, st') ->
  at_stage feat_idx st0 st' fg fts (evs ++ [Called feat_idx get_factors_call]).
Proof.
  intros (F & T & E & L & V & I) H.
  apply get_joint_feature_vector_ok in H as ->.
  repeat split; simpl; try assumption. now rewrite E, <- app_assoc.
Qed.

Lemma stage_quiet {A : Type} (P : event -> bool) (m : method FG A)
    st a st' fg fts evs :
  quiet P m ->
  at_stage feat_idx st0 st fg fts evs ->
  m st = (Ok a, st') ->
  exists evs', at_stage feat_idx st0 st' fg fts (evs ++ evs') /\
               forallb P evs' = true.
Proof.
  intros Hq (F & T & E & L & V & I) H.
  destruct (Hq _ _ _ H) as (F1 & L1 & V1 & I1 & T1 & e1 & E1 & P1).
  exists e1. split; [|exact P1].
  repeat split; try congruence. now rewrite E1, E, <- app_assoc.
Qed.

Lemma stage_w_to_fparams (w : list float) st u st' fg fts evs :
  at_stage feat_idx st0 st fg fts evs ->
  w_to_fparams w st = (Ok u, st') ->
  exists evs', at_stage feat_idx st0 st' fg (m_factor_types st') (evs ++ evs') /\
               forallb is_printed evs' = true.
Proof.
  intros (F & T & E & L & V & I) H.
  pose proof (w_to_fparams_frame w st) as Hf. rewrite H in Hf. simpl in Hf.
  destruct Hf as (F1 & L1 & V1 & I1 & _ & e1 & E1 & P1).
  exists e1. split; [|exact P1].
  repeat split; try congruence. now rewrite E1, E, <- app_assoc.
Qed.

End Stages.

Lemma forallb_weaken (P Q : event -> bool) (evs : list event) :
  (forall e, P e = true -> Q e = true) ->
  forallb P evs = true -> forallb Q evs = true.
Proof.
  intros HPQ. rewrite !forallb_forall. intros H e He. apply HPQ, H, He.
Qed.

Lemma printed_is_plain (e : event) : is_printed e = true -> is_plain e = true.
Proof. now destruct e. Qed.

Lemma plain_no_loss_augmentation (e : event) :
  is_plain e = true -> negb (is_loss_augmentation e) = true.
Proof. unfold is_plain. now intros H%andb_true_iff. Qed.

Lemma filter_none (P : event -> bool) (evs : list event) :
  forallb (fun e => negb (P e)) evs = true -> List.filter P evs = [].
Proof.
  induction evs as [|e evs IH]; simpl; [reflexivity|].
  intros H. apply andb_true_iff in H as [He H].
  destruct (P e); [discriminate|]. now apply IH.
Qed.

Ltac next_step H a s Hm := apply bind_ok in H as (a & s & Hm & H).

Ltac quiet_block :=
  repeat first
    [ apply quiet_ret
    | apply quiet_lift
    | apply quiet_when
    | apply quiet_sg_print; reflexivity
    | apply quiet_query_sample; reflexivity
    | apply quiet_print_summary; reflexivity
    | apply quiet_bind; [|intros ?]
    | match goal with
      | |- quiet _ (match ?x with TREE_MAX_PROD => _ | _ => _ end) => destruct x
      end ].

(** The anatomy of a run of [argmax] that returns. *)
Lemma argmax_run (w : list float) (feat_idx : Z) (training : bool) st rs st' :
  argmax w feat_idx training st = (Ok rs, st') ->
  exists fg0 y_truth pre post,
    0 <= feat_idx /\
    m_features st !! Z.to_nat feat_idx = Some fg0 /\
    m_labels st !! Z.to_nat feat_idx = Some y_truth /\
    let fg1 := compute_energies (m_factor_types st') (connect_components fg0) in
    let fg2 := if training then loss_augmentation fg1 y_truth else fg1 in
    let fg3 := fst (map_inference (m_inf_type st) fg2) in
    let y_star := snd (map_inference (m_inf_type st) fg2) in
    rs_argmax rs = y_star /\
    score rs = (evaluate_energy fg1 (get_data y_truth)
                - evaluate_energy fg3 (get_data y_star))%float /\
    delta_loss y_truth y_star = Ok (delta rs) /\
    m_features st' !! Z.to_nat feat_idx = Some fg3 /\
    trace st'
    = trace st ++ pre
      ++ [Called feat_idx get_factors_call;
          Called feat_idx (evaluate_energy_call (get_data y_truth))]
      ++ (if training
          then [Called feat_idx (loss_augmentation_call y_truth)] else [])
      ++ post /\
    forallb is_plain pre = true /\
    forallb (fun e => negb (is_loss_augmentation e)) post = true /\
    existsb is_inference post = true.
Proof.
  intros H. unfold argmax in H.
  next_step H fg0 s H1. apply get_sample_ok in H1 as (-> & Hidx & Hfg0).
  assert (S : at_stage feat_idx st st fg0 (m_factor_types st) []).
  { repeat split; [assumption|now rewrite app_nil_r]. }
  (* connect_components *)
  next_step H u1 s1 H1. apply (stage_update _ _ _ _ _ _ _ _ _ _ S) in H1.
  clear S. rename H1 into S.
  (* the tree requirement *)
  next_step H inf_type s2 H1. injection H1 as <- <-.
  pose proof S as (_ & _ & _ & _ & _ & Hinf). rewrite Hinf in H.
  next_step H u2 s2 H1.
  eapply (stage_quiet _ _ is_plain) in H1 as (e_tree & S1 & P_tree);
    [|quiet_block|exact S].
  clear S. rename S1 into S.
  (* verbose *)
  next_step H verbose s3 H1. injection H1 as <- <-.
  pose proof S as (_ & _ & _ & _ & Hverbose & _). rewrite Hverbose in H.
  next_step H u3 s3 H1.
  eapply (stage_quiet _ _ is_plain) in H1 as (e_ex & S1 & P_ex);
    [|quiet_block|exact S].
  clear S. rename S1 into S.
  (* w_to_fparams, compute_energies *)
  next_step H u4 s4 H1.
  apply (stage_w_to_fparams _ _ _ _ _ _ _ _ _ S) in H1 as (e_w & S1 & P_w).
  clear S. rename S1 into S.
  apply (forallb_weaken _ is_plain _ printed_is_plain) in P_w.
  next_step H fts s5 H1. injection H1 as <- <-.
  next_step H u5 s5 H1. apply (stage_update _ _ _ _ _ _ _ _ _ _ S) in H1.
  clear S. rename H1 into S.
  next_step H u6 s6 H1.
  eapply (stage_quiet _ _ is_plain) in H1 as (e_before & S1 & P_before);
    [|quiet_block|exact S].
  clear S. rename S1 into S.
  (* y_truth *)
  next_step H y_truth s7 H1. apply get_label_ok in H1 as (-> & Hlabel).
  pose proof S as (_ & _ & _ & Hlabels & _).
  rewrite Hlabels in Hlabel.
  match type of S with
  | at_stage _ _ _ _ _ ?evs => remember evs as pre eqn:Hpre
  end.
  assert (Ppre : forallb is_plain pre = true).
  { rewrite Hpre, !forallb_app, P_tree, P_ex, P_w, P_before. reflexivity. }
  clear Hpre P_tree P_ex P_w P_before.
  (* psi_truth and the energy of the truth *)
  next_step H psi_truth_v s8 H1.
  apply (stage_joint_feature_vector _ _ _ _ _ _ _ _ _ S) in H1.
  clear S. rename H1 into S.
  next_step H energy_gt s9 H1.
  apply (stage_query _ _ _ _ _ _ _ _ _ _ S) in H1 as (-> & S1).
  clear S. rename S1 into S.
  set (fg1 := compute_energies (m_factor_types s4) (connect_components fg0)) in *.
  (* loss augmentation *)
  next_step H u7 s10 H1.
  assert (exists e_after,
            at_stage feat_idx st s10
              (if training then loss_augmentation fg1 y_truth else fg1)
              (m_factor_types s4)
              (((pre ++ [Called feat_idx get_factors_call])
                ++ [Called feat_idx (evaluate_energy_call (get_data y_truth))])
               ++ (if training
                   then [Called feat_idx (loss_augmentation_call y_truth)]
                   else [])
               ++ e_after) /\
            forallb is_plain e_after = true) as (e_after & S1 & P_after).
  { destruct training; simpl in H1.
    - next_step H1 u8 s11 H2.
      apply (stage_update _ _ _ _ _ _ _ _ _ _ S) in H2.
      eapply (stage_quiet _ _ is_plain) in H1 as (e_after & S1 & P_after);
        [|quiet_block|exact H2].
      exists e_after. split; [|exact P_after].
      now rewrite <- !app_assoc in *.
    - injection H1 as _ <-. exists []. split; [|reflexivity].
      now rewrite !app_nil_r. }
  clear S H1. rename S1 into S.
  set (fg2 := if training then loss_augmentation fg1 y_truth else fg1) in *.
  (* inference *)
  next_step H fg2' s11 H1. apply get_sample_ok in H1 as (-> & _ & Hfg2).
  pose proof S as (Hfg2'' & _). rewrite Hfg2'' in Hfg2. injection Hfg2 as <-.
  destruct (map_inference (m_inf_type st) fg2) as [fg3 y_star] eqn:Hmap.
  next_step H u9 s12 H1. apply (stage_update _ _ _ _ _ _ _ _ _ _ S) in H1.
  clear S. rename H1 into S.
  next_step H u10 s13 H1.
  apply (stage_query _ _ _ _ _ _ _ _ _ _ S) in H1 as (_ & S1).
  clear S. rename S1 into S.
  next_step H psi_pred_v s14 H1.
  apply (stage_joint_feature_vector _ _ _ _ _ _ _ _ _ S) in H1.
  clear S. rename H1 into S.
  next_step H l_energy_pred s15 H1.
  apply (stage_query _ _ _ _ _ _ _ _ _ _ S) in H1 as (-> & S1).
  clear S. rename S1 into S.
  next_step H delta_v s16 H1. injection H1 as Hdelta <-.
  next_step H u11 s17 H1.
  eapply (stage_quiet _ _ is_plain) in H1 as (e_sum & S1 & P_sum);
    [|quiet_block|exact S].
  clear S. rename S1 into S.
  injection H as <- <-.
  destruct S as (Hfg3 & Hfts' & Htrace & _).
  exists fg0, y_truth, pre.
  exists (e_after
          ++ [Called feat_idx (inference_call (m_inf_type st));
              Called feat_idx get_structured_outputs_call;
              Called feat_idx get_factors_call;
              Called feat_idx (evaluate_energy_call (get_data y_star))]
          ++ e_sum).
  split; [assumption|]. split; [assumption|]. split; [assumption|].
  cbv zeta. rewrite Hfts'. fold fg1. fold fg2. rewrite Hmap. cbn [fst snd].
  cbn [rs_argmax score delta].
  split; [reflexivity|]. split; [reflexivity|]. split; [assumption|].
  split; [assumption|]. split.
  { rewrite Htrace. f_equal. now rewrite <- !app_assoc. }
  split; [assumption|]. split.
  - rewrite !forallb_app.
    rewrite (forallb_weaken _ _ _ plain_no_loss_augmentation P_after).
    rewrite (forallb_weaken _ _ _ plain_no_loss_augmentation P_sum).
    reflexivity.
  - rewrite existsb_app. simpl. now rewrite orb_true_r.
Qed.

End Argmax.

(** C8.  With [training = false] no run of [argmax], returning or failing,
    asks the structure instance for a loss augmentation.  With
    [training = true] a run that returns asks for it exactly once, with the
    ground-truth label: right after the factors were read for [psi_truth]
    and the energy of the truth was evaluated, and before the inference,
    which happens in what follows. *)
Theorem argmax_loss_augmentation_order :
  forall (FG : Type) (C : Collaborators FG) (w : list float) (feat_idx : Z)
         (st : CFactorGraphModel FG),
    (exists evs,
       trace (snd (argmax w feat_idx false st)) = trace st ++ evs /\
       forallb (fun e => negb (is_loss_augmentation e)) evs = true) /\
    (forall rs st',
       argmax w feat_idx true st = (Ok rs, st') ->
       exists y_truth pre post,
         m_labels st !! Z.to_nat feat_idx = Some y_truth /\
         trace st'
         = trace st
           ++ (pre ++ [Called feat_idx get_factors_call;
                       Called feat_idx (evaluate_energy_call (get_data y_truth))])
           ++ [Called feat_idx (loss_augmentation_call y_truth)]
           ++ post /\
         forallb is_plain pre = true /\
         forallb (fun e => negb (is_loss_augmentation e)) post = true /\
         existsb is_inference post = true /\
         length (List.filter is_loss_augmentation
                   ((pre ++ [Called feat_idx get_factors_call;
                             Called feat_idx
                               (evaluate_energy_call (get_data y_truth))])
                    ++ [Called feat_idx (loss_augmentation_call y_truth)]
                    ++ post)) = 1%nat).
Proof.
  intros FG C w feat_idx st. split.
  - apply argmax_prediction_no_loss_augmentation.
  - intros rs st' H.
    destruct (argmax_run w feat_idx true st rs st' H)
      as (fg0 & y_truth & pre & post & _ & _ & Hy & _ & _ & _ & _ & Ht
          & Ppre & Ppost & Pinf).
    exists y_truth, pre, post. split; [exact Hy|].
    split; [rewrite Ht; now rewrite <- !app_assoc|].
    split; [exact Ppre|]. split; [exact Ppost|]. split; [exact Pinf|].
    rewrite !List.filter_app.
    rewrite (filter_none is_loss_augmentation pre)
      by exact (forallb_weaken _ _ _ plain_no_loss_augmentation Ppre).
    now rewrite (filter_none is_loss_augmentation post) by exact Ppost.
Qed.

Lemma argmax_loss_augmentation_order_witness :
  argmax half_weights 0 true unary_model
  = (Ok unary_result_training, snd (argmax half_weights 0 true unary_model)) /\
  exists pre post,
    trace (snd (argmax half_weights 0 true unary_model))
    = trace unary_model
      ++ (pre ++ [Called 0 get_factors_call;
                  Called 0 (evaluate_energy_call (get_data label_0))])
      ++ [Called 0 (loss_augmentation_call label_0)]
      ++ post /\
    forallb is_plain pre = true /\
    forallb (fun e => negb (is_loss_augmentation e)) post = true /\
    existsb is_inference post = true.
Proof.
  assert (H : argmax half_weights 0 true unary_model
              = (Ok unary_result_training,
                 snd (argmax half_weights 0 true unary_model)))
    by (vm_compute; reflexivity).
  split; [exact H|].
  destruct (proj2 (argmax_loss_augmentation_order table_graph _ half_weights 0
                     unary_model) _ _ H)
    as (y_truth & pre & post & Hy & Ht & P1 & P2 & P3 & _).
  assert (Ey : y_truth = label_0).
  { change (Some label_0 = Some y_truth) in Hy. now injection Hy. }
  rewrite Ey in Ht. exists pre, post. split; [exact Ht|].
  split; [exact P1|]. split; [exact P2|exact P3].
Defined.

(** C2, as the code has it.  When [argmax(w, feat_idx, training)] returns,
    its score
    is the energy of the ground truth, evaluated after [compute_energies],
    minus the energy of [y_star], evaluated after the optional loss
    augmentation and the inference; its delta is
    [delta_loss(y_truth, y_star)]; its argmax is [y_star].  With training,
    when the augmented energy of [y_star] is [E(y_star) - loss], the score is
    [E(y_truth) - (E(y_star) - loss)]; without training, when the inference
    leaves the energy of [y_star] alone, the score is
    [E(y_truth) - E(y_star)] and carries no loss term. *)
Theorem argmax_score :
  forall (FG : Type) (C : Collaborators FG) (w : list float) (feat_idx : Z)
         (training : bool) (st : CFactorGraphModel FG) (rs : CResultSet)
         (st' : CFactorGraphModel FG),
    argmax w feat_idx training st = (Ok rs, st') ->
    exists fg0 y_truth,
      m_features st !! Z.to_nat feat_idx = Some fg0 /\
      m_labels st !! Z.to_nat feat_idx = Some y_truth /\
      let fg1 := compute_energies (m_factor_types st') (connect_components fg0) in
      let fg2 := if training then loss_augmentation fg1 y_truth else fg1 in
      let fg3 := fst (map_inference (m_inf_type st) fg2) in
      let y_star := snd (map_inference (m_inf_type st) fg2) in
      rs_argmax rs = y_star /\
      score rs = (evaluate_energy fg1 (get_data y_truth)
                  - evaluate_energy fg3 (get_data y_star))%float /\
      delta_loss y_truth y_star = Ok (delta rs) /\
      (training = true ->
       evaluate_energy fg3 (get_data y_star)
       = (evaluate_energy fg1 (get_data y_star) - delta rs)%float ->
       score rs = (evaluate_energy fg1 (get_data y_truth)
                   - (evaluate_energy fg1 (get_data y_star) - delta rs))%float) /\
      (training = false ->
       evaluate_energy fg3 (get_data y_star)
       = evaluate_energy fg1 (get_data y_star) ->
       score rs = (evaluate_energy fg1 (get_data y_truth)
                   - evaluate_energy fg1 (get_data y_star))%float).
Proof.
  intros FG C w feat_idx training st rs st' H.
  destruct (argmax_run w feat_idx training st rs st' H)
    as (fg0 & y_truth & pre & post & _ & Hfg & Hy & R).
  exists fg0, y_truth. split; [exact Hfg|]. split; [exact Hy|].
  cbv zeta in *. destruct R as (Ha & Hs & Hd & _).
  split; [exact Ha|]. split; [exact Hs|]. split; [exact Hd|].
  split; intros _ HE; rewrite Hs, HE; reflexivity.
Qed.

Lemma argmax_score_witness :
  argmax half_weights 0 true unary_model
  = (Ok unary_result_training, snd (argmax half_weights 0 true unary_model)) /\
  compute_energies
    (m_factor_types (snd (argmax half_weights 0 true unary_model)))
    (connect_components unary_graph)
  = unary_graph_energies /\
  score unary_result_training
  = (evaluate_energy unary_graph_energies (get_data label_0)
     - (evaluate_energy unary_graph_energies (get_data label_1)
        - delta unary_result_training))%float /\
  delta_loss label_0 label_1 = Ok (delta unary_result_training).
Proof.
  assert (H : argmax half_weights 0 true unary_model
              = (Ok unary_result_training,
                 snd (argmax half_weights 0 true unary_model)))
    by (vm_compute; reflexivity).
  assert (Hfg1 : compute_energies
                   (m_factor_types
                      (snd (argmax half_weights 0 true unary_model)))
                   (connect_components unary_graph)
                 = unary_graph_energies)
    by (vm_compute; reflexivity).
  split; [exact H|]. split; [exact Hfg1|].
  destruct (argmax_score table_graph _ half_weights 0 true unary_model _ _ H)
    as (fg0 & y_truth & Hfg & Hy & R).
  assert (Efg : fg0 = unary_graph).
  { change (Some unary_graph = Some fg0) in Hfg. now injection Hfg. }
  assert (Ey : y_truth = label_0).
  { change (Some label_0 = Some y_truth) in Hy. now injection Hy. }
  cbv zeta in R. rewrite Efg, Ey, Hfg1 in R.
  destruct R as (_ & _ & Hd & Ht & _).
  split; [exact (Ht eq_refl eq_refl)|exact Hd].
Defined.

(** Against C2 as worded: with the weights [[0.5, 0.5, 0, 0]] and without
    training, the energies computed from the weights are [1] for the truth
    and [0] for [y_star], in step with [<w, psi_truth> = -1]; the score is
    [E(y_truth) - E(y_star) = 1 - 0], while the max-oracle value
    [(loss - E(y_star)) + E(y_truth)] is [(1 - 0) + 1]. *)
Lemma argmax_score_without_training :
  exists rs st',
    argmax half_weights 0 false unary_model = (Ok rs, st') /\
    let fg1 :=
      compute_energies (m_factor_types st') (connect_components unary_graph) in
    evaluate_energy fg1 (get_data label_0) = 1%float /\
    evaluate_energy fg1 (get_data (rs_argmax rs)) = 0%float /\
    linalg_dot half_weights (psi_truth rs)
    = Ok (PrimFloat.opp (evaluate_energy fg1 (get_data label_0))) /\
    delta rs = 1%float /\
    score rs = 1%float /\
    score rs
    <> ((delta rs - evaluate_energy fg1 (get_data (rs_argmax rs)))
        + evaluate_energy fg1 (get_data label_0))%float.
Proof.
  exists unary_result_prediction. eexists.
  split; [vm_compute; reflexivity|]. cbv zeta.
  do 5 (split; [vm_compute; reflexivity|]).
  intros H. apply (f_equal (fun x => PrimFloat.eqb x 1%float)) in H.
  vm_compute in H. discriminate H.
Qed.

(* ================================================================= *)
(** * Part III: further properties of the code *)
(* ================================================================= *)

(** ** The registry and the parameter map *)

Lemma size_blocks_sum (fts : list CFactorType) :
  Forall wf_type fts -> size (blocks fts) = sum_w_dim fts.
Proof.
  induction 1 as [|ft fts [Hpos _] _ IH]; [reflexivity|].
  change (blocks (ft :: fts)) with (block ft ++ blocks fts).
  rewrite size_app, size_block, IH by lia. reflexivity.
Qed.

Lemma find_from_sound (l : list Z) (e : Z) :
  forall (i slot : Z),
    slot ∈ find_from i l e -> l !! Z.to_nat (slot - i) = Some e.
Proof.
  induction l as [|y l IH]; intros i slot Hs; simpl in Hs.
  - inversion Hs.
  - destruct (Z.eqb_spec y e) as [->|Hne].
    + apply elem_of_cons in Hs as [->|Hs].
      * now rewrite Z.sub_diag.
      * pose proof (find_from_bounds _ _ _ _ Hs). apply IH in Hs.
        replace (Z.to_nat (slot - i)) with (S (Z.to_nat (slot - (i + 1))))
          by lia.
        exact Hs.
    + pose proof (find_from_bounds _ _ _ _ Hs). apply IH in Hs.
      replace (Z.to_nat (slot - i)) with (S (Z.to_nat (slot - (i + 1))))
        by lia.
      exact Hs.
Qed.

Lemma find_from_complete (l : list Z) (e : Z) :
  forall (i : Z) (k : nat),
    l !! k = Some e -> (i + Z.of_nat k) ∈ find_from i l e.
Proof.
  induction l as [|y l IH]; intros i k Hk; [discriminate|].
  destruct k as [|k]; simpl in Hk.
  - injection Hk as ->. simpl. rewrite Z.eqb_refl, Z.add_0_r. left.
  - simpl. specialize (IH (i + 1) k Hk).
    replace (i + Z.of_nat (S k)) with (i + 1 + Z.of_nat k) by lia.
    destruct (y =? e); [right|]; exact IH.
Qed.

Lemma find_from_increasing (l : list Z) (e : Z) :
  forall (i : Z) (k k' : nat) (a b : Z),
    (k < k')%nat ->
    find_from i l e !! k = Some a -> find_from i l e !! k' = Some b -> a < b.
Proof.
  induction l as [|y l IH]; intros i k k' a b Hlt Ha Hb; [discriminate|].
  simpl in Ha, Hb. destruct (y =? e).
  - destruct k' as [|k']; [lia|]. simpl in Hb.
    destruct k as [|k]; simpl in Ha.
    + injection Ha as <-. apply list_elem_of_lookup_2, find_from_bounds in Hb. lia.
    + apply (IH (i + 1) k k'); [lia|assumption|assumption].
  - now apply (IH (i + 1) k k').
Qed.

Section Slots.

Context {FG : Type}.
Implicit Types st : CFactorGraphModel FG.

(** X1.  In every state that calls which return can reach from a fresh
    model, the registered ids are distinct, [dimension()] is the sum of the
    [w_dim] of the registered types, every id in the parameter map is a
    registered id, and every registered type has a positive [w_dim] and
    exactly [w_dim] slots. *)
Theorem reachable_dimension st :
  reachable st ->
  NoDup (map get_type_id (m_factor_types st)) /\
  get_dim st = sum_w_dim (m_factor_types st) /\
  (forall id, id ∈ m_w_map st -> id ∈ map get_type_id (m_factor_types st)) /\
  (forall ft, ft ∈ m_factor_types st ->
     0 < get_w_dim ft /\
     size (get_params_mapping st (get_type_id ft)) = get_w_dim ft).
Proof.
  intros Hr. destruct (reachable_consistent st Hr) as (Hnd & Hwf & Hmap).
  split; [exact Hnd|]. split; [|split].
  - unfold get_dim. rewrite Hmap. now apply size_blocks_sum.
  - intros id. rewrite Hmap. apply elem_of_blocks.
  - intros ft Hin. apply list_elem_of_In, in_split in Hin as (pre & post & Hfts).
    assert (Hft : wf_type ft).
    { rewrite Forall_forall in Hwf. apply Hwf. rewrite Hfts.
      apply list_elem_of_In, in_elt. }
    destruct Hft as [Hpos _]. split; [exact Hpos|].
    unfold get_params_mapping. rewrite Hmap, Hfts in *.
    rewrite find_blocks by (assumption || lia).
    unfold size. rewrite length_seqZ. lia.
Qed.

(** X2.  [get_params_mapping(id)] returns, in increasing order, exactly the
    indices at which the parameter map holds [id]: every slot is below
    [dimension()], and an index is a slot if and only if the map holds [id]
    there.  On a consistent registry the slots of a registered type are the
    [w_dim] consecutive indices that start at the number of weights of the
    types registered before it; an id that is not registered has no
    slots. *)
Theorem get_params_mapping_slots st (ftype_id : Z) :
  (forall slot, slot ∈ get_params_mapping st ftype_id <->
                0 <= slot /\ m_w_map st !! Z.to_nat slot = Some ftype_id) /\
  (forall slot, slot ∈ get_params_mapping st ftype_id ->
                0 <= slot < get_dim st) /\
  (forall (k k' : nat) a b, (k < k')%nat ->
     get_params_mapping st ftype_id !! k = Some a ->
     get_params_mapping st ftype_id !! k' = Some b -> a < b) /\
  (registry_inv st ->
   (forall pre ft post,
      m_factor_types st = pre ++ ft :: post ->
      get_type_id ft = ftype_id ->
      get_params_mapping st ftype_id = seqZ (sum_w_dim pre) (get_w_dim ft)) /\
   (ftype_id ∉ map get_type_id (m_factor_types st) ->
      get_params_mapping st ftype_id = [])).
Proof.
  unfold get_params_mapping, find, get_dim. split; [|split; [|split]].
  - intros slot. split.
    + intros Hs. pose proof (find_from_bounds _ _ _ _ Hs).
      apply find_from_sound in Hs. rewrite Z.sub_0_r in Hs. split; [lia|exact Hs].
    + intros [H0 Hs]. apply (find_from_complete _ _ 0) in Hs.
      now replace (0 + Z.of_nat (Z.to_nat slot)) with slot in Hs by lia.
  - intros slot Hs. apply find_from_bounds in Hs. lia.
  - apply find_from_increasing.
  - intros (Hnd & Hwf & Hmap). split.
    + intros pre ft post Hfts <-. rewrite Hmap, Hfts in *.
      apply Forall_app in Hwf as [Hpre Hft].
      apply Forall_cons in Hft as [[Hpos _] _].
      pose proof (find_blocks pre post ft Hnd ltac:(lia)) as H.
      unfold find in H. rewrite H. f_equal. now apply size_blocks_sum.
    + intros Hnin. rewrite Hmap. apply find_from_absent.
      intros Hin. apply Hnin, elem_of_blocks, Hin.
Qed.

End Slots.

Lemma reachable_dimension_witness :
  reachable model_AB /\
  get_dim model_AB = 5 /\
  size (get_params_mapping model_AB (get_type_id type_B)) = 3.
Proof.
  assert (Hr : reachable model_AB).
  { apply (reach_add type_B model_A); [|reflexivity|reflexivity].
    apply (reach_add type_A empty_model); [apply reach_new| |]; reflexivity. }
  split; [exact Hr|].
  destruct (reachable_dimension model_AB Hr) as (_ & Hdim & _ & Hslots).
  split; [exact Hdim|].
  apply (Hslots type_B). right. left.
Defined.

Lemma get_params_mapping_slots_witness :
  registry_inv model_AB /\
  m_factor_types model_AB = [type_A] ++ type_B :: [] /\
  get_params_mapping model_AB 2 = [2; 3; 4] /\
  (7 ∉ map get_type_id (m_factor_types model_AB)) /\
  get_params_mapping model_AB 7 = [].
Proof.
  assert (Hinv : registry_inv model_AB) by consistent_registry.
  assert (Hfts : m_factor_types model_AB = [type_A] ++ type_B :: [])
    by reflexivity.
  assert (H7 : 7 ∉ map get_type_id (m_factor_types model_AB))
    by (vm_compute; absent_id).
  split; [exact Hinv|]. split; [exact Hfts|].
  destruct (get_params_mapping_slots model_AB 2) as (_ & _ & _ & H2).
  destruct (H2 Hinv) as [Hreg _].
  split; [exact (Hreg [type_A] type_B [] Hfts eq_refl)|].
  split; [exact H7|].
  destruct (get_params_mapping_slots model_AB 7) as (_ & _ & _ & H7').
  exact (proj2 (H7' Hinv) H7).
Defined.

(** ** Looking factor types up *)

Lemma lookup_factor_type_absent (fts : list CFactorType) (id : Z) :
  id ∉ map get_type_id fts -> lookup_factor_type fts id = None.
Proof.
  induction fts as [|ft fts IH]; intros Hnin; [reflexivity|].
  simpl in *. apply not_elem_of_cons in Hnin as [Hne Hnin].
  destruct (Z.eqb_spec id (get_type_id ft)); [congruence|]. now apply IH.
Qed.

Lemma lookup_factor_type_first (pre post : list CFactorType)
    (ft : CFactorType) :
  get_type_id ft ∉ map get_type_id pre ->
  lookup_factor_type (pre ++ ft :: post) (get_type_id ft) = Some ft.
Proof.
  induction pre as [|p pre IH]; intros Hnin; simpl.
  - now rewrite Z.eqb_refl.
  - simpl in Hnin. apply not_elem_of_cons in Hnin as [Hne Hnin].
    destruct (Z.eqb_spec (get_type_id ft) (get_type_id p)); [congruence|].
    now apply IH.
Qed.

Lemma lookup_factor_type_sound (fts : list CFactorType) (id : Z)
    (ft : CFactorType) :
  lookup_factor_type fts id = Some ft -> ft ∈ fts /\ get_type_id ft = id.
Proof.
  induction fts as [|p fts IH]; [discriminate|]. simpl.
  destruct (Z.eqb_spec id (get_type_id p)) as [->|Hne].
  - intros [= ->]. split; [left|reflexivity].
  - intros H. destruct (IH H) as [Hin Hid]. split; [now right|exact Hid].
Qed.

Lemma lookup_delete_first_other (fts : list CFactorType) (id id' : Z) :
  id' <> id ->
  lookup_factor_type (snd (delete_first fts id)) id'
  = lookup_factor_type fts id'.
Proof.
  intros Hne. induction fts as [|p fts IH]; [reflexivity|]. simpl.
  destruct (Z.eqb_spec id (get_type_id p)) as [->|Hp].
  - simpl. now destruct (Z.eqb_spec id' (get_type_id p)).
  - destruct (delete_first fts id) as [w_dim rest]. simpl in *.
    now rewrite IH.
Qed.

Lemma lookup_delete_first_same (fts : list CFactorType) (id : Z) :
  NoDup (map get_type_id fts) ->
  lookup_factor_type (snd (delete_first fts id)) id = None.
Proof.
  induction fts as [|p fts IH]; intros Hnd; [reflexivity|]. simpl in *.
  apply NoDup_cons in Hnd as [Hp Hnd].
  destruct (Z.eqb_spec id (get_type_id p)) as [->|Hne].
  - simpl. now apply lookup_factor_type_absent.
  - destruct (delete_first fts id) as [w_dim rest] eqn:E. simpl in *.
    destruct (Z.eqb_spec id (get_type_id p)); [congruence|]. now apply IH.
Qed.

Section Lookup.

Context {FG : Type}.
Implicit Types st : CFactorGraphModel FG.

(** What a call of [add_factor_type] that returns leaves in the registry,
    and what [del_factor_type] leaves in it, whatever the state. *)
Lemma add_factor_type_registry (ftype : CFactorType) st st' :
  add_factor_type ftype st = (Ok tt, st') ->
  m_factor_types st'
  = if has_type_id (m_factor_types st) (get_type_id ftype)
    then m_factor_types st else m_factor_types st ++ [ftype].
Proof.
  unfold add_factor_type.
  destruct (negb (get_w_dim ftype >? 0)); [discriminate|].
  destruct (has_type_id _ _); [now intros [= <-]|].
  destruct (extend_w_map _ _ _) as [w_map|]; [|discriminate].
  unfold fparams_to_w.
  match goal with
  | |- context [match ?r with Ok _ => _ | Err _ => _ end] => destruct r
  end; [|discriminate].
  intros [= <-]. cbn [m_verbose with_w_cache with_factor_types with_w_map].
  now destruct (m_verbose st).
Qed.

Lemma del_factor_type_registry (ftype_id : Z) st :
  m_factor_types (snd (del_factor_type ftype_id st))
  = snd (delete_first (m_factor_types st) ftype_id).
Proof.
  unfold del_factor_type.
  destruct (delete_first (m_factor_types st) ftype_id) as [w_dim fts].
  destruct (w_dim =? 0); [reflexivity|].
  match goal with
  | |- context [match ?r with Ok _ => _ | Err _ => _ end] => destruct r
  end; reflexivity.
Qed.

(** X3.  [get_factor_type(id)] returns the first registered type with this
    id, and NULL when there is none.  After a call of [add_factor_type] that
    returns, looking the id of the argument up gives the type that was
    registered under this id before, when there was one (the argument is
    then ignored), and the argument otherwise.  After [del_factor_type(id)],
    whatever its outcome, the types with other ids are found as before, and
    when the registered ids were distinct [id] is not found any more. *)
Theorem get_factor_type_lookup st (ftype_id : Z) :
  (ftype_id ∉ map get_type_id (m_factor_types st) ->
     get_factor_type_by_id st ftype_id = None) /\
  (forall pre ft post,
     m_factor_types st = pre ++ ft :: post ->
     get_type_id ft = ftype_id ->
     ftype_id ∉ map get_type_id pre ->
     get_factor_type_by_id st ftype_id = Some ft) /\
  (forall ft, get_factor_type_by_id st ftype_id = Some ft ->
     ft ∈ m_factor_types st /\ get_type_id ft = ftype_id) /\
  (forall ftype st',
     get_type_id ftype = ftype_id ->
     add_factor_type ftype st = (Ok tt, st') ->
     get_factor_type_by_id st' ftype_id
     = match get_factor_type_by_id st ftype_id with
       | Some registered => Some registered
       | None => Some ftype
       end) /\
  (forall id', id' <> ftype_id ->
     get_factor_type_by_id (snd (del_factor_type ftype_id st)) id'
     = get_factor_type_by_id st id') /\
  (NoDup (map get_type_id (m_factor_types st)) ->
     get_factor_type_by_id (snd (del_factor_type ftype_id st)) ftype_id = None).
Proof.
  unfold get_factor_type_by_id. repeat split.
  - apply lookup_factor_type_absent.
  - intros pre ft post -> <- Hpre. now apply lookup_factor_type_first.
  - now apply lookup_factor_type_sound in H.
  - now apply lookup_factor_type_sound in H.
  - intros ftype st' <- H. rewrite (add_factor_type_registry _ _ _ H).
    destruct (has_type_id (m_factor_types st) (get_type_id ftype)) eqn:Hdup.
    + apply has_type_id_true, list_elem_of_In, in_map_iff in Hdup
        as (ft & Hid & Hin).
      destruct (lookup_factor_type (m_factor_types st) (get_type_id ftype))
        eqn:E; [reflexivity|].
      exfalso. clear -Hid Hin E.
      induction (m_factor_types st) as [|p fts IH]; [destruct Hin|].
      simpl in E. destruct (Z.eqb_spec (get_type_id ftype) (get_type_id p));
        [discriminate|].
      destruct Hin as [->|Hin]; [congruence|]. now apply IH.
    + apply has_type_id_false in Hdup.
      rewrite (lookup_factor_type_absent _ _ Hdup).
      rewrite <- (app_nil_r (m_factor_types st ++ [ftype])), <- app_assoc.
      now apply lookup_factor_type_first.
  - intros id' Hne. rewrite del_factor_type_registry.
    now apply lookup_delete_first_other.
  - intros Hnd. rewrite del_factor_type_registry.
    now apply lookup_delete_first_same.
Qed.

End Lookup.

Lemma get_factor_type_lookup_witness :
  (7 ∉ map get_type_id (m_factor_types model_AB)) /\
  get_factor_type_by_id model_AB 7 = None /\
  get_factor_type_by_id model_AB 2 = Some type_B /\
  add_factor_type
    {| get_type_id := 2; get_w := [9%float]; get_w_dim := 1;
       get_cardinalities := [1] |} model_AB
  = (Ok tt, emit (Printed (msg_already_added 2)) model_AB) /\
  get_factor_type_by_id (emit (Printed (msg_already_added 2)) model_AB) 2
  = Some type_B /\
  NoDup (map get_type_id (m_factor_types model_AB)) /\
  get_factor_type_by_id (snd (del_factor_type 2 model_AB)) 2 = None /\
  get_factor_type_by_id (snd (del_factor_type 2 model_AB)) 1 = Some type_A.
Proof.
  assert (H7 : 7 ∉ map get_type_id (m_factor_types model_AB))
    by (vm_compute; absent_id).
  assert (Hnd : NoDup (map get_type_id (m_factor_types model_AB)))
    by distinct_ids.
  assert (Hadd : add_factor_type
                   {| get_type_id := 2; get_w := [9%float]; get_w_dim := 1;
                      get_cardinalities := [1] |} model_AB
                 = (Ok tt, emit (Printed (msg_already_added 2)) model_AB))
    by reflexivity.
  destruct (get_factor_type_lookup model_AB 7) as (N7 & _).
  destruct (get_factor_type_lookup model_AB 2) as (_ & F2 & _ & A2 & _ & D2).
  destruct (get_factor_type_lookup model_AB 2) as (_ & _ & _ & _ & O2 & _).
  split; [exact H7|]. split; [exact (N7 H7)|].
  assert (HB : get_factor_type_by_id model_AB 2 = Some type_B).
  { apply (F2 [type_A] type_B []); [reflexivity|reflexivity|].
    vm_compute; absent_id. }
  split; [exact HB|]. split; [exact Hadd|].
  split.
  { rewrite (A2 {| get_type_id := 2; get_w := [9%float]; get_w_dim := 1;
                    get_cardinalities := [1] |} _ eq_refl Hadd).
    rewrite HB. reflexivity. }
  split; [exact Hnd|]. split; [exact (D2 Hnd)|].
  rewrite (O2 1 ltac:(discriminate)). reflexivity.
Defined.

(** ** Registering and removing compose *)

Lemma find_other_replicate (i : Z) (n : nat) (e e' : Z) :
  e' <> e -> find_from i (replicate n e) e' = [].
Proof.
  intros Hne. apply find_from_absent. intros Hin.
  apply elem_of_replicate in Hin as [-> _]. congruence.
Qed.

Lemma absent_from_blocks (id : Z) (fts : list CFactorType) :
  id ∉ map get_type_id fts -> id ∉ blocks fts.
Proof. intros Hnin Hin. now apply Hnin, elem_of_blocks. Qed.

Lemma size_blocks_cons_middle (pre post : list CFactorType)
    (ft : CFactorType) :
  0 <= get_w_dim ft ->
  size (blocks (pre ++ ft :: post)) = size (blocks (pre ++ post)) + get_w_dim ft.
Proof.
  intros Hdim. rewrite !blocks_app. unfold size. simpl.
  rewrite !length_app. unfold block at 1. rewrite length_replicate. lia.
Qed.

Lemma seqZ_shift (k a n : Z) :
  map (fun slot => slot - k) (seqZ (a + k) n) = seqZ a n.
Proof.
  replace (seqZ a n) with (seqZ (- k + (a + k)) n) by (f_equal; lia).
  rewrite <- (fmap_add_seqZ (- k) (a + k) n).
  apply map_ext. intros; lia.
Qed.

Section Compose.

Context {FG : Type}.
Implicit Types st : CFactorGraphModel FG.

(** [del_factor_type] writes the registry and the map, nothing else. *)
Lemma del_factor_type_frame (ftype_id : Z) st :
  let st' := snd (del_factor_type ftype_id st) in
  m_w_cache st' = m_w_cache st /\ m_inf_type st' = m_inf_type st /\
  m_verbose st' = m_verbose st /\ m_features st' = m_features st /\
  m_labels st' = m_labels st /\ trace st' = trace st.
Proof.
  unfold del_factor_type.
  destruct (delete_first (m_factor_types st) ftype_id) as [w_dim fts].
  destruct (w_dim =? 0); [now cbn|].
  match goal with
  | |- context [match ?r with Ok _ => _ | Err _ => _ end] => destruct r
  end; now cbn.
Qed.

(** X4.  In a consistent model, registering a type with a new id and
    removing it again both return, and give back the registered types, the
    parameter map and the dimension of before.  The cache does not come
    back: it keeps the weights of the removed type at its end and is longer
    than the dimension by [w_dim]. *)
Theorem add_then_del_factor_type (ftype : CFactorType) st :
  registry_inv st ->
  0 < get_w_dim ftype ->
  size (get_w ftype) = get_w_dim ftype ->
  get_type_id ftype ∉ map get_type_id (m_factor_types st) ->
  exists st1 st2,
    add_factor_type ftype st = (Ok tt, st1) /\
    del_factor_type (get_type_id ftype) st1 = (Ok tt, st2) /\
    m_factor_types st2 = m_factor_types st /\
    m_w_map st2 = m_w_map st /\
    get_dim st2 = get_dim st /\
    m_w_cache st2 = weights_of (m_factor_types st) ++ get_w ftype /\
    size (m_w_cache st2) = get_dim st2 + get_w_dim ftype.
Proof.
  intros Hinv Hdim Hw Hfresh.
  destruct (add_factor_type_fresh ftype st Hdim Hfresh Hw Hinv)
    as (st1 & Hadd & Hfts1 & Hmap1 & Hcache1 & Hsz1 & Hinv1 & _).
  assert (Hsplit : m_factor_types st1 = m_factor_types st ++ ftype :: [])
    by exact Hfts1.
  destruct (del_factor_type_registered _ _ _ st1 Hinv1 Hsplit)
    as (st2 & Hdel & Hfts2 & _ & Hsz2 & Hinv2).
  rewrite app_nil_r in Hfts2.
  assert (Hmap2 : m_w_map st2 = m_w_map st).
  { destruct Hinv as (_ & _ & ->). destruct Hinv2 as (_ & _ & ->).
    now rewrite Hfts2. }
  assert (Hcache2 : m_w_cache st2 = m_w_cache st1).
  { pose proof (del_factor_type_frame (get_type_id ftype) st1) as F.
    rewrite Hdel in F. apply F. }
  exists st1, st2. repeat split; try assumption.
  - unfold get_dim. now rewrite Hmap2.
  - rewrite Hcache2, Hcache1. unfold weights_of.
    rewrite flat_map_app. simpl. now rewrite app_nil_r.
  - rewrite Hcache2, Hsz1. unfold get_dim in *. rewrite Hmap2, Hmap1.
    unfold size. rewrite length_app, length_replicate. lia.
Qed.

(** X5.  The slots of the registered types under registration and removal,
    in a consistent model.  Registering a type with a new id gives it the
    [w_dim] slots from the old dimension on and leaves the slots of every
    other id as they were.  Removing a registered type leaves the slots of
    the types registered before it as they were, moves the slots of the
    types registered after it down by its [w_dim], and leaves no slot to
    its own id. *)
Theorem params_mapping_after_add_del st :
  registry_inv st ->
  (forall ftype st',
     0 < get_w_dim ftype ->
     size (get_w ftype) = get_w_dim ftype ->
     get_type_id ftype ∉ map get_type_id (m_factor_types st) ->
     add_factor_type ftype st = (Ok tt, st') ->
     get_params_mapping st' (get_type_id ftype)
     = seqZ (get_dim st) (get_w_dim ftype) /\
     forall id', id' <> get_type_id ftype ->
       get_params_mapping st' id' = get_params_mapping st id') /\
  (forall pre ft post st',
     m_factor_types st = pre ++ ft :: post ->
     del_factor_type (get_type_id ft) st = (Ok tt, st') ->
     get_params_mapping st' (get_type_id ft) = [] /\
     (forall before, before ∈ pre ->
        get_params_mapping st' (get_type_id before)
        = get_params_mapping st (get_type_id before)) /\
     (forall after, after ∈ post ->
        get_params_mapping st' (get_type_id after)
        = map (fun slot => slot - get_w_dim ft)
            (get_params_mapping st (get_type_id after)))).
Proof.
  intros Hinv. split.
  - intros ftype st' Hdim Hw Hfresh Hadd.
    destruct (add_factor_type_fresh ftype st Hdim Hfresh Hw Hinv)
      as (st1 & Hadd1 & _ & Hmap1 & _).
    rewrite Hadd in Hadd1. injection Hadd1 as <-.
    unfold get_params_mapping, find. rewrite Hmap1.
    destruct Hinv as (_ & _ & Hmap). split.
    + rewrite find_from_app, find_from_replicate.
      rewrite find_from_absent
        by (rewrite Hmap; now apply absent_from_blocks).
      simpl. unfold get_dim. f_equal; lia.
    + intros id' Hne. rewrite find_from_app.
      rewrite (find_other_replicate _ _ _ _ Hne). now rewrite app_nil_r.
  - intros pre ft post st' Hfts Hdel.
    destruct (del_factor_type_registered _ _ _ st Hinv Hfts)
      as (st2 & Hdel2 & Hfts2 & _ & _ & Hinv2).
    rewrite Hdel in Hdel2. injection Hdel2 as <-.
    destruct Hinv as (Hnd & Hwf & Hmap).
    destruct Hinv2 as (Hnd2 & Hwf2 & Hmap2).
    rewrite Hfts in Hnd, Hwf, Hmap. rewrite Hfts2 in Hnd2, Hwf2, Hmap2.
    unfold get_params_mapping. rewrite Hmap, Hmap2.
    assert (Hft : 0 <= get_w_dim ft).
    { apply Forall_app in Hwf as [_ Hwf].
      apply Forall_cons in Hwf as [[H _] _]. lia. }
    repeat split.
    + apply find_from_absent, absent_from_blocks.
      rewrite map_app in *. simpl in Hnd.
      apply NoDup_app in Hnd as (_ & Hcross & Hpost).
      apply NoDup_cons in Hpost as [Hpost _].
      intros Hin. apply elem_of_app in Hin as [Hin|Hin]; [|contradiction].
      apply (Hcross _ Hin). left.
    + intros before Hin.
      apply list_elem_of_split in Hin as (p1 & p2 & ->).
      assert (Hb : 0 <= get_w_dim before).
      { apply Forall_app in Hwf as [Hwf _]. apply Forall_app in Hwf as [_ Hwf].
        apply Forall_cons in Hwf as [[H _] _]. lia. }
      rewrite <- !app_assoc in *. simpl in *.
      rewrite (find_blocks p1 (p2 ++ post) before Hnd2 Hb).
      now rewrite (find_blocks p1 (p2 ++ ft :: post) before Hnd Hb).
    + intros after Hin.
      apply list_elem_of_split in Hin as (p1 & p2 & ->).
      assert (Ha : 0 <= get_w_dim after).
      { apply Forall_app in Hwf2 as [_ Hwf2].
        apply Forall_app in Hwf2 as [_ Hwf2].
        apply Forall_cons in Hwf2 as [[H _] _]. lia. }
      replace (pre ++ ft :: p1 ++ after :: p2)
        with ((pre ++ ft :: p1) ++ after :: p2) in *
        by (now rewrite <- app_assoc).
      replace (pre ++ p1 ++ after :: p2)
        with ((pre ++ p1) ++ after :: p2) in *
        by (now rewrite <- app_assoc).
      rewrite (find_blocks _ _ after Hnd2 Ha).
      rewrite (find_blocks _ _ after Hnd Ha).
      rewrite (size_blocks_cons_middle pre p1 ft Hft).
      now rewrite seqZ_shift.
Qed.

End Compose.

Lemma add_then_del_factor_type_witness :
  registry_inv model_A /\
  (get_type_id type_B ∉ map get_type_id (m_factor_types model_A)) /\
  exists st1 st2,
    add_factor_type type_B model_A = (Ok tt, st1) /\
    del_factor_type 2 st1 = (Ok tt, st2) /\
    m_factor_types st2 = [type_A] /\
    m_w_map st2 = [1; 1] /\
    get_dim st2 = 2 /\
    m_w_cache st2 = [0.5; -0.5; 1; 1; 1]%float /\
    size (m_w_cache st2) = get_dim st2 + 3.
Proof.
  assert (Hinv : registry_inv model_A) by consistent_registry.
  assert (Hfresh : get_type_id type_B ∉ map get_type_id (m_factor_types model_A))
    by (vm_compute; absent_id).
  split; [exact Hinv|]. split; [exact Hfresh|].
  exact (add_then_del_factor_type type_B model_A Hinv eq_refl eq_refl Hfresh).
Defined.

Lemma params_mapping_after_add_del_witness :
  registry_inv model_AB /\
  (get_type_id type_C ∉ map get_type_id (m_factor_types model_AB)) /\
  get_params_mapping (snd (add_factor_type type_C model_AB)) 4 = [5; 6] /\
  get_params_mapping (snd (add_factor_type type_C model_AB)) 2 = [2; 3; 4] /\
  get_params_mapping model_B 1 = [] /\
  get_params_mapping model_B 2 = [0; 1; 2].
Proof.
  assert (Hinv : registry_inv model_AB) by consistent_registry.
  assert (Hfresh : get_type_id type_C ∉ map get_type_id (m_factor_types model_AB))
    by (vm_compute; absent_id).
  split; [exact Hinv|]. split; [exact Hfresh|].
  destruct (params_mapping_after_add_del model_AB Hinv) as [Hadd Hdel].
  destruct (Hadd type_C (snd (add_factor_type type_C model_AB))
              eq_refl eq_refl Hfresh eq_refl) as [Hnew Hold].
  destruct (Hdel [] type_A [type_B] model_B eq_refl eq_refl)
    as (Hgone & _ & Hafter).
  split; [exact Hnew|].
  split; [exact (Hold 2 ltac:(discriminate))|].
  split; [exact Hgone|].
  exact (Hafter type_B ltac:(left)).
Defined.

(** ** Writing the weights back *)

Lemma distribute_app (a b : list CFactorType) :
  forall w,
    distribute (a ++ b) w
    = distribute a w ++ distribute b (drop (length (blocks a)) w).
Proof.
  induction a as [|ft a IH]; intros w; [reflexivity|].
  simpl. rewrite IH. rewrite drop_drop. repeat f_equal.
  change (blocks (ft :: a)) with (block ft ++ blocks a).
  rewrite length_app. unfold block. now rewrite length_replicate.
Qed.

Section WritingBack.

Context {FG : Type}.
Implicit Types st : CFactorGraphModel FG.

(** A vector that is not as long as the cache fails the assertion of line
    206; only the debug message has been printed by then. *)
Lemma w_to_fparams_wrong_length st (w : list float) :
  size w <> size (m_w_cache st) ->
  w_to_fparams w st
  = (Err AssertionFailed,
     if m_verbose st then emit (Printed msg_update_w_cache) st else st).
Proof.
  intros Hne. unfold w_to_fparams.
  destruct (equals (m_w_cache st) w) eqn:E.
  - apply equals_size in E. congruence.
  - assert (Hc : m_w_cache (if m_verbose st
                            then emit (Printed msg_update_w_cache) st else st)
                 = m_w_cache st) by (now destruct (m_verbose st)).
    rewrite Hc. destruct (Z.eqb_spec (size w) (size (m_w_cache st)));
      [contradiction|reflexivity].
Qed.

(** X6.  [w_to_fparams(w)] with a vector that is not as long as the cache
    fails its assertion and leaves the registered types, the cache and the
    parameter map as they were.  In a model whose cache is in step with a
    consistent registry this is every vector whose length is not
    [get_dim()]. *)
Theorem w_to_fparams_rejects st (w : list float) :
  (size w <> size (m_w_cache st) ->
     exists st',
       w_to_fparams w st = (Err AssertionFailed, st') /\
       m_factor_types st' = m_factor_types st /\
       m_w_cache st' = m_w_cache st /\
       m_w_map st' = m_w_map st) /\
  (registry_inv st -> cache_inv st -> size w <> get_dim st ->
     fst (w_to_fparams w st) = Err AssertionFailed).
Proof.
  split.
  - intros Hne. rewrite (w_to_fparams_wrong_length st w Hne).
    eexists. split; [reflexivity|]. now destruct (m_verbose st).
  - intros (_ & Hwf & Hmap) Hcache Hne.
    rewrite w_to_fparams_wrong_length; [reflexivity|].
    rewrite Hcache, (size_blocks_weights _ Hwf), <- Hmap. exact Hne.
Qed.

(** X7.  [w_to_fparams(w)] in a consistent model, for a vector of
    [get_dim()] entries that is as long as the cache and differs from it:
    the call returns, the cache becomes [w], the parameter map stays, and
    every registered type is found afterwards under its id with the same id,
    [w_dim] and cardinalities and with [w_dim] weights, the [k]-th of which
    is the entry of [w] at the [k]-th slot of the type. *)
Theorem w_to_fparams_by_slots st (w : list float) :
  registry_inv st ->
  size w = get_dim st ->
  size w = size (m_w_cache st) ->
  equals (m_w_cache st) w = false ->
  exists st',
    w_to_fparams w st = (Ok tt, st') /\
    m_w_cache st' = w /\
    m_w_map st' = m_w_map st /\
    forall ft, ft ∈ m_factor_types st ->
      exists ft',
        get_factor_type_by_id st' (get_type_id ft) = Some ft' /\
        get_type_id ft' = get_type_id ft /\
        get_w_dim ft' = get_w_dim ft /\
        get_cardinalities ft' = get_cardinalities ft /\
        size (get_w ft') = get_w_dim ft /\
        forall (k : nat) slot,
          get_params_mapping st (get_type_id ft) !! k = Some slot ->
          get_w ft' !! k = w !! Z.to_nat slot.
Proof.
  intros Hinv Hdim Hlen Hneq.
  rewrite (w_to_fparams_update st w Hinv Hneq Hlen Hdim).
  eexists. split; [reflexivity|].
  split; [now destruct (m_verbose st)|].
  split; [now destruct (m_verbose st)|].
  intros ft Hin. apply list_elem_of_split in Hin as (pre & post & Hfts).
  destruct Hinv as (Hnd & Hwf & Hmap).
  set (n := Z.to_nat (get_w_dim ft)).
  set (off := length (blocks pre)).
  exists (set_w (take n (drop off w)) ft).
  assert (Hft : wf_type ft).
  { rewrite Hfts in Hwf. apply Forall_app in Hwf as [_ Hwf].
    now apply Forall_cons in Hwf as [H _]. }
  destruct Hft as [Hpos _].
  assert (Hroom : (off + n <= length w)%nat).
  { unfold get_dim in Hdim. rewrite Hmap, Hfts, blocks_app in Hdim.
    unfold size in Hdim. rewrite length_app in Hdim. simpl in Hdim.
    rewrite length_app in Hdim. unfold block at 1 in Hdim.
    rewrite length_replicate in Hdim. fold n off in Hdim. lia. }
  split.
  - unfold get_factor_type_by_id.
    cbn [m_factor_types with_factor_types].
    rewrite Hfts, distribute_app. simpl. fold n off.
    apply (lookup_factor_type_first _ _ (set_w (take n (drop off w)) ft)).
    simpl. rewrite distribute_ids. rewrite Hfts, map_app in Hnd.
    apply NoDup_app in Hnd as (_ & Hcross & _).
    intros Hin. apply (Hcross _ Hin). left.
  - repeat split.
    + simpl. unfold size. rewrite length_take, length_drop. subst n. lia.
    + intros k slot Hk. unfold get_params_mapping in Hk.
      rewrite Hmap, Hfts in Hk.
      assert (Hnd' : NoDup (map get_type_id (pre ++ ft :: post)))
        by (now rewrite <- Hfts).
      rewrite (find_blocks pre post ft Hnd' ltac:(lia)) in Hk.
      apply lookup_seqZ in Hk as [-> Hk]. simpl.
      rewrite lookup_take.
      destruct (decide (k < n)%nat) as [_|Hge]; [|subst n; lia].
      rewrite lookup_drop. f_equal. unfold size. fold off. lia.
Qed.

(** X8.  What removing a type does to the calls that follow.  In a model
    whose cache is in step with a consistent registry, after
    [del_factor_type] of a registered type a vector of the new dimension is
    refused by [w_to_fparams]: the cache still has the old length.  After a
    call of [fparams_to_w()], which returns the weights of the remaining
    types, the same vector is accepted, and the model is consistent with its
    cache in step again. *)
Theorem w_to_fparams_after_del (pre post : list CFactorType)
    (ft : CFactorType) st (w : list float) :
  registry_inv st ->
  cache_inv st ->
  m_factor_types st = pre ++ ft :: post ->
  size w = get_dim st - get_w_dim ft ->
  exists st1,
    del_factor_type (get_type_id ft) st = (Ok tt, st1) /\
    size w = get_dim st1 /\
    fst (w_to_fparams w st1) = Err AssertionFailed /\
    exists st2 st3,
      fparams_to_w st1 = (Ok (weights_of (pre ++ post)), st2) /\
      w_to_fparams w st2 = (Ok tt, st3) /\
      registry_inv st3 /\ cache_inv st3.
Proof.
  intros Hinv Hcache Hfts Hw.
  destruct (del_factor_type_registered _ _ _ st Hinv Hfts)
    as (st1 & Hdel & Hfts1 & _ & Hsz1 & Hinv1).
  assert (Hcache1 : m_w_cache st1 = m_w_cache st).
  { pose proof (del_factor_type_frame (get_type_id ft) st) as F.
    rewrite Hdel in F. apply F. }
  assert (Hpos : 0 < get_w_dim ft).
  { destruct Hinv as (_ & Hwf & _). rewrite Hfts in Hwf.
    apply Forall_app in Hwf as [_ Hwf].
    now apply Forall_cons in Hwf as [[H _] _]. }
  assert (Hold : size (m_w_cache st) = get_dim st).
  { destruct Hinv as (_ & Hwf & Hmap). unfold get_dim.
    now rewrite Hcache, (size_blocks_weights _ Hwf), Hmap. }
  exists st1. split; [exact Hdel|].
  split; [unfold get_dim in *; lia|].
  split.
  { rewrite w_to_fparams_wrong_length; [reflexivity|].
    rewrite Hcache1, Hold. lia. }
  pose proof (fparams_to_w_consistent st1 Hinv1) as Hrebuild.
  rewrite Hfts1 in Hrebuild.
  set (st2 := with_w_cache (weights_of (pre ++ post)) st1) in *.
  assert (Hinv2 : registry_inv st2) by exact Hinv1.
  assert (Hcache2 : cache_inv st2).
  { unfold cache_inv. subst st2. simpl. now rewrite Hfts1. }
  assert (Hdim2 : size w = get_dim st2) by (unfold get_dim in *; simpl; lia).
  assert (Hlen2 : size w = size (m_w_cache st2)).
  { destruct Hinv2 as (_ & Hwf & Hmap). rewrite Hcache2.
    rewrite (size_blocks_weights _ Hwf), <- Hmap. exact Hdim2. }
  exists st2.
  destruct (equals (m_w_cache st2) w) eqn:E.
  - exists st2. split; [exact Hrebuild|].
    split; [now apply w_to_fparams_skip|]. now split.
  - eexists. split; [exact Hrebuild|].
    split; [exact (w_to_fparams_update st2 w Hinv2 E Hlen2 Hdim2)|].
    split.
    + apply registry_inv_distribute; [exact Hinv2|exact Hdim2|].
      now destruct (m_verbose st2).
    + unfold cache_inv. cbn [m_w_cache m_factor_types with_factor_types
                              with_w_cache].
      destruct Hinv2 as (_ & Hwf & Hmap).
      rewrite distribute_weights; [reflexivity|exact Hwf|].
      rewrite <- Hmap. exact Hdim2.
Qed.

End WritingBack.

Lemma w_to_fparams_rejects_witness :
  size [1%float; 2%float] <> size (m_w_cache model_AB) /\
  registry_inv model_AB /\ cache_inv model_AB /\
  size [1%float; 2%float] <> get_dim model_AB /\
  (exists st',
     w_to_fparams [1%float; 2%float] model_AB = (Err AssertionFailed, st') /\
     m_factor_types st' = m_factor_types model_AB /\
     m_w_cache st' = m_w_cache model_AB /\
     m_w_map st' = m_w_map model_AB) /\
  fst (w_to_fparams [1%float; 2%float] model_AB) = Err AssertionFailed.
Proof.
  assert (Hlen : size [1%float; 2%float] <> size (m_w_cache model_AB))
    by (vm_compute; discriminate).
  assert (Hinv : registry_inv model_AB) by consistent_registry.
  assert (Hcache : cache_inv model_AB) by reflexivity.
  assert (Hdim : size [1%float; 2%float] <> get_dim model_AB)
    by (vm_compute; discriminate).
  destruct (w_to_fparams_rejects model_AB [1%float; 2%float]) as [H1 H2].
  split; [exact Hlen|]. split; [exact Hinv|]. split; [exact Hcache|].
  split; [exact Hdim|]. split; [exact (H1 Hlen)|exact (H2 Hinv Hcache Hdim)].
Defined.

Lemma w_to_fparams_by_slots_witness :
  registry_inv model_AB /\
  size [1; 2; 3; 4; 5]%float = get_dim model_AB /\
  size [1; 2; 3; 4; 5]%float = size (m_w_cache model_AB) /\
  equals (m_w_cache model_AB) [1; 2; 3; 4; 5]%float = false /\
  type_B ∈ m_factor_types model_AB /\
  get_params_mapping model_AB (get_type_id type_B) !! 1%nat = Some 3 /\
  exists st' ft',
    w_to_fparams [1; 2; 3; 4; 5]%float model_AB = (Ok tt, st') /\
    get_factor_type_by_id st' 2 = Some ft' /\
    size (get_w ft') = 3 /\
    get_w ft' !! 1%nat = Some 4%float.
Proof.
  assert (Hinv : registry_inv model_AB) by consistent_registry.
  assert (HB : type_B ∈ m_factor_types model_AB) by (right; left).
  split; [exact Hinv|]. do 3 (split; [reflexivity|]).
  split; [exact HB|]. split; [reflexivity|].
  destruct (w_to_fparams_by_slots model_AB [1; 2; 3; 4; 5]%float
              Hinv eq_refl eq_refl eq_refl)
    as (st' & Hcall & _ & _ & Htypes).
  destruct (Htypes type_B HB) as (ft' & Hfound & _ & _ & _ & Hsize & Hslot).
  exists st', ft'. split; [exact Hcall|]. split; [exact Hfound|].
  split; [exact Hsize|]. exact (Hslot 1%nat 3 eq_refl).
Defined.

Lemma w_to_fparams_after_del_witness :
  registry_inv model_AB /\ cache_inv model_AB /\
  m_factor_types model_AB = [] ++ type_A :: [type_B] /\
  size [7; 8; 9]%float = get_dim model_AB - get_w_dim type_A /\
  exists st1,
    del_factor_type 1 model_AB = (Ok tt, st1) /\
    size [7; 8; 9]%float = get_dim st1 /\
    fst (w_to_fparams [7; 8; 9]%float st1) = Err AssertionFailed /\
    exists st2 st3,
      fparams_to_w st1 = (Ok [1; 1; 1]%float, st2) /\
      w_to_fparams [7; 8; 9]%float st2 = (Ok tt, st3) /\
      registry_inv st3 /\ cache_inv st3.
Proof.
  assert (Hinv : registry_inv model_AB) by consistent_registry.
  assert (Hcache : cache_inv model_AB) by reflexivity.
  split; [exact Hinv|]. split; [exact Hcache|]. do 2 (split; [reflexivity|]).
  exact (w_to_fparams_after_del [] [type_B] type_A model_AB [7; 8; 9]%float
           Hinv Hcache eq_refl eq_refl).
Defined.

(** ** What [argmax] leaves alone, and where it gives up *)

Lemma w_to_fparams_loop_shape (fts : list CFactorType) (w_map : list Z)
    (w_cache : list float) :
  forall offset offset' fts',
    w_to_fparams_loop fts w_map w_cache offset = Ok (offset', fts') ->
    map (set_w []) fts' = map (set_w []) fts.
Proof.
  induction fts as [|ft fts IH]; intros offset offset' fts'; simpl.
  - now intros [= _ <-].
  - destruct (gather _ _ _) as [fw|]; [|discriminate].
    destruct (w_to_fparams_loop fts w_map w_cache (offset + get_w_dim ft))
      as [[o rest]|] eqn:E; [|discriminate].
    intros [= _ <-]. simpl. f_equal. exact (IH _ _ _ E).
Qed.

Section ArgmaxFrame.

Context {FG : Type} `{!Collaborators FG}.
Implicit Types st : CFactorGraphModel FG.

Lemma keeps_pure {A : Type} (feat_idx : Z)
    (f : CFactorGraphModel FG -> result A) :
  keeps feat_idx (fun st => (f st, st)).
Proof. intros st. simpl. repeat split. Qed.

Lemma keeps_ret {A : Type} (feat_idx : Z) (a : A) :
  keeps feat_idx (ret a : method FG A).
Proof. apply keeps_pure. Qed.

Lemma keeps_lift {A : Type} (feat_idx : Z) (r : result A) :
  keeps feat_idx (lift r : method FG A).
Proof. apply keeps_pure. Qed.

Lemma keeps_bind {A B : Type} (feat_idx : Z)
    (m : method FG A) (k : A -> method FG B) :
  keeps feat_idx m -> (forall a, keeps feat_idx (k a)) ->
  keeps feat_idx (bind m k).
Proof.
  intros Hm Hk st. unfold bind.
  destruct (Hm st) as (L1 & V1 & I1 & M1 & T1 & N1 & F1).
  destruct (m st) as [[a|e] st1]; simpl in *; [|repeat split; assumption].
  destruct (Hk a st1) as (L2 & V2 & I2 & M2 & T2 & N2 & F2).
  repeat split; try congruence.
  intros i Hi. now rewrite (F2 i Hi), (F1 i Hi).
Qed.

Lemma keeps_when (feat_idx : Z) (c : bool) (m : method FG unit) :
  keeps feat_idx m -> keeps feat_idx (when c m).
Proof. intros Hm. destruct c; [exact Hm|apply keeps_ret]. Qed.

Lemma keeps_sg_print (feat_idx : Z) (msg : message) :
  keeps feat_idx (sg_print msg : method FG unit).
Proof. intros st. simpl. repeat split. Qed.

Lemma keeps_update_sample (feat_idx : Z) (c : fg_call) (f : FG -> FG) :
  keeps feat_idx (update_sample feat_idx c f).
Proof.
  intros st. unfold update_sample.
  destruct (vget (m_features st) feat_idx); simpl; repeat split.
  - apply length_insert.
  - intros i Hi. now apply list_lookup_insert_ne.
Qed.

Lemma keeps_query_sample {A : Type} (feat_idx : Z) (c : fg_call)
    (f : FG -> A) :
  keeps feat_idx (query_sample feat_idx c f).
Proof.
  intros st. unfold query_sample.
  destruct (vget (m_features st) feat_idx); simpl; repeat split.
Qed.

Lemma keeps_w_to_fparams (feat_idx : Z) (w : list float) :
  keeps feat_idx (w_to_fparams w : method FG unit).
Proof.
  intros st.
  destruct (w_to_fparams_frame w st) as (F & L & V & I & M & _).
  rewrite F, L, V, I, M. repeat split.
  unfold w_to_fparams.
  destruct (equals (m_w_cache st) w); [reflexivity|].
  set (st0 := if m_verbose st then _ else st).
  assert (E : m_factor_types st0 = m_factor_types st)
    by (unfold st0; now destruct (m_verbose st)).
  destruct (negb (size w =? size (m_w_cache st0))); [simpl; now rewrite E|].
  cbn [m_factor_types m_w_map m_w_cache with_w_cache].
  destruct (w_to_fparams_loop _ _ _ _) as [[offset fts]|] eqn:L';
    [|simpl; now rewrite E].
  apply w_to_fparams_loop_shape in L'.
  destruct (offset =? _); simpl; now rewrite L', E.
Qed.

Lemma keeps_get_joint_feature_vector (feat_idx : Z)
    (y : CFactorGraphObservation) :
  keeps feat_idx (get_joint_feature_vector feat_idx y).
Proof.
  unfold get_joint_feature_vector.
  apply keeps_bind; [apply keeps_pure|]. intros _.
  apply keeps_bind; [apply keeps_query_sample|]. intros facs st.
  destruct (new_vector 0%float (get_dim st)); [|simpl; repeat split].
  simpl. destruct (accumulate_factors _ _ _ _); simpl; repeat split.
Qed.

Lemma keeps_print_summary (feat_idx : Z) w r ss sg e1 e2 :
  keeps feat_idx (print_summary w r ss sg e1 e2 : method FG unit).
Proof.
  unfold print_summary.
  apply keeps_bind; [apply keeps_lift|]. intros dot_pred.
  apply keeps_bind; [apply keeps_lift|]. intros dot_truth.
  apply keeps_sg_print.
Qed.

(** X9.  No run of [argmax] on the example [feat_idx], whether it returns
    or fails, changes the labels, the inference mode, the verbose flag, the
    parameter map or the number of examples; the other examples are as they
    were, and the registered types differ from those of before in their
    weights at most. *)
Theorem argmax_keeps (w : list float) (feat_idx : Z) (training : bool) :
  keeps feat_idx (argmax w feat_idx training).
Proof.
  unfold argmax.
  repeat first
    [ apply keeps_ret
    | apply keeps_lift
    | apply keeps_when
    | apply keeps_sg_print
    | apply keeps_update_sample
    | apply keeps_query_sample
    | apply keeps_w_to_fparams
    | apply keeps_get_joint_feature_vector
    | apply keeps_print_summary
    | apply keeps_bind; [|intros ?]
    | apply keeps_pure
    | match goal with
      | |- keeps _ (match ?x with TREE_MAX_PROD => _ | _ => _ end) => destruct x
      | |- keeps _ (let '(_, _) := ?x in _) => destruct x
      end ].
Qed.

(** X10.  In the mode [TREE_MAX_PROD], [argmax] on an example whose graph is
    not a tree once its components are connected fails the assertion of
    line 291.  By then the graph of the example has been connected and
    asked whether it is a tree; nothing has been printed, and the
    registered types and the cache are as they were, whatever [w] is. *)
Theorem argmax_needs_tree (w : list float) (feat_idx : Z) (training : bool)
    st (fg : FG) :
  0 <= feat_idx ->
  m_features st !! Z.to_nat feat_idx = Some fg ->
  m_inf_type st = TREE_MAX_PROD ->
  is_tree_graph (connect_components fg) = false ->
  argmax w feat_idx training st
  = (Err AssertionFailed,
     emit (Called feat_idx is_tree_graph_call)
       (emit (Called feat_idx connect_components_call)
          (with_features
             (<[Z.to_nat feat_idx := connect_components fg]> (m_features st))
             st))).
Proof.
  intros Hidx Hfg Hmode Htree.
  assert (Hlt : (Z.to_nat feat_idx < length (m_features st))%nat)
    by (now apply lookup_lt_Some in Hfg).
  unfold argmax, bind, get_sample, update_sample, query_sample.
  rewrite (vget_lookup _ _ _ Hidx Hfg).
  cbn [m_inf_type emit with_features]. rewrite Hmode.
  cbn [m_features emit with_features].
  rewrite (vget_lookup _ feat_idx (connect_components fg) Hidx)
    by (now apply list_lookup_insert_eq).
  rewrite Htree. reflexivity.
Qed.

(** X11.  [argmax] with a vector [w] that is not as long as the cache, on
    an example that passes the tree check: the call fails the assertion of
    [w_to_fparams].  The registered types and the cache are as they were,
    the graph of the example has been connected, and all that has happened
    besides is printing and the tree check: no energy has been computed, no
    loss augmentation and no inference has run. *)
Theorem argmax_wrong_length (w : list float) (feat_idx : Z) (training : bool)
    st (fg : FG) :
  0 <= feat_idx ->
  m_features st !! Z.to_nat feat_idx = Some fg ->
  (m_inf_type st = TREE_MAX_PROD ->
   is_tree_graph (connect_components fg) = true) ->
  size w <> size (m_w_cache st) ->
  exists st',
    argmax w feat_idx training st = (Err AssertionFailed, st') /\
    m_factor_types st' = m_factor_types st /\
    m_w_cache st' = m_w_cache st /\
    m_features st'
    = <[Z.to_nat feat_idx := connect_components fg]> (m_features st) /\
    exists evs,
      trace st' = trace st ++ evs /\ forallb is_preparation evs = true.
Proof.
  intros Hidx Hfg Htree Hlen.
  assert (Hlt : (Z.to_nat feat_idx < length (m_features st))%nat)
    by (now apply lookup_lt_Some in Hfg).
  assert (Hfg' : (<[Z.to_nat feat_idx := connect_components fg]>
                    (m_features st)) !! Z.to_nat feat_idx
                 = Some (connect_components fg))
    by (now apply list_lookup_insert_eq).
  unfold argmax, bind, get_sample, update_sample, query_sample.
  rewrite (vget_lookup _ _ _ Hidx Hfg).
  cbn [m_inf_type emit with_features].
  destruct (m_inf_type st) eqn:M; destruct (m_verbose st) eqn:V.
  all: cbn [m_features m_verbose emit with_features ret when lift sg_print].
  all: rewrite ?(vget_lookup _ feat_idx (connect_components fg) Hidx Hfg').
  all: rewrite ?(Htree eq_refl).
  all: cbn [ASSERT lift m_features m_verbose emit with_features ret when
            sg_print].
  all: rewrite ?V.
  all: cbn [ASSERT lift m_features m_verbose emit with_features ret when
            sg_print].
  all: rewrite w_to_fparams_wrong_length by exact Hlen.
  all: cbn [m_verbose emit with_features]; rewrite ?V.
  all: eexists; split; [reflexivity|].
  all: cbn [m_factor_types m_w_cache m_features trace emit with_features].
  all: repeat split.
  all: rewrite <- ?app_assoc; eexists; (split; [reflexivity|reflexivity]).
Qed.

End ArgmaxFrame.

Lemma argmax_needs_tree_witness :
  0 <= 0 /\
  m_features cyclic_model !! Z.to_nat 0 = Some cyclic_graph /\
  m_inf_type cyclic_model = TREE_MAX_PROD /\
  is_tree_graph (connect_components cyclic_graph) = false /\
  fst (argmax zero_weights 0 true cyclic_model) = Err AssertionFailed /\
  trace (snd (argmax zero_weights 0 true cyclic_model))
  = [Called 0 connect_components_call; Called 0 is_tree_graph_call].
Proof.
  assert (H0 : 0 <= 0) by lia.
  assert (Htree : is_tree_graph (connect_components cyclic_graph) = false)
    by reflexivity.
  split; [exact H0|]. do 2 (split; [reflexivity|]). split; [exact Htree|].
  rewrite (argmax_needs_tree zero_weights 0 true cyclic_model cyclic_graph
             H0 eq_refl eq_refl Htree).
  split; reflexivity.
Defined.

Lemma argmax_wrong_length_witness :
  0 <= 0 /\
  m_features unary_model !! Z.to_nat 0 = Some unary_graph /\
  (m_inf_type unary_model = TREE_MAX_PROD ->
   is_tree_graph (connect_components unary_graph) = true) /\
  size [1%float] <> size (m_w_cache unary_model) /\
  exists st',
    argmax [1%float] 0 true unary_model = (Err AssertionFailed, st') /\
    m_factor_types st' = m_factor_types unary_model /\
    m_w_cache st' = m_w_cache unary_model.
Proof.
  assert (H0 : 0 <= 0) by lia.
  assert (Htree : m_inf_type unary_model = TREE_MAX_PROD ->
                  is_tree_graph (connect_components unary_graph) = true)
    by reflexivity.
  assert (Hlen : size [1%float] <> size (m_w_cache unary_model))
    by (vm_compute; discriminate).
  split; [exact H0|]. split; [reflexivity|]. split; [exact Htree|].
  split; [exact Hlen|].
  destruct (argmax_wrong_length [1%float] 0 true unary_model unary_graph
              H0 eq_refl Htree Hlen) as (st' & H1 & H2 & H3 & _).
  exists st'. split; [exact H1|]. split; [exact H2|exact H3].
Defined.

(** ** When the joint feature vector is returned *)

Section JointFeatureReturns.

Context {FG : Type} `{!Collaborators FG}.
Implicit Types st : CFactorGraphModel FG.

Lemma accumulate_factor_returns (w_map_all states : list Z) (fac : CFactor)
    (psi psi' : list float) :
  length psi = length w_map_all ->
  accumulate_factor w_map_all states fac psi = Ok psi' ->
  passes_assertions w_map_all fac /\
  psi' = add_factor w_map_all states psi fac.
Proof.
  intros Hpsi Hrun. pose proof Hrun as Hrun'.
  unfold accumulate_factor in Hrun'.
  set (ftype := get_factor_type fac) in *.
  set (dat := fac_get_data fac) in *.
  set (fm := find w_map_all (get_type_id ftype)) in *.
  set (ei := index_from_universe_assignment ftype states (get_variables fac))
    in *.
  destruct (Z.eqb_spec (size fm) (get_w_dim ftype)) as [Hdim|];
    [|discriminate].
  destruct (Z.eqb_spec (size fm) (size dat * get_num_assignments ftype))
    as [Hna|]; [|discriminate].
  cbn [ASSERT] in Hrun'.
  assert (Hpass : passes_assertions w_map_all fac) by (now split).
  split; [exact Hpass|].
  destruct dat as [|d dat'] eqn:Hdat.
  - injection Hrun' as <-. unfold add_factor. fold dat. rewrite Hdat.
    now destruct (factor_slots w_map_all states fac).
  - assert (Hei : 0 <= ei < get_num_assignments ftype).
    { unfold for_range in Hrun'.
      replace (Z.to_nat (size (d :: dat') - 0))
        with (S (length dat')) in Hrun' by (unfold size; simpl; lia).
      simpl in Hrun'.
      destruct (vget fm (ei * size (d :: dat') + 0)) as [slot|] eqn:Hslot;
        [|discriminate].
      apply vget_inv in Hslot as [Hslot _].
      assert (0 < size (d :: dat')) by (unfold size; simpl; lia).
      nia. }
    assert (Hok : factor_ok w_map_all states fac).
    { repeat split; try (fold ftype; fold fm; fold dat; rewrite ?Hdat);
        try assumption; fold ei; lia. }
    rewrite (accumulate_factor_ok _ _ _ _ Hok Hpsi) in Hrun.
    now injection Hrun.
Qed.

Lemma accumulate_factors_returns (w_map_all states : list Z)
    (facs : list CFactor) :
  forall psi psi',
    length psi = length w_map_all ->
    accumulate_factors w_map_all states facs psi = Ok psi' ->
    Forall (passes_assertions w_map_all) facs /\
    psi' = fold_left (add_factor w_map_all states) facs psi.
Proof.
  induction facs as [|fac facs IH]; intros psi psi' Hpsi Hrun; simpl in *.
  - injection Hrun as <-. split; [constructor|reflexivity].
  - destruct (accumulate_factor w_map_all states fac psi) as [psi1|] eqn:E;
      [|discriminate].
    destruct (accumulate_factor_returns _ _ _ _ _ Hpsi E) as [Hfac ->].
    assert (Hlen : length (add_factor w_map_all states psi fac)
                   = length w_map_all) by (now rewrite length_add_factor).
    destruct (IH _ _ Hlen Hrun) as [Hall ->].
    split; [now constructor|reflexivity].
Qed.

(** In a consistent registry, a factor passes the assertion of line 251
    only if its type has the [w_dim] of the type registered under its id,
    or has no weights when the id is not registered. *)
Lemma passes_assertions_registered st (fac : CFactor) :
  registry_inv st ->
  passes_assertions (m_w_map st) fac ->
  match get_factor_type_by_id st (get_type_id (get_factor_type fac)) with
  | Some registered => get_w_dim registered = get_w_dim (get_factor_type fac)
  | None => get_w_dim (get_factor_type fac) = 0
  end.
Proof.
  intros (Hnd & Hwf & Hmap) [Hdim _]. rewrite Hmap in Hdim.
  unfold get_factor_type_by_id.
  set (id := get_type_id (get_factor_type fac)) in *.
  destruct (decide (id ∈ map get_type_id (m_factor_types st))) as [Hin|Hnin].
  - apply list_elem_of_fmap in Hin as (ft & Hid & Hin).
    apply list_elem_of_split in Hin as (pre & post & Hfts).
    rewrite Hfts in *. rewrite Hid.
    assert (Hft : 0 < get_w_dim ft).
    { apply Forall_app in Hwf as [_ Hwf].
      now apply Forall_cons in Hwf as [[H _] _]. }
    rewrite lookup_factor_type_first.
    + rewrite Hid, (find_blocks pre post ft Hnd ltac:(lia)) in Hdim.
      unfold size in Hdim. rewrite length_seqZ in Hdim. lia.
    + rewrite map_app in Hnd. apply NoDup_app in Hnd as (_ & Hcross & Hpost).
      intros Hpre. apply (Hcross _ Hpre). left.
  - rewrite (lookup_factor_type_absent _ _ Hnin).
    unfold find in Hdim.
    rewrite find_from_absent in Hdim by (now apply absent_from_blocks).
    now rewrite <- Hdim.
Qed.

(** A call of [get_joint_feature_vector] that returns. *)
Lemma get_joint_feature_vector_inv (feat_idx : Z)
    (y : CFactorGraphObservation) st (psi : list float) st' :
  get_joint_feature_vector feat_idx y st = (Ok psi, st') ->
  exists fg,
    0 <= feat_idx /\
    m_features st !! Z.to_nat feat_idx = Some fg /\
    st' = emit (Called feat_idx get_factors_call) st /\
    psi = psi_spec (m_w_map st) (get_data y) (get_factors fg) /\
    size psi = get_dim st /\
    Forall (passes_assertions (m_w_map st)) (get_factors fg).
Proof.
  intros Hrun. pose proof Hrun as Hrun'.
  unfold get_joint_feature_vector in Hrun'.
  apply bind_ok in Hrun' as (fg & st0 & Hfg & _).
  apply get_sample_ok in Hfg as (_ & Hidx & Hfg).
  rewrite (get_joint_feature_vector_unfold _ _ _ _ Hidx Hfg) in Hrun.
  destruct (accumulate_factors (m_w_map st) (get_data y) (get_factors fg)
              (replicate (length (m_w_map st)) 0%float)) as [acc|] eqn:E;
    [|discriminate].
  injection Hrun as <- <-.
  destruct (accumulate_factors_returns _ _ _ _ _
              ltac:(now rewrite length_replicate) E) as [Hall ->].
  exists fg. repeat split; try assumption.
  unfold psi_spec, scale, get_dim, size. rewrite length_map.
  assert (H : forall facs p,
            length (fold_left (add_factor (m_w_map st) (get_data y)) facs p)
            = length p).
  { induction facs as [|f facs IH]; intros p; [reflexivity|].
    simpl. now rewrite IH, length_add_factor. }
  now rewrite H, length_replicate.
Qed.

(** X12.  Whenever [get_joint_feature_vector(feat_idx, y)] returns, the
    example exists, the only thing that has happened to the model is that
    the example was asked for its factors, and the vector returned has
    [get_dim()] entries and is the one obtained from zeros by adding, factor
    after factor, the data into the slots of the factor's table index, and
    negating.  Every factor has passed the two assertions; in a consistent
    registry its type then has the [w_dim] of the type registered under its
    id, or no weights at all when the id is not registered. *)
Theorem get_joint_feature_vector_returns (feat_idx : Z)
    (y : CFactorGraphObservation) st (psi : list float) st' :
  get_joint_feature_vector feat_idx y st = (Ok psi, st') ->
  exists fg,
    0 <= feat_idx /\
    m_features st !! Z.to_nat feat_idx = Some fg /\
    st' = emit (Called feat_idx get_factors_call) st /\
    psi = psi_spec (m_w_map st) (get_data y) (get_factors fg) /\
    size psi = get_dim st /\
    Forall (passes_assertions (m_w_map st)) (get_factors fg) /\
    (registry_inv st ->
     Forall
       (fun fac =>
          match get_factor_type_by_id st (get_type_id (get_factor_type fac))
          with
          | Some registered =>
              get_w_dim registered = get_w_dim (get_factor_type fac)
          | None => get_w_dim (get_factor_type fac) = 0
          end)
       (get_factors fg)).
Proof.
  intros Hrun.
  destruct (get_joint_feature_vector_inv _ _ _ _ _ Hrun)
    as (fg & Hidx & Hfg & Hst & Hpsi & Hsize & Hall).
  exists fg. repeat split; try assumption.
  intros Hinv. eapply Forall_impl; [exact Hall|].
  intros fac Hfac. now apply passes_assertions_registered.
Qed.

End JointFeatureReturns.

Lemma get_joint_feature_vector_returns_witness :
  get_joint_feature_vector 0 label_1 unary_model
  = (Ok [(-0)%float; (-0)%float; (-1)%float; (-1)%float],
     emit (Called 0 get_factors_call) unary_model) /\
  exists fg,
    m_features unary_model !! Z.to_nat 0 = Some fg /\
    [(-0)%float; (-0)%float; (-1)%float; (-1)%float]
    = psi_spec (m_w_map unary_model) (get_data label_1) (get_factors fg) /\
    Forall (passes_assertions (m_w_map unary_model)) (get_factors fg).
Proof.
  assert (Hrun : get_joint_feature_vector 0 label_1 unary_model
                 = (Ok [(-0)%float; (-0)%float; (-1)%float; (-1)%float],
                    emit (Called 0 get_factors_call) unary_model))
    by reflexivity.
  split; [exact Hrun|].
  destruct (get_joint_feature_vector_returns 0 label_1 unary_model _ _ Hrun)
    as (fg & _ & Hfg & _ & Hpsi & _ & Hall & _).
  exists fg. split; [exact Hfg|]. split; [exact Hpsi|exact Hall].
Defined.

(** ** The weights after [argmax] *)

Section ArgmaxWeights.

Context {FG : Type} `{!Collaborators FG}.
Implicit Types st : CFactorGraphModel FG.

Lemma keeps_weights_pure {A : Type} (f : CFactorGraphModel FG -> result A) :
  keeps_weights (fun st => (f st, st)).
Proof. intros st. simpl. repeat split. Qed.

Lemma keeps_weights_ret {A : Type} (a : A) :
  keeps_weights (ret a : method FG A).
Proof. apply keeps_weights_pure. Qed.

Lemma keeps_weights_lift {A : Type} (r : result A) :
  keeps_weights (lift r : method FG A).
Proof. apply keeps_weights_pure. Qed.

Lemma keeps_weights_bind {A B : Type} (m : method FG A)
    (k : A -> method FG B) :
  keeps_weights m -> (forall a, keeps_weights (k a)) ->
  keeps_weights (bind m k).
Proof.
  intros Hm Hk st. unfold bind.
  destruct (Hm st) as (T1 & C1 & M1).
  destruct (m st) as [[a|e] st1]; simpl in *; [|repeat split; assumption].
  destruct (Hk a st1) as (T2 & C2 & M2).
  repeat split; congruence.
Qed.

Lemma keeps_weights_when (c : bool) (m : method FG unit) :
  keeps_weights m -> keeps_weights (when c m).
Proof. intros Hm. destruct c; [exact Hm|apply keeps_weights_ret]. Qed.

Lemma keeps_weights_sg_print (msg : message) :
  keeps_weights (sg_print msg : method FG unit).
Proof. intros st. simpl. repeat split. Qed.

Lemma keeps_weights_update_sample (feat_idx : Z) (c : fg_call)
    (f : FG -> FG) :
  keeps_weights (update_sample feat_idx c f).
Proof.
  intros st. unfold update_sample.
  destruct (vget (m_features st) feat_idx); simpl; repeat split.
Qed.

Lemma keeps_weights_query_sample {A : Type} (feat_idx : Z) (c : fg_call)
    (f : FG -> A) :
  keeps_weights (query_sample feat_idx c f).
Proof.
  intros st. unfold query_sample.
  destruct (vget (m_features st) feat_idx); simpl; repeat split.
Qed.

Lemma keeps_weights_get_joint_feature_vector (feat_idx : Z)
    (y : CFactorGraphObservation) :
  keeps_weights (get_joint_feature_vector feat_idx y).
Proof.
  unfold get_joint_feature_vector.
  apply keeps_weights_bind; [apply keeps_weights_pure|]. intros _.
  apply keeps_weights_bind; [apply keeps_weights_query_sample|].
  intros facs st.
  destruct (new_vector 0%float (get_dim st)); [|simpl; repeat split].
  simpl. destruct (accumulate_factors _ _ _ _); simpl; repeat split.
Qed.

Lemma keeps_weights_print_summary w r ss sg e1 e2 :
  keeps_weights (print_summary w r ss sg e1 e2 : method FG unit).
Proof.
  unfold print_summary.
  apply keeps_weights_bind; [apply keeps_weights_lift|]. intros dot_pred.
  apply keeps_weights_bind; [apply keeps_weights_lift|]. intros dot_truth.
  apply keeps_weights_sg_print.
Qed.

Lemma keeps_weights_get_sample (feat_idx : Z) :
  keeps_weights (get_sample feat_idx : method FG FG).
Proof. apply keeps_weights_pure. Qed.

Lemma keeps_weights_get_label (feat_idx : Z) :
  keeps_weights (get_label feat_idx : method FG _).
Proof. apply keeps_weights_pure. Qed.

Ltac keeps_weights_block :=
  repeat first
    [ apply keeps_weights_ret
    | apply keeps_weights_lift
    | apply keeps_weights_get_sample
    | apply keeps_weights_get_label
    | apply keeps_weights_when
    | apply keeps_weights_sg_print
    | apply keeps_weights_update_sample
    | apply keeps_weights_query_sample
    | apply keeps_weights_get_joint_feature_vector
    | apply keeps_weights_print_summary
    | apply keeps_weights_bind; [|intros ?]
    | apply keeps_weights_pure
    | match goal with
      | |- keeps_weights (match ?x with TREE_MAX_PROD => _ | _ => _ end) =>
          destruct x
      | |- keeps_weights (let '(_, _) := ?x in _) => destruct x
      end ].

Lemma keeps_weights_run {A : Type} (m : method FG A) st (r : result A) st' :
  keeps_weights m -> m st = (r, st') ->
  m_factor_types st' = m_factor_types st /\
  m_w_cache st' = m_w_cache st /\ m_w_map st' = m_w_map st.
Proof. intros Hm Hrun. specialize (Hm st). now rewrite Hrun in Hm. Qed.

Ltac kept H T C M :=
  match type of H with
  | ?m ?s = _ =>
      let K := fresh "K" in
      assert (K : keeps_weights m) by keeps_weights_block;
      apply (keeps_weights_run _ _ _ _ K) in H as (T & C & M); clear K
  end.

(** A call of [w_to_fparams] that returns has found the cache equal to [w]
    and done nothing, or has found it as long as [w] and made [w] the
    cache. *)
Lemma w_to_fparams_returns (w : list float) st st' :
  w_to_fparams w st = (Ok tt, st') ->
  (equals (m_w_cache st) w = true /\ st' = st) \/
  (equals (m_w_cache st) w = false /\ size w = size (m_w_cache st) /\
   m_w_cache st' = w /\ m_w_map st' = m_w_map st).
Proof.
  unfold w_to_fparams. destruct (equals (m_w_cache st) w) eqn:E.
  - intros [= <-]. now left.
  - right. split; [reflexivity|].
    set (st0 := if m_verbose st then _ else st) in *.
    assert (E0 : m_w_cache st0 = m_w_cache st /\ m_w_map st0 = m_w_map st)
      by (unfold st0; now destruct (m_verbose st)).
    destruct E0 as [C0 M0]. rewrite C0 in H.
    destruct (Z.eqb_spec (size w) (size (m_w_cache st))) as [Hlen|];
      [|discriminate].
    cbn [negb] in H. split; [exact Hlen|].
    destruct (w_to_fparams_loop _ _ _ _) as [[offset fts]|]; [|discriminate].
    destruct (offset =? _); [|discriminate].
    injection H as <-. simpl. now split.
Qed.

(** X13.  The weights after a call of [argmax] that returns.  The parameter
    map is as before.  Either the cache was equal to [w], and the
    registered types and the cache are as before; or it was as long as [w],
    and [w] is the cache now.  In a consistent model with the cache in step,
    [w] has [get_dim()] entries, the model is consistent with its cache in
    step afterwards, and when the cache was not equal to [w] every
    registered type holds its block of [w]. *)
Theorem argmax_writes_weights (w : list float) (feat_idx : Z)
    (training : bool) st (rs : CResultSet) st' :
  argmax w feat_idx training st = (Ok rs, st') ->
  m_w_map st' = m_w_map st /\
  ((equals (m_w_cache st) w = true /\
    m_factor_types st' = m_factor_types st /\
    m_w_cache st' = m_w_cache st) \/
   (equals (m_w_cache st) w = false /\
    size w = size (m_w_cache st) /\ m_w_cache st' = w)) /\
  (registry_inv st -> cache_inv st ->
   size w = get_dim st /\ registry_inv st' /\ cache_inv st' /\
   (equals (m_w_cache st) w = false ->
    m_factor_types st' = distribute (m_factor_types st) w)).
Proof.
  intros H. unfold argmax in H.
  apply bind_ok in H as (fg0 & s1 & H1 & H).
  apply bind_ok in H as (u2 & s2 & H2 & H).
  apply bind_ok in H as (inf & s3 & H3 & H).
  apply bind_ok in H as (u4 & s4 & H4 & H).
  apply bind_ok in H as (verbose & s5 & H5 & H).
  apply bind_ok in H as (u6 & s6 & H6 & H).
  apply bind_ok in H as (u7 & s7 & H7 & H).
  kept H1 T1 C1 M1. kept H2 T2 C2 M2. injection H3 as _ <-.
  kept H4 T4 C4 M4. injection H5 as _ <-. kept H6 T6 C6 M6.
  kept H T8 C8 M8.
  assert (T : m_factor_types s6 = m_factor_types st) by congruence.
  assert (C : m_w_cache s6 = m_w_cache st) by congruence.
  assert (M : m_w_map s6 = m_w_map st) by congruence.
  clear T1 C1 M1 T2 C2 M2 T4 C4 M4 T6 C6 M6.
  destruct u7.
  pose proof (w_to_fparams_returns w s6 s7 H7) as Hw.
  rewrite C in Hw.
  split; [destruct Hw as [[_ ->]|(_ & _ & _ & M7)]; congruence|].
  split.
  { destruct Hw as [[E ->]|(E & Hlen & C7 & _)].
    - left. repeat split; [exact E|congruence|congruence].
    - right. repeat split; [exact E|exact Hlen|congruence]. }
  intros Hinv Hcache.
  assert (Hinv6 : registry_inv s6)
    by (unfold registry_inv in *; now rewrite T, M).
  assert (Hcache6 : cache_inv s6)
    by (unfold cache_inv in *; now rewrite T, C).
  assert (Hsz : size (m_w_cache st) = get_dim st).
  { destruct Hinv as (_ & Hwf & Hmap). unfold get_dim.
    now rewrite Hcache, (size_blocks_weights _ Hwf), Hmap. }
  assert (Hdim : size w = get_dim st).
  { destruct Hw as [[E _]|(_ & Hlen & _)]; [|congruence].
    apply equals_size in E. congruence. }
  split; [exact Hdim|].
  destruct (equals (m_w_cache st) w) eqn:E.
  - destruct Hw as [[_ ->]|(? & _)]; [|discriminate].
    split; [|split; [|discriminate]].
    + unfold registry_inv in *. now rewrite T8, M8, T, M.
    + unfold cache_inv in *. now rewrite T8, C8, T, C.
  - assert (Hdim6 : size w = get_dim s6) by (unfold get_dim in *; congruence).
    rewrite (w_to_fparams_update s6 w Hinv6 ltac:(congruence)
               ltac:(congruence) Hdim6) in H7.
    injection H7 as <-.
    assert (T7 : m_factor_types st' = distribute (m_factor_types st) w)
      by (rewrite T8; simpl; now rewrite T).
    assert (C7 : m_w_cache st' = w) by (now rewrite C8).
    assert (M7 : m_w_map st' = m_w_map st)
      by (rewrite M8; destruct (m_verbose s6); simpl; exact M).
    destruct Hinv as (Hnd & Hwf & Hmap).
    assert (Hblocks : size w = size (blocks (m_factor_types st)))
      by (unfold get_dim in Hdim; now rewrite <- Hmap).
    split; [|split; [|intros _; exact T7]].
    + unfold registry_inv. rewrite T7, M7, distribute_ids, distribute_blocks.
      split; [exact Hnd|]. split; [now apply distribute_wf|exact Hmap].
    + unfold cache_inv. rewrite T7, C7.
      symmetry. now apply distribute_weights.
Qed.

Ltac map_kept H M :=
  match type of H with
  | ?m ?s = _ =>
      let K := fresh "K" in
      assert (K : keeps_weights m) by keeps_weights_block;
      pose proof (keeps_weights_run _ _ _ _ K H) as (_ & _ & M); clear K
  end.

Ltac quiet_steps :=
  repeat first
    [ apply quiet_ret
    | apply quiet_lift
    | apply quiet_when
    | apply quiet_sg_print; reflexivity
    | apply quiet_query_sample; reflexivity
    | apply quiet_print_summary; reflexivity
    | apply quiet_bind; [|intros ?]
    | match goal with
      | |- quiet _ (match ?x with TREE_MAX_PROD => _ | _ => _ end) => destruct x
      end ].

(** X18.  The feature vectors in the result of a call of [argmax] that
    returns.  [psi_truth] is the joint feature vector of the ground-truth
    label and [psi_pred] that of the label the inference returned, both over
    the parameter map of the model and with [get_dim()] entries; the factors
    are those of the graph of the example at the time: for [psi_truth] the
    connected graph with its energies computed, for [psi_pred] the graph as
    the inference left it. *)
Theorem argmax_feature_vectors (w : list float) (feat_idx : Z)
    (training : bool) st (rs : CResultSet) st' :
  argmax w feat_idx training st = (Ok rs, st') ->
  exists fg0 y_truth,
    m_features st !! Z.to_nat feat_idx = Some fg0 /\
    m_labels st !! Z.to_nat feat_idx = Some y_truth /\
    let fg1 := compute_energies (m_factor_types st') (connect_components fg0) in
    let fg2 := if training then loss_augmentation fg1 y_truth else fg1 in
    let fg3 := fst (map_inference (m_inf_type st) fg2) in
    let y_star := snd (map_inference (m_inf_type st) fg2) in
    psi_computed rs = true /\
    psi_truth rs = psi_spec (m_w_map st) (get_data y_truth) (get_factors fg1) /\
    psi_pred rs = psi_spec (m_w_map st) (get_data y_star) (get_factors fg3) /\
    size (psi_truth rs) = get_dim st /\
    size (psi_pred rs) = get_dim st.
Proof.
  intros H. unfold argmax in H.
  apply bind_ok in H as (fg0 & s & H1 & H).
  apply get_sample_ok in H1 as (-> & Hidx & Hfg0).
  assert (S : at_stage feat_idx st st fg0 (m_factor_types st) []).
  { repeat split; [assumption|now rewrite app_nil_r]. }
  (* connect_components *)
  apply bind_ok in H as (u1 & s1 & H1 & H). map_kept H1 M1.
  apply (stage_update _ _ _ _ _ _ _ _ _ _ S) in H1.
  clear S. rename H1 into S.
  (* the tree requirement *)
  apply bind_ok in H as (inf_type & s2 & H1 & H). injection H1 as <- <-.
  pose proof S as (_ & _ & _ & _ & _ & Hinf). rewrite Hinf in H.
  apply bind_ok in H as (u2 & s2 & H1 & H). map_kept H1 M2.
  eapply (stage_quiet _ _ is_plain) in H1 as (e_tree & S1 & _);
    [|quiet_steps|exact S].
  clear S. rename S1 into S.
  (* verbose *)
  apply bind_ok in H as (verbose & s3 & H1 & H). injection H1 as <- <-.
  pose proof S as (_ & _ & _ & _ & Hverbose & _). rewrite Hverbose in H.
  apply bind_ok in H as (u3 & s3 & H1 & H). map_kept H1 M3.
  eapply (stage_quiet _ _ is_plain) in H1 as (e_ex & S1 & _);
    [|quiet_steps|exact S].
  clear S. rename S1 into S.
  (* w_to_fparams, compute_energies *)
  apply bind_ok in H as (u4 & s4 & H1 & H).
  assert (M4 : m_w_map s4 = m_w_map s3).
  { pose proof (w_to_fparams_frame w s3) as F. rewrite H1 in F. apply F. }
  apply (stage_w_to_fparams _ _ _ _ _ _ _ _ _ S) in H1 as (e_w & S1 & _).
  clear S. rename S1 into S.
  apply bind_ok in H as (fts & s5 & H1 & H). injection H1 as <- <-.
  apply bind_ok in H as (u5 & s5 & H1 & H). map_kept H1 M5.
  apply (stage_update _ _ _ _ _ _ _ _ _ _ S) in H1.
  clear S. rename H1 into S.
  apply bind_ok in H as (u6 & s6 & H1 & H). map_kept H1 M6.
  eapply (stage_quiet _ _ is_plain) in H1 as (e_before & S1 & _);
    [|quiet_steps|exact S].
  clear S. rename S1 into S.
  (* y_truth *)
  apply bind_ok in H as (y_truth & s7 & H1 & H).
  apply get_label_ok in H1 as (-> & Hlabel).
  pose proof S as (_ & _ & _ & Hlabels & _).
  rewrite Hlabels in Hlabel.
  (* psi_truth and the energy of the truth *)
  apply bind_ok in H as (psi_truth_v & s8 & H1 & H). map_kept H1 M8.
  destruct (get_joint_feature_vector_inv _ _ _ _ _ H1)
    as (fg_truth & _ & Hfg_truth & _ & Hpsi_truth & Hsize_truth & _).
  pose proof S as (Hfg1 & _). rewrite Hfg1 in Hfg_truth.
  injection Hfg_truth as <-.
  apply (stage_joint_feature_vector _ _ _ _ _ _ _ _ _ S) in H1.
  clear S. rename H1 into S.
  apply bind_ok in H as (energy_gt & s9 & H1 & H). map_kept H1 M9.
  apply (stage_query _ _ _ _ _ _ _ _ _ _ S) in H1 as (-> & S1).
  clear S. rename S1 into S.
  set (fg1 := compute_energies (m_factor_types s4) (connect_components fg0))
    in *.
  (* loss augmentation *)
  apply bind_ok in H as (u7 & s10 & H1 & H). map_kept H1 M10.
  assert (exists evs,
            at_stage feat_idx st s10
              (if training then loss_augmentation fg1 y_truth else fg1)
              (m_factor_types s4) evs) as (evs10 & S1).
  { destruct training; simpl in H1.
    - apply bind_ok in H1 as (u8 & s11 & H2 & H1).
      apply (stage_update _ _ _ _ _ _ _ _ _ _ S) in H2.
      eapply (stage_quiet _ _ is_plain) in H1 as (e_after & S1 & _);
        [|quiet_steps|exact H2].
      eexists. exact S1.
    - injection H1 as _ <-. eexists. exact S. }
  clear S H1. rename S1 into S.
  set (fg2 := if training then loss_augmentation fg1 y_truth else fg1) in *.
  (* inference *)
  apply bind_ok in H as (fg2' & s11 & H1 & H).
  apply get_sample_ok in H1 as (-> & _ & Hfg2).
  pose proof S as (Hfg2'' & _). rewrite Hfg2'' in Hfg2. injection Hfg2 as <-.
  destruct (map_inference (m_inf_type st) fg2) as [fg3 y_star] eqn:Hmap.
  apply bind_ok in H as (u9 & s12 & H1 & H). map_kept H1 M12.
  apply (stage_update _ _ _ _ _ _ _ _ _ _ S) in H1.
  clear S. rename H1 into S.
  apply bind_ok in H as (u10 & s13 & H1 & H). map_kept H1 M13.
  apply (stage_query _ _ _ _ _ _ _ _ _ _ S) in H1 as (_ & S1).
  clear S. rename S1 into S.
  apply bind_ok in H as (psi_pred_v & s14 & H1 & H). map_kept H1 M14.
  destruct (get_joint_feature_vector_inv _ _ _ _ _ H1)
    as (fg_pred & _ & Hfg_pred & _ & Hpsi_pred & Hsize_pred & _).
  pose proof S as (Hfg3 & _). rewrite Hfg3 in Hfg_pred.
  injection Hfg_pred as <-.
  apply (stage_joint_feature_vector _ _ _ _ _ _ _ _ _ S) in H1.
  clear S. rename H1 into S.
  apply bind_ok in H as (l_energy_pred & s15 & H1 & H).
  apply (stage_query _ _ _ _ _ _ _ _ _ _ S) in H1 as (-> & S1).
  clear S. rename S1 into S.
  apply bind_ok in H as (delta_v & s16 & H1 & H). injection H1 as Hdelta <-.
  apply bind_ok in H as (u11 & s17 & H1 & H).
  eapply (stage_quiet _ _ is_plain) in H1 as (e_sum & S1 & _);
    [|quiet_steps|exact S].
  clear S. rename S1 into S.
  injection H as <- <-.
  destruct S as (_ & Hfts' & _).
  assert (Mtruth : m_w_map s6 = m_w_map st) by congruence.
  assert (Mpred : m_w_map s13 = m_w_map st) by congruence.
  exists fg0, y_truth.
  split; [assumption|]. split; [assumption|].
  cbv zeta. rewrite Hfts'. fold fg1. fold fg2. rewrite Hmap. cbn [fst snd].
  cbn [psi_computed psi_truth psi_pred].
  unfold get_dim in *. rewrite Mtruth in Hpsi_truth, Hsize_truth.
  rewrite Mpred in Hpsi_pred, Hsize_pred.
  repeat split; assumption.
Qed.

End ArgmaxWeights.

Lemma argmax_writes_weights_witness :
  registry_inv unary_model /\ cache_inv unary_model /\
  exists rs,
    argmax [1; 2; 3; 4]%float 0 true unary_model
    = (Ok rs, snd (argmax [1; 2; 3; 4]%float 0 true unary_model)) /\
    size [1; 2; 3; 4]%float = get_dim unary_model /\
    cache_inv (snd (argmax [1; 2; 3; 4]%float 0 true unary_model)) /\
    m_factor_types (snd (argmax [1; 2; 3; 4]%float 0 true unary_model))
    = distribute (m_factor_types unary_model) [1; 2; 3; 4]%float.
Proof.
  assert (Hinv : registry_inv unary_model) by consistent_registry.
  assert (Hcache : cache_inv unary_model) by reflexivity.
  split; [exact Hinv|]. split; [exact Hcache|].
  destruct (argmax [1; 2; 3; 4]%float 0 true unary_model) as [[rs|e] st']
    eqn:Hrun; [|vm_compute in Hrun; discriminate Hrun].
  exists rs. split; [reflexivity|].
  destruct (argmax_writes_weights _ _ _ _ _ _ Hrun) as (_ & _ & Hcons).
  destruct (Hcons Hinv Hcache) as (Hdim & _ & Hcache' & Htypes).
  split; [exact Hdim|]. split; [exact Hcache'|].
  exact (Htypes eq_refl).
Defined.

(** ** The bounds of the graph-cut mode can be met *)

Lemma lb_block_nonpositive (ft : CFactorType) :
  Forall (fun l => PrimFloat.leb l 0%float = true) (lb_block ft).
Proof.
  unfold lb_block. destruct (is_pairwise_binary _).
  - repeat constructor.
  - apply Forall_replicate. reflexivity.
Qed.

Lemma ub_block_nonnegative (ft : CFactorType) :
  Forall (fun u => PrimFloat.leb 0%float u = true) (ub_block ft).
Proof.
  unfold ub_block. destruct (is_pairwise_binary _).
  - repeat constructor.
  - apply Forall_replicate. reflexivity.
Qed.

Lemma lb_block_below_ub_block (ft : CFactorType) :
  Forall2 (fun l u => PrimFloat.leb l u = true) (lb_block ft) (ub_block ft).
Proof.
  unfold lb_block, ub_block. destruct (is_pairwise_binary _).
  - repeat constructor.
  - apply Forall2_replicate. reflexivity.
Qed.

Section PrimalOptBounds.

Context {FG : Type}.
Implicit Types st : CFactorGraphModel FG.

(** X14.  [init_primal_opt] in the mode [GRAPH_CUT].  The bounds that come
    out do not depend on the vectors [lb] and [ub] that go in.  In a
    consistent registry whose pairwise binary types have four weights the
    call returns, every lower bound is at most [0], every upper bound is at
    least [0], and every lower bound is at most its upper bound: the zero
    vector meets the bounds. *)
Theorem init_primal_opt_graph_cut_bounds st (regularization : float)
    (lb ub : list float) :
  m_inf_type st = GRAPH_CUT ->
  (forall lb' ub',
     init_primal_opt regularization lb' ub' st
     = init_primal_opt regularization lb ub st) /\
  (registry_inv st -> Forall supported (m_factor_types st) ->
   exists r,
     init_primal_opt regularization lb ub st = Ok r /\
     Forall (fun l => PrimFloat.leb l 0%float = true) (opt_lb r) /\
     Forall (fun u => PrimFloat.leb 0%float u = true) (opt_ub r) /\
     Forall2 (fun l u => PrimFloat.leb l u = true) (opt_lb r) (opt_ub r)).
Proof.
  intros Hmode. split.
  - intros lb' ub'. now rewrite !init_primal_opt_graph_cut.
  - intros (Hnd & Hwf & Hmap) Hsup.
    rewrite init_primal_opt_graph_cut by assumption. rewrite Hmap.
    pose proof (constrain_types_blocks (m_factor_types st) [] [] [] [] [] [])
      as H.
    rewrite !app_nil_r in H. cbn [app] in H.
    rewrite H by (assumption || reflexivity). clear H.
    eexists. split; [reflexivity|]. cbn [opt_lb opt_ub fst snd].
    clear. induction (m_factor_types st) as [|ft fts (IHl & IHu & IHb)].
    + repeat split; constructor.
    + simpl. repeat split.
      * apply Forall_app. split; [apply lb_block_nonpositive|exact IHl].
      * apply Forall_app. split; [apply ub_block_nonnegative|exact IHu].
      * apply Forall2_app; [apply lb_block_below_ub_block|exact IHb].
Qed.

End PrimalOptBounds.

Lemma init_primal_opt_graph_cut_bounds_witness :
  m_inf_type graph_cut_model = GRAPH_CUT /\
  registry_inv graph_cut_model /\
  Forall supported (m_factor_types graph_cut_model) /\
  init_primal_opt 2%float [7%float] [] graph_cut_model
  = init_primal_opt 2%float [] [] graph_cut_model /\
  exists r,
    init_primal_opt 2%float [] [] graph_cut_model = Ok r /\
    Forall2 (fun l u => PrimFloat.leb l u = true) (opt_lb r) (opt_ub r).
Proof.
  assert (Hmode : m_inf_type graph_cut_model = GRAPH_CUT) by reflexivity.
  assert (Hinv : registry_inv graph_cut_model) by consistent_registry.
  assert (Hsup : Forall supported (m_factor_types graph_cut_model)).
  { apply Forall_cons. split; [intros H; discriminate H|].
    apply Forall_cons. split; [intros _; reflexivity|apply Forall_nil; exact I]. }
  split; [exact Hmode|]. split; [exact Hinv|]. split; [exact Hsup|].
  destruct (init_primal_opt_graph_cut_bounds graph_cut_model 2%float [] []
              Hmode) as [Hsame Hbounds].
  split; [exact (Hsame [7%float] [])|].
  destruct (Hbounds Hinv Hsup) as (r & Hr & _ & _ & Hle).
  exists r. split; [exact Hr|exact Hle].
Defined.

(** ** Collecting the weights *)

Lemma fparams_to_w_loop_prefix (fts : list CFactorType) :
  forall (pre post : list CFactorType) (A B R : list float),
    NoDup (map get_type_id (pre ++ fts ++ post)) ->
    Forall wf_type fts ->
    size A = size (blocks pre) ->
    size B = size (blocks fts) ->
    fparams_to_w_loop (fts ++ post) (blocks (pre ++ fts ++ post))
      (size (blocks pre)) (A ++ B ++ R)
    = fparams_to_w_loop post (blocks (pre ++ fts ++ post))
        (size (blocks (pre ++ fts))) (A ++ weights_of fts ++ R).
Proof.
  induction fts as [|ft fts IH]; intros pre post A B R Hnd Hwf HA HB.
  - simpl. rewrite app_nil_r. destruct B; [reflexivity|].
    unfold size in HB. simpl in HB. lia.
  - apply Forall_cons in Hwf as [[Hpos Hsz] Hwf].
    cbn [fparams_to_w_loop app].
    rewrite (find_blocks pre (fts ++ post) ft) by (assumption || lia).
    unfold size at 1. rewrite length_seqZ, Hsz.
    replace (Z.of_nat (Z.to_nat (get_w_dim ft)) =? get_w_dim ft) with true
      by (symmetry; apply Z.eqb_eq; lia).
    cbn [ASSERT].
    change (blocks (ft :: fts)) with (block ft ++ blocks fts) in HB.
    rewrite size_app, size_block in HB by lia.
    destruct (app_split_size B (get_w_dim ft)) as (B1 & B2 & -> & HB1).
    { pose proof (size_nonneg (blocks fts)). lia. }
    rewrite size_app in HB.
    rewrite <- HA, <- (app_assoc B1 B2 R), scatter_block by assumption.
    replace (pre ++ ft :: fts ++ post) with ((pre ++ [ft]) ++ fts ++ post) in *
      by now rewrite <- app_assoc.
    replace (size A + get_w_dim ft) with (size (blocks (pre ++ [ft]))).
    2:{ rewrite blocks_app, size_app. unfold blocks at 2. simpl.
        rewrite app_nil_r, size_block by lia. lia. }
    replace (A ++ get_w ft ++ B2 ++ R) with ((A ++ get_w ft) ++ B2 ++ R)
      by now rewrite <- app_assoc.
    rewrite (IH (pre ++ [ft])); try assumption.
    + replace (pre ++ ft :: fts) with ((pre ++ [ft]) ++ fts)
        by now rewrite <- app_assoc.
      f_equal. unfold weights_of. simpl. now rewrite <- !app_assoc.
    + rewrite <- app_assoc. exact Hnd.
    + rewrite size_app, blocks_app, size_app. unfold blocks at 2. simpl.
      rewrite app_nil_r, size_block by lia. lia.
    + lia.
Qed.

Section Collecting.

Context {FG : Type}.
Implicit Types st : CFactorGraphModel FG.

(** X15.  [fparams_to_w()] in a consistent registry, whatever the cache
    holds: the call returns a vector of [get_dim()] entries, makes it the
    cache and changes nothing else; the entry at the [k]-th slot of a
    registered type is the [k]-th weight of the type; a second call returns
    the same vector and changes nothing. *)
Theorem fparams_to_w_by_slots st :
  registry_inv st ->
  exists W,
    fparams_to_w st = (Ok W, with_w_cache W st) /\
    size W = get_dim st /\
    (forall ft, ft ∈ m_factor_types st ->
       forall (k : nat) slot,
         get_params_mapping st (get_type_id ft) !! k = Some slot ->
         W !! Z.to_nat slot = get_w ft !! k) /\
    fparams_to_w (with_w_cache W st) = (Ok W, with_w_cache W st).
Proof.
  intros Hinv. exists (weights_of (m_factor_types st)).
  split; [now apply fparams_to_w_consistent|].
  pose proof Hinv as (Hnd & Hwf & Hmap).
  split; [unfold get_dim; rewrite Hmap; now apply size_blocks_weights|].
  split.
  - intros ft Hin k slot Hk.
    apply list_elem_of_split in Hin as (pre & post & Hfts).
    unfold get_params_mapping in Hk. rewrite Hmap, Hfts in *.
    apply Forall_app in Hwf as [Hpre Hwf].
    apply Forall_cons in Hwf as [[Hpos Hsz] _].
    rewrite (find_blocks pre post ft Hnd ltac:(lia)) in Hk.
    apply lookup_seqZ in Hk as [-> Hk].
    unfold weights_of. rewrite flat_map_app. simpl.
    pose proof (size_blocks_weights pre Hpre) as Hlen.
    unfold weights_of, size in Hlen.
    rewrite lookup_app_r by (unfold size; lia).
    rewrite lookup_app_l by (unfold size in *; lia).
    f_equal. unfold size. lia.
  - now rewrite (fparams_to_w_consistent (with_w_cache _ st) Hinv).
Qed.

(** X16.  [add_factor_type] of a type with a new id and a positive [w_dim]
    whose weight vector does not have [w_dim] entries, in a consistent
    model: the assertion of [fparams_to_w] that compares the slots of a type
    with its weights fails. *)
Theorem add_factor_type_weights_mismatch (ftype : CFactorType) st :
  registry_inv st ->
  0 < get_w_dim ftype ->
  get_type_id ftype ∉ map get_type_id (m_factor_types st) ->
  size (get_w ftype) <> get_w_dim ftype ->
  fst (add_factor_type ftype st) = Err AssertionFailed.
Proof.
  intros (Hnd & Hwf & Hmap) Hdim Hfresh Hsz. unfold add_factor_type.
  destruct (Z.gtb_spec (get_w_dim ftype) 0); [|lia]. simpl.
  pose proof Hfresh as Hfresh'. apply has_type_id_false in Hfresh'.
  rewrite Hfresh'. rewrite extend_w_map_spec by lia.
  set (fts := m_factor_types st) in *.
  set (n := Z.to_nat (get_w_dim ftype)).
  assert (Hnd1 : NoDup (map get_type_id (fts ++ [ftype]))).
  { rewrite map_app. apply NoDup_app. split; [exact Hnd|]. split.
    - intros x Hx Hx'. apply list_elem_of_singleton in Hx'. now subst.
    - apply NoDup_singleton. }
  assert (Hmap1 : m_w_map st ++ replicate n (get_type_id ftype)
                  = blocks (fts ++ [ftype])).
  { rewrite blocks_app, Hmap. unfold blocks at 2. simpl.
    now rewrite app_nil_r. }
  rewrite Hmap1. unfold fparams_to_w, get_dim.
  cbn [m_w_cache m_w_map m_factor_types with_w_map with_factor_types].
  fold fts.
  set (dim := size (blocks (fts ++ [ftype]))).
  assert (Hdim1 : dim = size (blocks fts) + get_w_dim ftype).
  { unfold dim. rewrite blocks_app, size_app. unfold blocks at 2. simpl.
    rewrite app_nil_r, size_block by lia. lia. }
  assert (Hcache : exists c,
            (if negb (size (m_w_cache st) =? dim)
             then resize_vector 0%float (m_w_cache st) dim
             else Ok (m_w_cache st)) = Ok c /\ size c = dim).
  { destruct (Z.eqb_spec (size (m_w_cache st)) dim) as [E|E]; simpl.
    - eauto.
    - unfold resize_vector.
      destruct (Z.ltb_spec dim 0);
        [pose proof (size_nonneg (blocks fts)); lia|].
      eexists. split; [reflexivity|]. unfold size in *.
      rewrite length_app, length_take, length_replicate. lia. }
  destruct Hcache as (c & -> & Hc). cbn.
  destruct (app_split_size c (size (blocks fts))) as (B & R & -> & HB).
  { pose proof (size_nonneg (blocks fts)). lia. }
  pose proof (fparams_to_w_loop_prefix fts [] [ftype] [] B R) as Hloop.
  cbn [app] in Hloop. change (size (blocks [])) with 0 in Hloop.
  rewrite Hloop by (assumption || reflexivity). clear Hloop.
  cbn [fparams_to_w_loop].
  rewrite <- (app_nil_r (fts ++ [ftype])) at 1. rewrite <- app_assoc.
  cbn [app].
  rewrite (find_blocks fts [] ftype Hnd1 ltac:(lia)).
  unfold size at 1. rewrite length_seqZ.
  destruct (Z.eqb_spec (Z.of_nat (Z.to_nat (get_w_dim ftype)))
              (size (get_w ftype))); [lia|].
  reflexivity.
Qed.

End Collecting.

Lemma fparams_to_w_by_slots_witness :
  registry_inv model_B /\
  size (m_w_cache model_B) = 5 /\
  get_params_mapping model_B (get_type_id type_B) !! 2%nat = Some 2 /\
  exists W,
    fparams_to_w model_B = (Ok W, with_w_cache W model_B) /\
    size W = 3 /\
    W !! Z.to_nat 2 = Some 1%float.
Proof.
  assert (Hinv : registry_inv model_B) by consistent_registry.
  split; [exact Hinv|]. do 2 (split; [reflexivity|]).
  destruct (fparams_to_w_by_slots model_B Hinv) as (W & Hrun & Hsize & Hslot & _).
  exists W. split; [exact Hrun|]. split; [exact Hsize|].
  exact (Hslot type_B ltac:(left) 2%nat 2 eq_refl).
Defined.

Lemma add_factor_type_weights_mismatch_witness :
  registry_inv model_A /\
  0 < get_w_dim type_short_weights /\
  (get_type_id type_short_weights ∉ map get_type_id (m_factor_types model_A)) /\
  size (get_w type_short_weights) <> get_w_dim type_short_weights /\
  fst (add_factor_type type_short_weights model_A) = Err AssertionFailed.
Proof.
  assert (Hinv : registry_inv model_A) by consistent_registry.
  assert (Hdim : 0 < get_w_dim type_short_weights) by reflexivity.
  assert (Hfresh : get_type_id type_short_weights
                   ∉ map get_type_id (m_factor_types model_A))
    by (vm_compute; absent_id).
  assert (Hsz : size (get_w type_short_weights) <> get_w_dim type_short_weights)
    by (vm_compute; discriminate).
  split; [exact Hinv|]. split; [exact Hdim|]. split; [exact Hfresh|].
  split; [exact Hsz|].
  exact (add_factor_type_weights_mismatch type_short_weights model_A
           Hinv Hdim Hfresh Hsz).
Defined.

(** ** Scaling the columns of a matrix *)

Module SumOneMatrixFacts.
Import SumOneMatrix.

Section Columns.

Variable sum_of : list float -> float.
Variable scale_of : list float -> float -> list float.
Hypothesis scale_of_length :
  forall l alpha, length (scale_of l alpha) = length l.

Lemma columns_done_S (rows : nat) (buf : list float) (n : nat) :
  columns_done sum_of scale_of rows buf (S n)
  = columns_done sum_of scale_of rows buf n
    ++ sum_one sum_of scale_of (column rows buf n).
Proof.
  unfold columns_done. rewrite seq_S, flat_map_app. simpl.
  now rewrite app_nil_r.
Qed.

Lemma length_columns_done (rows : nat) (buf : list float) (n : nat) :
  (n * rows <= length buf)%nat ->
  length (columns_done sum_of scale_of rows buf n) = (n * rows)%nat.
Proof.
  induction n as [|n IH]; intros Hn; [reflexivity|].
  rewrite columns_done_S, length_app, IH by lia.
  unfold sum_one, column.
  rewrite scale_of_length, length_take, length_drop. lia.
Qed.

(** One turn of the loop of lines 47-52. *)
Lemma scale_column (m : SGMatrix) (h : gmap positive (list float))
    (buf : list float) (j : Z) :
  0 <= num_rows m ->
  0 <= j < num_cols m ->
  size buf = num_rows m * num_cols m ->
  let rows := Z.to_nat (num_rows m) in
  let h_j :=
    <[matrix m := columns_done sum_of scale_of rows buf (Z.to_nat j)
                  ++ drop (Z.to_nat j * rows) buf]> h in
  (let* s := linalg_sum sum_of h_j (get_column m j) in
   linalg_scale scale_of h_j (get_column m j) (get_column m j) (1 / s)%float)
  = Ok (<[matrix m := columns_done sum_of scale_of rows buf (Z.to_nat (j + 1))
                      ++ drop (Z.to_nat (j + 1) * rows) buf]> h).
Proof.
  intros Hrows Hj Hsize rows h_j.
  set (done := columns_done sum_of scale_of rows buf (Z.to_nat j)).
  assert (Hroom : (Z.to_nat (j + 1) * rows <= length buf)%nat).
  { unfold size in Hsize. subst rows. nia. }
  assert (Hj1 : Z.to_nat (j + 1) = S (Z.to_nat j)) by lia.
  assert (Hdone : length done = (Z.to_nat j * rows)%nat).
  { apply length_columns_done. lia. }
  assert (Hfirst : Z.to_nat (j * num_rows m) = (Z.to_nat j * rows)%nat).
  { subst rows. rewrite Z2Nat.inj_mul by lia. reflexivity. }
  set (cur := done ++ drop (Z.to_nat j * rows) buf).
  assert (Hcur : length cur = length buf).
  { unfold cur. rewrite length_app, length_drop, Hdone. lia. }
  assert (Hin : in_buffer (get_column m j) cur = true).
  { unfold in_buffer, get_column, size. cbn [view_first view_len].
    rewrite Hcur.
    destruct (Z.leb_spec 0 (j * num_rows m)); [|nia].
    destruct (Z.leb_spec 0 (num_rows m)); [|lia].
    destruct (Z.leb_spec (j * num_rows m + num_rows m)
                (Z.of_nat (length buf))); [reflexivity|].
    unfold size in Hsize. nia. }
  assert (Hcol : view_contents h_j (get_column m j)
                 = Some (column rows buf (Z.to_nat j))).
  { unfold view_contents. cbn [get_column view_base]. unfold h_j.
    rewrite lookup_insert_eq. fold done. fold cur. rewrite Hin.
    cbn [get_column view_first view_len]. f_equal.
    rewrite Hfirst. unfold cur, column. fold rows.
    now rewrite <- Hdone, drop_app_length. }
  unfold linalg_sum, linalg_scale. rewrite Hcol. cbn.
  fold (sum_one sum_of scale_of (column rows buf (Z.to_nat j))).
  set (xs := sum_one sum_of scale_of (column rows buf (Z.to_nat j))).
  assert (Hxs : length xs = rows).
  { unfold xs, sum_one, column.
    rewrite scale_of_length, length_take, length_drop. lia. }
  unfold write_view. cbn [get_column view_base]. unfold h_j.
  rewrite lookup_insert_eq. fold done. fold cur. rewrite Hin.
  cbn [get_column view_first view_len].
  destruct (Z.eqb_spec (size xs) (num_rows m)) as [_|Hne];
    [|unfold size in Hne; lia].
  cbn [andb]. rewrite insert_insert_eq. do 2 f_equal.
  rewrite Hj1, columns_done_S. fold done. fold xs.
  rewrite <- app_assoc. f_equal.
  { rewrite Hfirst. unfold cur. now rewrite <- Hdone, take_app_length. }
  f_equal.
  replace (Z.to_nat (j * num_rows m + num_rows m))
    with (length done + rows)%nat by (subst rows; lia).
  unfold cur. rewrite drop_app_add, drop_drop. f_equal. lia.
Qed.

End Columns.

(** X17.  For a matrix of [num_rows] by [num_cols] entries in a buffer,
    [apply_to_matrix] returns its argument: the result is in the buffer of
    the argument, which now holds, column after column, each column of
    before as [linalg::scale] leaves it for the factor [1.0 / sum], the sum
    being that of the column itself; the other buffers are as they were.
    All that is asked of [linalg::scale] is that it stores as many entries
    as it reads. *)
Theorem apply_to_matrix_spec (sum_of : list float -> float)
    (scale_of : list float -> float -> list float) (m : SGMatrix)
    (h : gmap positive (list float)) (buf : list float) :
  (forall l alpha, length (scale_of l alpha) = length l) ->
  h !! matrix m = Some buf ->
  0 <= num_rows m -> 0 <= num_cols m ->
  size buf = num_rows m * num_cols m ->
  exists h',
    apply_to_matrix sum_of scale_of m h = Ok (m, h') /\
    h' !! matrix m
    = Some (columns_done sum_of scale_of (Z.to_nat (num_rows m)) buf
              (Z.to_nat (num_cols m))) /\
    size (columns_done sum_of scale_of (Z.to_nat (num_rows m)) buf
            (Z.to_nat (num_cols m))) = size buf /\
    (forall p, p <> matrix m -> h' !! p = h !! p).
Proof.
  intros Hlen Hbuf Hrows Hcols Hsize. unfold apply_to_matrix.
  set (rows := Z.to_nat (num_rows m)).
  destruct (for_range_inv
              (fun i (hi : gmap positive (list float)) =>
                 hi = <[matrix m :=
                          columns_done sum_of scale_of rows buf (Z.to_nat i)
                          ++ drop (Z.to_nat i * rows) buf]> h)
              (fun i h0 =>
                 let* s := linalg_sum sum_of h0 (get_column m i) in
                 linalg_scale scale_of h0 (get_column m i) (get_column m i)
                   (1 / s)%float)
              0 (num_cols m) h) as (h' & -> & ->).
  - exact Hcols.
  - simpl. symmetry. now apply insert_id.
  - intros j t Hj ->. eexists. split; [|reflexivity].
    now apply scale_column.
  - eexists. split; [reflexivity|].
    assert (Hall : (Z.to_nat (num_cols m) * rows)%nat = length buf).
    { unfold size in Hsize. subst rows. nia. }
    rewrite drop_ge, app_nil_r by lia.
    split; [now rewrite lookup_insert_eq|].
    split.
    + unfold size. rewrite length_columns_done by (assumption || lia). lia.
    + intros p Hp. now rewrite lookup_insert_ne.
Qed.

End SumOneMatrixFacts.

Lemma apply_to_matrix_spec_witness :
  SumOneMatrix.heap_2x2 !! SumOneMatrix.matrix SumOneMatrix.matrix_2x2
  = Some [1%float; 3%float; 2%float; 2%float] /\
  exists h',
    SumOneMatrix.apply_to_matrix SumOne.sum_left SumOneMatrix.scale_left
      SumOneMatrix.matrix_2x2 SumOneMatrix.heap_2x2
    = Ok (SumOneMatrix.matrix_2x2, h') /\
    h' !! 1%positive = Some [0.25%float; 0.75%float; 0.5%float; 0.5%float].
Proof.
  assert (Hbuf : SumOneMatrix.heap_2x2
                   !! SumOneMatrix.matrix SumOneMatrix.matrix_2x2
                 = Some [1%float; 3%float; 2%float; 2%float]) by reflexivity.
  split; [exact Hbuf|].
  destruct (SumOneMatrixFacts.apply_to_matrix_spec SumOne.sum_left
              SumOneMatrix.scale_left SumOneMatrix.matrix_2x2
              SumOneMatrix.heap_2x2 _
              ltac:(intros l alpha; apply length_map) Hbuf
              ltac:(simpl; lia) ltac:(simpl; lia) eq_refl)
    as (h' & Hrun & Hcols & _).
  exists h'. split; [exact Hrun|exact Hcols].
Defined.

Lemma argmax_feature_vectors_witness :
  argmax half_weights 0 true unary_model
  = (Ok unary_result_training, snd (argmax half_weights 0 true unary_model)) /\
  psi_truth unary_result_training
  = psi_spec (m_w_map unary_model) (get_data label_0)
      (get_factors unary_graph) /\
  size (psi_pred unary_result_training) = get_dim unary_model.
Proof.
  assert (H : argmax half_weights 0 true unary_model
              = (Ok unary_result_training,
                 snd (argmax half_weights 0 true unary_model)))
    by (vm_compute; reflexivity).
  split; [exact H|].
  destruct (argmax_feature_vectors half_weights 0 true unary_model _ _ H)
    as (fg0 & y_truth & Hfg & Hy & R).
  assert (Efg : fg0 = unary_graph).
  { change (Some unary_graph = Some fg0) in Hfg. now injection Hfg. }
  assert (Ey : y_truth = label_0).
  { change (Some label_0 = Some y_truth) in Hy. now injection Hy. }
  cbv zeta in R. rewrite Efg, Ey in R.
  destruct R as (_ & Htruth & _ & _ & Hsize).
  split; [exact Htruth|exact Hsize].
Defined.

(** ** A model that is not verbose prints nothing *)

Section Silent.

Context {FG : Type} `{!Collaborators FG}.
Implicit Types st : CFactorGraphModel FG.

Lemma silent_pure {A : Type} (f : CFactorGraphModel FG -> result A) :
  silent (fun st => (f st, st)).
Proof.
  intros st V. split; [exact V|]. exists []. simpl. now rewrite app_nil_r.
Qed.

Lemma silent_ret {A : Type} (a : A) : silent (ret a : method FG A).
Proof. apply silent_pure. Qed.

Lemma silent_lift {A : Type} (r : result A) : silent (lift r : method FG A).
Proof. apply silent_pure. Qed.

Lemma silent_get_sample (feat_idx : Z) :
  silent (get_sample feat_idx : method FG FG).
Proof. apply silent_pure. Qed.

Lemma silent_get_label (feat_idx : Z) :
  silent (get_label feat_idx : method FG _).
Proof. apply silent_pure. Qed.

Lemma silent_bind {A B : Type} (m : method FG A) (k : A -> method FG B) :
  silent m -> (forall a, silent (k a)) -> silent (bind m k).
Proof.
  intros Hm Hk st V. unfold bind.
  destruct (Hm st V) as (V1 & e1 & H1 & P1).
  destruct (m st) as [[a|e] st1]; simpl in *.
  - destruct (Hk a st1 V1) as (V2 & e2 & H2 & P2).
    split; [exact V2|]. exists (e1 ++ e2).
    rewrite H2, H1, <- app_assoc. split; [reflexivity|].
    rewrite forallb_app. now rewrite P1, P2.
  - split; [exact V1|]. exists e1. now split.
Qed.

(** The flag is read where [argmax] first tests it, at line 294; what
    follows runs with the value read. *)
Lemma silent_bind_verbose {B : Type} (k : bool -> method FG B) :
  silent (k false) ->
  silent (bind (fun st => (Ok (m_verbose st), st)) k).
Proof.
  intros Hk st V. unfold bind. rewrite V. exact (Hk st V).
Qed.

Lemma silent_update_sample (feat_idx : Z) (c : fg_call) (f : FG -> FG) :
  silent (update_sample feat_idx c f).
Proof.
  intros st V. unfold update_sample.
  destruct (vget (m_features st) feat_idx); simpl; (split; [exact V|]).
  - exists [Called feat_idx c]. now split.
  - exists []. now rewrite app_nil_r.
Qed.

Lemma silent_query_sample {A : Type} (feat_idx : Z) (c : fg_call)
    (f : FG -> A) :
  silent (query_sample feat_idx c f).
Proof.
  intros st V. unfold query_sample.
  destruct (vget (m_features st) feat_idx); simpl; (split; [exact V|]).
  - exists [Called feat_idx c]. now split.
  - exists []. now rewrite app_nil_r.
Qed.

Lemma silent_w_to_fparams (w : list float) :
  silent (w_to_fparams w : method FG unit).
Proof.
  intros st V. unfold w_to_fparams. rewrite V.
  destruct (equals (m_w_cache st) w);
    [split; [exact V|]; exists []; simpl; now rewrite app_nil_r|].
  destruct (negb (size w =? size (m_w_cache st)));
    [split; [exact V|]; exists []; simpl; now rewrite app_nil_r|].
  cbn [m_factor_types m_w_map m_w_cache with_w_cache].
  destruct (w_to_fparams_loop _ _ _ _) as [[offset fts]|];
    [destruct (offset =? _)|];
    (split; [exact V|]; exists []; simpl; now rewrite app_nil_r).
Qed.

Lemma silent_get_joint_feature_vector (feat_idx : Z)
    (y : CFactorGraphObservation) :
  silent (get_joint_feature_vector feat_idx y).
Proof.
  unfold get_joint_feature_vector.
  apply silent_bind; [apply silent_get_sample|]. intros _.
  apply silent_bind; [apply silent_query_sample|]. intros facs st V.
  destruct (new_vector 0%float (get_dim st));
    [destruct (accumulate_factors _ _ _ _)|];
    (split; [exact V|]; exists []; simpl; now rewrite app_nil_r).
Qed.

(** X19.  With the verbose flag off, no run of [w_to_fparams] and no run of
    [argmax], whether it returns or fails, prints anything: all that is
    appended to the trace are calls on the structure instance, and the flag
    stays off. *)
Theorem not_verbose_prints_nothing (w : list float) (feat_idx : Z)
    (training : bool) st :
  m_verbose st = false ->
  (m_verbose (snd (w_to_fparams w st)) = false /\
   trace (snd (w_to_fparams w st)) = trace st) /\
  (m_verbose (snd (argmax w feat_idx training st)) = false /\
   exists evs,
     trace (snd (argmax w feat_idx training st)) = trace st ++ evs /\
     forallb (fun e => negb (is_printed e)) evs = true).
Proof.
  intros V. split.
  - destruct (silent_w_to_fparams w st V) as (V' & evs & Htrace & Hcalls).
    split; [exact V'|].
    destruct (w_to_fparams_frame w st) as (_ & _ & _ & _ & _ & evs' & H1 & H2).
    rewrite H1 in Htrace. apply app_inv_head in Htrace. subst evs'.
    destruct evs as [|e evs]; [now rewrite H1, app_nil_r|].
    simpl in H2, Hcalls. now destruct (is_printed e).
  - revert st V. change (silent (argmax w feat_idx training)).
    unfold argmax.
    repeat first
      [ apply silent_ret
      | apply silent_lift
      | apply silent_get_sample
      | apply silent_get_label
      | apply silent_update_sample
      | apply silent_query_sample
      | apply silent_w_to_fparams
      | apply silent_get_joint_feature_vector
      | apply silent_bind_verbose; cbn [when]
      | apply silent_bind; [|intros ?]
      | apply silent_pure
      | match goal with
        | |- silent (match ?x with TREE_MAX_PROD => _ | _ => _ end) =>
            destruct x
        | |- silent (when ?c _) => destruct c; cbn [when]
        | |- silent (let '(_, _) := ?x in _) => destruct x
        end ].
Qed.

End Silent.

Lemma not_verbose_prints_nothing_witness :
  m_verbose unary_model = false /\
  trace (snd (w_to_fparams [1; 2; 3; 4]%float unary_model))
  = trace unary_model /\
  exists evs,
    trace (snd (argmax zero_weights 0 true unary_model))
    = trace unary_model ++ evs /\
    forallb (fun e => negb (is_printed e)) evs = true.
Proof.
  assert (V : m_verbose unary_model = false) by reflexivity.
  split; [exact V|].
  destruct (not_verbose_prints_nothing [1; 2; 3; 4]%float 0 true unary_model V)
    as ((_ & Hw) & _).
  destruct (not_verbose_prints_nothing zero_weights 0 true unary_model V)
    as (_ & _ & Hrun).
  split; [exact Hw|exact Hrun].
Defined.
